(** * Persona-driven document intelligence: relevance scoring engine

    A shallow embedding of [persona_analyzer.py] and [relevance_scorer.py],
    with the section extraction of [document_processor.py] and the excerpts
    of [output_formatter.py].

    Conventions of the embedding.
    - A Python [str] is a [list ascii].  The model covers ASCII text: code
      points above 127 are carried along as caseless symbols that are neither
      whitespace nor word characters.
    - A Python [float] is a real number ([R]) wherever a statement holds
      of the rounded values as well (bounds, orders, equal operations on
      both sides).  Statements about the exact value of a sum are made of
      the structural score in binary64, in the module [Binary64].
    - A Python [set] of strings is a duplicate-free list; only its size and
      membership are ever observed by the code.
    - A Python [dict] literal that is iterated is an association list in
      insertion order.
    - Operations that can raise ([list] indexing, [Match.group]) live in the
      [result] monad below. *)

From Stdlib Require Import Ascii String.
From Stdlib Require Import Bool Arith ZArith Lia Reals Lra.
From Stdlib Require Import List Permutation.
From Stdlib Require Floats QArith Qabs.
Import ListNotations.

Set Implicit Arguments.

Local Open Scope string_scope.
Local Open Scope list_scope.
Local Open Scope nat_scope.

(** ** Python strings *)

Module PyStr.

Definition str := list ascii.

Definition lit (s : string) : str := list_ascii_of_string s.

Definition str_eq_dec : forall a b : str, {a = b} + {a <> b} :=
  list_eq_dec ascii_dec.

Definition str_eqb (a b : str) : bool :=
  if str_eq_dec a b then true else false.

Definition code (c : ascii) : nat := nat_of_ascii c.

(** [str.isspace] on the ASCII range: TAB, LF, VT, FF, CR, FS, GS, RS, US
    and SPACE. *)
Definition isspace (c : ascii) : bool :=
  let n := code c in
  ((9 <=? n) && (n <=? 13)) || ((28 <=? n) && (n <=? 31)) || (n =? 32).

Definition isupper (c : ascii) : bool :=
  let n := code c in (65 <=? n) && (n <=? 90).

Definition islower (c : ascii) : bool :=
  let n := code c in (97 <=? n) && (n <=? 122).

Definition isdigit (c : ascii) : bool :=
  let n := code c in (48 <=? n) && (n <=? 57).

Definition isalpha (c : ascii) : bool := isupper c || islower c.

Definition lower_char (c : ascii) : ascii :=
  if isupper c then ascii_of_nat (code c + 32) else c.

Definition upper_char (c : ascii) : ascii :=
  if islower c then ascii_of_nat (code c - 32) else c.

(** [s.lower()] *)
Definition lower (s : str) : str := map lower_char s.

(** [s.startswith(p)] *)
Fixpoint starts_with (p s : str) : bool :=
  match p, s with
  | [], _ => true
  | _ :: _, [] => false
  | a :: p', b :: s' => Ascii.eqb a b && starts_with p' s'
  end.

(** [p in s] for two strings: [p] occurs as a contiguous substring. *)
Fixpoint contains (p s : str) : bool :=
  starts_with p s ||
  match s with
  | [] => false
  | _ :: s' => contains p s'
  end.

(** [s.split()]: maximal runs of non-whitespace characters. *)
Fixpoint split_ws_from (cur : str) (s : str) : list str :=
  match s with
  | [] => match cur with [] => [] | _ => [rev cur] end
  | c :: s' =>
      if isspace c
      then match cur with
           | [] => split_ws_from [] s'
           | _ => rev cur :: split_ws_from [] s'
           end
      else split_ws_from (c :: cur) s'
  end.

Definition split_ws (s : str) : list str := split_ws_from [] s.

(** [len(s.split())] *)
Definition word_count (s : str) : nat := length (split_ws s).

Fixpoint lstrip (s : str) : str :=
  match s with
  | [] => []
  | c :: s' => if isspace c then lstrip s' else s
  end.

Definition rstrip (s : str) : str := rev (lstrip (rev s)).

(** [s.strip()] *)
Definition strip (s : str) : str := rstrip (lstrip s).

(** [s.split(sep)] for a one-character separator: empty pieces are kept and
    the result is never empty. *)
Fixpoint split_on_from (sep : ascii) (cur : str) (s : str) : list str :=
  match s with
  | [] => [rev cur]
  | c :: s' =>
      if Ascii.eqb c sep
      then rev cur :: split_on_from sep [] s'
      else split_on_from sep (c :: cur) s'
  end.

Definition split_on (sep : ascii) (s : str) : list str :=
  split_on_from sep [] s.

(** [s.replace(a, b)] for one-character [a] and [b]. *)
Definition replace_char (a b : ascii) (s : str) : str :=
  map (fun c => if Ascii.eqb c a then b else c) s.

(** [sep.join(parts)] *)
Fixpoint join (sep : str) (parts : list str) : str :=
  match parts with
  | [] => []
  | [p] => p
  | p :: rest => p ++ sep ++ join sep rest
  end.

(** [any(k in text for k in ks)] *)
Definition any_in (ks : list str) (text : str) : bool :=
  existsb (fun k => contains k text) ks.

(** [sum(1 for k in ks if k in text)] *)
Definition count_in (ks : list str) (text : str) : nat :=
  length (filter (fun k => contains k text) ks).

(** Python sets of strings. *)
Definition py_set (l : list str) : list str := nodup str_eq_dec l.

Definition set_mem (x : str) (s : list str) : bool :=
  if in_dec str_eq_dec x s then true else false.

(** [a.union(b)] *)
Definition union (a b : list str) : list str := py_set (a ++ b).

(** Two lists holding the same set. *)
Definition same_set (a b : list str) : Prop := forall x, In x a <-> In x b.

(** [a - b] *)
Definition difference (a b : list str) : list str :=
  filter (fun x => negb (set_mem x b)) a.

End PyStr.

Import PyStr.

(** ** Exceptions *)

(** The exceptions the modelled code could raise. *)
Inductive exn := IndexError | ZeroDivisionError | AttributeError | TypeError.

Inductive result (A : Type) :=
| Ok (a : A)
| Raise (e : exn).

Arguments Ok {A} a.
Arguments Raise {A} e.

Definition bind {A B} (m : result A) (f : A -> result B) : result B :=
  match m with
  | Ok a => f a
  | Raise e => Raise e
  end.

Notation "x <- m ;; k" := (bind m (fun x => k))
  (at level 61, m at next level, right associativity).

(** [l[i]] for a non-negative index. *)
Definition index {A} (l : list A) (i : nat) : result A :=
  match nth_error l i with
  | Some a => Ok a
  | None => Raise IndexError
  end.

Fixpoint mapM {A B} (f : A -> result B) (l : list A) : result (list B) :=
  match l with
  | [] => Ok []
  | a :: l' => b <- f a ;; bs <- mapM f l' ;; Ok (b :: bs)
  end.

(** ** Python lists *)

Module PyList.

(** [l[:k]] for an integer [k]: a negative [k] counts from the end. *)
Definition slice_to {A} (l : list A) (k : Z) : list A :=
  if (0 <=? k)%Z then firstn (Z.to_nat k) l
  else firstn (length l - Z.to_nat (- k)) l.

(** [enumerate(l)] *)
Definition enumerate {A} (l : list A) : list (nat * A) :=
  combine (seq 0 (length l)) l.

(** [l.sort(key=key, reverse=True)]: the sort is stable, so elements with
    equal keys keep their order.  An element is inserted in front of
    everything that has been sorted behind it, as far as the keys allow. *)
Fixpoint insert_desc {A} (key : A -> R) (x : A) (l : list A) : list A :=
  match l with
  | [] => [x]
  | y :: l' =>
      if Rlt_dec (key x) (key y) then y :: insert_desc key x l' else x :: l
  end.

Definition sort_desc {A} (key : A -> R) (l : list A) : list A :=
  fold_right (insert_desc key) [] l.

(** The keys of a list never increase from an element to the next. *)
Inductive descending {A} (key : A -> R) : list A -> Prop :=
| desc_nil : descending key []
| desc_one x : descending key [x]
| desc_cons x y l :
    (key y <= key x)%R -> descending key (y :: l) ->
    descending key (x :: y :: l).

(** The elements of a list whose key is [k], in their order. *)
Definition with_key {A} (key : A -> R) (k : R) (l : list A) : list A :=
  filter (fun x => if Req_EM_T (key x) k then true else false) l.

(** The index of the first element satisfying [p]. *)
Fixpoint find_index {A} (p : A -> bool) (l : list A) : option nat :=
  match l with
  | [] => None
  | x :: l' =>
      if p x then Some 0
      else match find_index p l' with
           | Some i => Some (S i)
           | None => None
           end
  end.

End PyList.

Import PyList.

(** Iteration over a dictionary of indicator lists in insertion order,
    returning the key of the first entry one of whose indicators occurs in
    the text:
    [for key, indicators in table.items():
         if any(i in text for i in indicators): return key]. *)
Fixpoint first_hit (table : list (str * list str)) (text : str) : option str :=
  match table with
  | [] => None
  | (key, indicators) :: rest =>
      if any_in indicators text then Some key else first_hit rest text
  end.

(** An entry none of whose indicators occurs in the text. *)
Definition no_hit (text : str) (e : str * list str) : Prop :=
  any_in (snd e) text = false.

(** ** Regular expressions

    The analyzer uses Python's [re] module with a dozen fixed patterns.  The
    patterns are embedded as syntax trees and run by a backtracking matcher
    with [re]'s priorities: alternatives left to right, greedy repetition,
    leftmost match.  None of the patterns can match the empty string.  A
    repetition counts its rounds down from the length of the text still to
    be read; every round reads at least one character, so the count is never
    what ends a match, and likewise for the matches [findall] collects. *)

Module Re.

Inductive regex :=
| Eps
| CharSet (negate : bool) (p : ascii -> bool)
| Seq (a b : regex)
| Alt (a b : regex)
| Star (a : regex)
| Group (n : nat) (a : regex)
| Bol
| WordB.

Definition Plus (a : regex) : regex := Seq a (Star a).

(** [a?] *)
Definition Opt (a : regex) : regex := Alt a Eps.

Definition Chr (c : ascii) : regex := CharSet false (Ascii.eqb c).

Fixpoint Lit (s : str) : regex :=
  match s with
  | [] => Eps
  | c :: s' => Seq (Chr c) (Lit s')
  end.

Definition Word (s : string) : regex := Lit (lit s).

Fixpoint Alts (l : list regex) : regex :=
  match l with
  | [] => CharSet false (fun _ => false)
  | [a] => a
  | a :: rest => Alt a (Alts rest)
  end.

Fixpoint Seqs (l : list regex) : regex :=
  match l with
  | [] => Eps
  | [a] => a
  | a :: rest => Seq a (Seqs rest)
  end.

(** Number of capturing groups of a pattern. *)
Fixpoint ngroups (r : regex) : nat :=
  match r with
  | Eps | CharSet _ _ | Bol | WordB => 0
  | Seq a b | Alt a b => ngroups a + ngroups b
  | Star a => ngroups a
  | Group _ a => S (ngroups a)
  end.

(** [\w] on ASCII *)
Definition isword (c : ascii) : bool :=
  isalpha c || isdigit c || Ascii.eqb c "_"%char.

Definition isword_opt (c : option ascii) : bool :=
  match c with
  | Some c => isword c
  | None => false
  end.

(** A position in the subject: the character before it (none at the start
    of the string), the text after it, and the groups captured so far. *)
Record mstate := MState {
  prev : option ascii;
  rest : str;
  caps : list (nat * str)
}.

(** Membership of a character in a set; with [re.IGNORECASE] both case
    variants of the character are tried before the negation is applied. *)
Definition in_set (ic negate : bool) (p : ascii -> bool) (c : ascii) : bool :=
  xorb negate (if ic then p (lower_char c) || p (upper_char c) else p c).

Fixpoint run (A : Type) (ic : bool) (r : regex) (st : mstate)
    (k : mstate -> option A) {struct r} : option A :=
  match r with
  | Eps => k st
  | CharSet negate p =>
      match rest st with
      | [] => None
      | c :: s' =>
          if in_set ic negate p c
          then k (MState (Some c) s' (caps st))
          else None
      end
  | Seq a b => run ic a st (fun st' => run ic b st' k)
  | Alt a b =>
      match run ic a st k with
      | Some x => Some x
      | None => run ic b st k
      end
  | Star a =>
      (fix loop (fuel : nat) (st : mstate) {struct fuel} : option A :=
         match fuel with
         | O => k st
         | S fuel' =>
             match run ic a st
                     (fun st' =>
                        if length (rest st') <? length (rest st)
                        then loop fuel' st'
                        else None) with
             | Some x => Some x
             | None => k st
             end
         end) (length (rest st)) st
  | Group n a =>
      run ic a st
        (fun st' =>
           let text := firstn (length (rest st) - length (rest st')) (rest st) in
           k (MState (prev st') (rest st') ((n, text) :: caps st')))
  | Bol =>
      match prev st with
      | None => k st
      | Some _ => None
      end
  | WordB =>
      if xorb (isword_opt (prev st)) (isword_opt (hd_error (rest st)))
      then k st
      else None
  end.

(** A match object: the matched text, the captured groups, and the position
    just after the match. *)
Record rmatch := RMatch {
  whole : str;
  captured : list (nat * str);
  after : mstate
}.

Definition match_at (ic : bool) (r : regex) (p : option ascii) (s : str)
  : option rmatch :=
  run ic r (MState p s [])
    (fun st' =>
       Some (RMatch (firstn (length s - length (rest st')) s) (caps st')
               (MState (prev st') (rest st') []))).

(** [re.match(r, s)] *)
Definition re_match (ic : bool) (r : regex) (s : str) : option rmatch :=
  match_at ic r None s.

Fixpoint search_from (ic : bool) (r : regex) (p : option ascii) (s : str)
  : option rmatch :=
  match match_at ic r p s with
  | Some m => Some m
  | None =>
      match s with
      | [] => None
      | c :: s' => search_from ic r (Some c) s'
      end
  end.

(** [re.search(r, s)] *)
Definition re_search (ic : bool) (r : regex) (s : str) : option rmatch :=
  search_from ic r None s.

Fixpoint lookup_group (n : nat) (l : list (nat * str)) : option str :=
  match l with
  | [] => None
  | (i, t) :: l' => if i =? n then Some t else lookup_group n l'
  end.

(** [m.group(n)] for a pattern with [total] groups: [IndexError] for a group
    the pattern does not have, [None] for a group that took no part in the
    match. *)
Definition group (total : nat) (m : rmatch) (n : nat) : result (option str) :=
  match n with
  | O => Ok (Some (whole m))
  | _ => if n <=? total then Ok (lookup_group n (captured m))
         else Raise IndexError
  end.

Fixpoint all_matches (fuel : nat) (ic : bool) (r : regex) (p : option ascii)
    (s : str) : list rmatch :=
  match fuel with
  | O => []
  | S fuel' =>
      match search_from ic r p s with
      | None => []
      | Some m =>
          match whole m, rest (after m) with
          | [], c :: s' => m :: all_matches fuel' ic r (Some c) s'
          | [], [] => [m]
          | _ :: _, s' => m :: all_matches fuel' ic r (prev (after m)) s'
          end
      end
  end.

(** An element of the list returned by [re.findall]. *)
Inductive found :=
| FStr (s : str)
| FTuple (l : list str).

Definition group_text (m : rmatch) (n : nat) : str :=
  match lookup_group n (captured m) with
  | Some t => t
  | None => []
  end.

(** [re.findall(r, s)]: the whole match for a pattern without groups, the
    group for a pattern with one group, the tuple of groups otherwise. *)
Definition re_findall (ic : bool) (r : regex) (s : str) : list found :=
  let ms := all_matches (S (length s)) ic r None s in
  match ngroups r with
  | 0 => map (fun m => FStr (whole m)) ms
  | 1 => map (fun m => FStr (group_text m 1)) ms
  | n => map (fun m => FTuple (map (group_text m) (seq 1 n))) ms
  end.

End Re.

(** ** persona_analyzer.py *)

Module PersonaAnalyzer.

Import Re.

Record PersonaProfile := {
  role : str;
  expertise_domains : list str;
  focus_areas : list str;
  skill_level : str;
  keywords : list str
}.

Record JobRequirements := {
  primary_goal : str;
  information_needs : list str;
  deliverable_type : str;
  priority_keywords : list str;
  success_criteria : list str
}.

Definition entry (key : string) (values : list string) : str * list str :=
  (lit key, map lit values).

(** [self.domain_keywords] *)
Definition domain_keywords : list (str * list str) := [
  entry "computer_science"
    ["algorithm"; "programming"; "software"; "computing"; "data structure";
     "AI"; "ML"; "neural network"];
  entry "biology"
    ["gene"; "protein"; "cell"; "organism"; "evolution"; "molecular";
     "biochemistry"; "genetics"];
  entry "chemistry"
    ["reaction"; "compound"; "molecule"; "synthesis"; "organic"; "inorganic";
     "kinetics"; "thermodynamics"];
  entry "finance"
    ["revenue"; "profit"; "investment"; "market"; "financial"; "economics";
     "trading"; "portfolio"];
  entry "medicine"
    ["patient"; "treatment"; "diagnosis"; "clinical"; "therapeutic";
     "medical"; "healthcare"; "disease"];
  entry "research"
    ["study"; "analysis"; "methodology"; "experiment"; "hypothesis";
     "literature"; "peer review"; "publication"];
  entry "education"
    ["student"; "learning"; "curriculum"; "teaching"; "academic"; "exam";
     "course"; "study"];
  entry "business"
    ["strategy"; "management"; "operations"; "marketing"; "sales";
     "customer"; "competitive"; "market"]
].


(** [self.job_types] *)
Definition job_types : list (str * list str) := [
  entry "analysis"
    ["analyze"; "analysis"; "examine"; "evaluate"; "assess"; "compare"];
  entry "synthesis"
    ["summarize"; "compile"; "integrate"; "combine"; "consolidate"];
  entry "review"
    ["review"; "survey"; "overview"; "comprehensive"; "literature"];
  entry "preparation" ["prepare"; "create"; "develop"; "design"; "build"];
  entry "identification" ["identify"; "find"; "locate"; "extract"; "select"];
  entry "learning" ["learn"; "study"; "understand"; "master"; "practice"]
].

(** A pattern, written next to the text it has in the Python source. *)
Definition pat (source : string) (r : regex) : regex := r.

(** Pattern fragments. *)
Definition upper_ : regex := CharSet false isupper.
Definition lower_ : regex := CharSet false islower.
Definition alpha_ : regex := CharSet false isalpha.
Definition ws_ : regex := CharSet false isspace.

Definition title_words : regex :=
  pat "[A-Z][a-z]+(?:\s+[A-Z][a-z]+)*"
    (Seqs [upper_; Plus lower_; Star (Seqs [Plus ws_; upper_; Plus lower_])]).


(** [role_patterns], matched with [re.IGNORECASE]. *)
Definition role_patterns : list regex := [
  pat "(PhD\s+)?([A-Z][a-z]+(?:\s+[A-Z][a-z]+)*)\s+(?:Researcher|Student|Analyst|Manager|Director)"
    (Seqs [Opt (Group 1 (Seq (Word "PhD") (Plus ws_)));
           Group 2 title_words; Plus ws_;
           Alts [Word "Researcher"; Word "Student"; Word "Analyst";
                 Word "Manager"; Word "Director"]]);
  pat "(Undergraduate|Graduate)\s+([A-Z][a-z]+(?:\s+[A-Z][a-z]+)*)\s+Student"
    (Seqs [Group 1 (Alts [Word "Undergraduate"; Word "Graduate"]); Plus ws_;
           Group 2 title_words; Plus ws_; Word "Student"]);
  pat "([A-Z][a-z]+(?:\s+[A-Z][a-z]+)*)\s+(Analyst|Researcher|Scientist|Engineer|Manager)"
    (Seqs [Group 1 title_words; Plus ws_;
           Group 2 (Alts [Word "Analyst"; Word "Researcher"; Word "Scientist";
                          Word "Engineer"; Word "Manager"])])
].

(** [domain_patterns], case-sensitive. *)
Definition domain_patterns : list regex := [
  pat "in\s+([A-Z][a-z]+(?:\s+[A-Z][a-z]+)*)"
    (Seqs [Word "in"; Plus ws_; Group 1 title_words]);
  pat "([A-Z][a-z]+(?:\s+[A-Z][a-z]+)*)\s+(?:research|studies|field)"
    (Seqs [Group 1 title_words; Plus ws_;
           Alts [Word "research"; Word "studies"; Word "field"]])
].



(** The tokenizer of both keyword extractors. *)
Definition word_pattern : regex :=
  pat "\b[a-zA-Z]{3,}\b"
    (Seqs [WordB; alpha_; alpha_; alpha_; Star alpha_; WordB]).


Definition persona_stop_words : list str := map lit
  ["the"; "and"; "for"; "are"; "but"; "not"; "you"; "all"; "can"; "had";
   "her"; "was"; "one"; "our"; "out"; "day"; "get"; "has"; "him"; "his";
   "how"; "man"; "new"; "now"; "old"; "see"; "two"; "way"; "who"; "its";
   "said"; "each"; "make"; "most"; "over"; "such"; "very"; "what"; "with"].

Definition job_stop_words : list str :=
  persona_stop_words ++
  map lit ["given"; "that"; "this"; "should"; "will"; "from"].

(** The first pattern of the list that matches, as in
    [for pattern in patterns: match = re.search(...); if match: return ...]. *)
Fixpoint first_search (ic : bool) (patterns : list regex) (s : str)
  : option (regex * rmatch) :=
  match patterns with
  | [] => None
  | p :: rest =>
      match re_search ic p s with
      | Some m => Some (p, m)
      | None => first_search ic rest s
      end
  end.

(** A [None] where the caller goes on to use a string. *)
Definition as_str (o : option str) : result str :=
  match o with
  | Some s => Ok s
  | None => Raise AttributeError
  end.

Definition _extract_role (description : str) : result str :=
  match first_search true role_patterns description with
  | Some (p, m) =>
      g <- group (ngroups p) m 0 ;;
      s <- as_str g ;;
      Ok (strip s)
  | None =>
      let words := split_ws description in
      if 2 <=? length words
      then Ok (join (lit " ") (firstn 3 words))
      else Ok (strip description)
  end.


(** The loop body [if isinstance(match, tuple): match = match[0] if match[0]
    else match[1]] followed by [match.lower().replace(' ', '_')]. *)
Definition domain_tag (f : found) : result str :=
  m <- match f with
       | FStr s => Ok s
       | FTuple t =>
           m0 <- index t 0 ;;
           match m0 with
           | [] => index t 1
           | _ => Ok m0
           end
       end ;;
  Ok (replace_char " "%char "_"%char (lower m)).

Definition _extract_expertise_domains (description : str) : result (list str) :=
  let description_lower := lower description in
  let domains :=
    map fst (filter (fun e => any_in (snd e) description_lower) domain_keywords) in
  tags <- mapM domain_tag
            (flat_map (fun p => re_findall false p description) domain_patterns) ;;
  Ok (py_set (domains ++ tags)).



Definition found_str (f : found) : result str :=
  match f with
  | FStr s => Ok s
  | FTuple _ => Raise TypeError
  end.

Definition lookup (table : list (str * list str)) (key : str)
  : option (list str) :=
  match find (fun e => str_eqb (fst e) key) table with
  | Some e => Some (snd e)
  | None => None
  end.

Definition _generate_persona_keywords (description : str) (domains : list str)
  : result (list str) :=
  words <- mapM found_str (re_findall false word_pattern (lower description)) ;;
  let keywords := py_set words in
  let keywords :=
    fold_left
      (fun acc domain =>
         match lookup domain_keywords domain with
         | Some kws => union acc (py_set kws)
         | None => acc
         end)
      domains keywords in
  Ok (difference keywords persona_stop_words).




Definition _determine_deliverable_type (job_description : str) : str :=
  let description_lower := lower job_description in
  match first_hit job_types description_lower with
  | Some job_type => job_type
  | None => lit "analysis"
  end.

Definition _extract_priority_keywords (job_description : str)
  : result (list str) :=
  words <- mapM found_str
             (re_findall false word_pattern (lower job_description)) ;;
  Ok (difference (py_set words) job_stop_words).

Definition default_criteria : list str := map lit
  ["Relevant content extraction"; "Clear organization"; "Actionable insights"].



End PersonaAnalyzer.

(** ** The builtin [float] on the strings the scorer gives it

    [_calculate_structural_score] calls [float] on the part of a section
    number before its first dot, so the argument never holds a dot.  After
    trimming, [float] accepts an optional sign followed by [inf], [infinity],
    [nan] (in any case) or by decimal digits (single underscores allowed
    between digits) with an optional exponent. *)

Module PyFloat.

Inductive value :=
| Num (negative : bool) (mantissa : N) (exp10 : Z)
| Inf (negative : bool)
| NaN.

Definition digit_value (c : ascii) : N := N.of_nat (code c - 48).

(** [digitpart ::= digit (["_"] digit)*], read from the left; returns the
    value and the unread text. *)
Fixpoint digits_from (acc : N) (s : str) : N * str :=
  match s with
  | c :: s' =>
      if isdigit c then digits_from (acc * 10 + digit_value c)%N s'
      else if Ascii.eqb c "_"%char
      then match s' with
           | d :: _ => if isdigit d then digits_from acc s' else (acc, s)
           | [] => (acc, s)
           end
      else (acc, s)
  | [] => (acc, s)
  end.

Definition digitpart (s : str) : option (N * str) :=
  match s with
  | c :: _ => if isdigit c then Some (digits_from 0%N s) else None
  | [] => None
  end.

Definition sign (s : str) : bool * str :=
  match s with
  | c :: s' =>
      if Ascii.eqb c "-"%char then (true, s')
      else if Ascii.eqb c "+"%char then (false, s')
      else (false, s)
  | [] => (false, s)
  end.

Definition exponent (s : str) : option Z :=
  match s with
  | [] => Some 0%Z
  | c :: s' =>
      if Ascii.eqb (lower_char c) "e"%char
      then let (neg, s'') := sign s' in
           match digitpart s'' with
           | Some (e, []) => Some (if neg then (- Z.of_N e)%Z else Z.of_N e)
           | _ => None
           end
      else None
  end.

(** The blanks that [float] and [int] skip around an ASCII string: TAB, LF,
    VT, FF, CR and SPACE.  Unlike [str.strip] they leave the codes 28 to 31
    in place. *)
Definition isblank (c : ascii) : bool :=
  let n := code c in ((9 <=? n) && (n <=? 13)) || (n =? 32).

Fixpoint skip_blanks (s : str) : str :=
  match s with
  | [] => []
  | c :: s' => if isblank c then skip_blanks s' else s
  end.

Definition trim (s : str) : str := rev (skip_blanks (rev (skip_blanks s))).

(** [float(s)]; [None] stands for [ValueError]. *)
Definition parse (s : str) : option value :=
  let (neg, body) := sign (trim s) in
  let word := lower body in
  if str_eqb word (lit "inf") || str_eqb word (lit "infinity") then Some (Inf neg)
  else if str_eqb word (lit "nan") then Some NaN
  else match digitpart body with
       | Some (m, tail) =>
           match exponent tail with
           | Some e => Some (Num neg m e)
           | None => None
           end
       | None => None
       end.

(** [x <= 3] for a parsed value.  [float] rounds the decimal to the nearest
    double, ties to even, and the doubles next to 3 are [3 - 2^-51] and
    [3 + 2^-51]: the rounded value is at most 3 exactly when the decimal is
    at most [3 + 2^-52]. *)
Definition le_3 (x : value) : bool :=
  match x with
  | NaN => false
  | Inf negative => negative
  | Num true _ _ => true
  | Num false m e =>
      let bound := (3 * 2 ^ 52 + 1)%Z in
      if (0 <=? e)%Z
      then (Z.of_N m * 10 ^ e * 2 ^ 52 <=? bound)%Z
      else (Z.of_N m * 2 ^ 52 <=? bound * 10 ^ (- e))%Z
  end.

End PyFloat.

(** ** document_processor.py: the data the scorer consumes *)

Record DocumentSection := {
  title : str;
  content : str;
  page_number : Z;
  section_number : option str;
  start_position : option Z;
  end_position : option Z
}.

(** The [metadata] dictionary of a document is never read by the scorer and
    is left out. *)
Record ProcessedDocument := {
  filename : str;
  total_pages : Z;
  sections : list DocumentSection
}.

(** ** relevance_scorer.py *)

Module RelevanceScorer.

Import PersonaAnalyzer.

Local Open Scope R_scope.

Record ScoredSection := {
  document : str;
  section : DocumentSection;
  relevance_score : R;
  persona_alignment : R;
  job_alignment : R;
  importance_rank : Z
}.

Module Sub.

Record SubSection := {
  document : str;
  page_number : Z;
  refined_text : str;
  parent_section : str;
  relevance_score : R
}.

End Sub.

(** A sub-section whose score lies between 0 and 1. *)
Definition unit_score (s : Sub.SubSection) : Prop :=
  0 <= Sub.relevance_score s <= 1.

(** [self.weights]; the keys [persona_alignment] and [job_alignment] carry a
    suffix here, their names being taken by the fields of [ScoredSection]. *)
Record Weights := {
  keyword_match : R;
  semantic_similarity : R;
  structural_importance : R;
  persona_alignment_weight : R;
  job_alignment_weight : R
}.

Definition weights : Weights := {|
  keyword_match := 0.3;
  semantic_similarity := 0.2;
  structural_importance := 0.2;
  persona_alignment_weight := 0.15;
  job_alignment_weight := 0.15
|}.

(** [persona.keywords.union(job.priority_keywords)] *)
Definition all_keywords (persona : PersonaProfile) (job : JobRequirements)
  : list str :=
  union (keywords persona) (priority_keywords job).

Definition _calculate_keyword_score (section : DocumentSection)
    (persona : PersonaProfile) (job : JobRequirements) : R :=
  let content_lower := lower (content section) in
  let title_lower := lower (title section) in
  let all_keywords := all_keywords persona job in
  match all_keywords with
  | [] => 0
  | _ =>
      let content_matches := count_in all_keywords content_lower in
      let title_matches := count_in all_keywords title_lower in
      let total_matches := (content_matches + title_matches * 2)%nat in
      let content_words := word_count content_lower in
      if (content_words =? 0)%nat then 0
      else
        let score :=
          INR total_matches / sqrt (INR content_words)
            / sqrt (INR (length all_keywords)) in
        Rmin score 1
  end.

Definition high_value_terms : list str := map lit
  ["abstract"; "introduction"; "conclusion"; "summary"; "results";
   "methodology"; "methods"; "discussion"; "findings"; "analysis"].

(** The [try] block on the section number: does
    [float(section_number.split('.')[0]) <= 3] hold?  [ValueError] and
    [IndexError] are caught and leave the score as it is. *)
Definition first_number_le_3 (section_number : str) : bool :=
  match index (split_on "."%char section_number) 0 with
  | Ok first =>
      match PyFloat.parse first with
      | Some first_num => PyFloat.le_3 first_num
      | None => false
      end
  | Raise _ => false
  end.

Definition _calculate_structural_score (section : DocumentSection) : R :=
  let score := 0 in
  let title_lower := lower (title section) in
  let score :=
    if any_in high_value_terms title_lower then score + 0.3 else score in
  let score :=
    match section_number section with
    | None | Some [] => score
    | Some number =>
        if first_number_le_3 number then score + 0.2 else score
    end in
  let content_length := word_count (content section) in
  let score :=
    if ((50 <=? content_length) && (content_length <=? 500))%nat
    then score + 0.2
    else if (500 <? content_length)%nat then score + 0.1
    else score in
  let score := if (page_number section <=? 3)%Z then score + 0.1 else score in
  Rmin score 1.

(** [_get_domain_keywords]: the scorer's own table, looked up with
    [dict.get(domain, [])]. *)
Definition scorer_domain_keywords : list (str * list str) := [
  entry "computer_science"
    ["algorithm"; "programming"; "software"; "computing"; "data"; "neural";
     "machine"];
  entry "biology"
    ["gene"; "protein"; "cell"; "organism"; "molecular"; "genetic"];
  entry "chemistry"
    ["reaction"; "compound"; "molecule"; "synthesis"; "organic"; "kinetics"];
  entry "finance" ["revenue"; "profit"; "investment"; "market"; "financial"];
  entry "medicine"
    ["patient"; "treatment"; "clinical"; "therapeutic"; "medical"];
  entry "research"
    ["study"; "analysis"; "methodology"; "experiment"; "literature"];
  entry "education" ["learning"; "curriculum"; "academic"; "study"];
  entry "business" ["strategy"; "management"; "operations"; "marketing"]
].

Definition _get_domain_keywords (domain : str) : list str :=
  match lookup scorer_domain_keywords domain with
  | Some domain_keywords => domain_keywords
  | None => []
  end.

(** [sum(1 for keyword in ks if keyword in a or keyword in b)] *)
Definition count_in_either (ks : list str) (a b : str) : nat :=
  length (filter (fun k => contains k a || contains k b) ks).

(** [any(word in a or word in b for word in ws)] *)
Definition any_in_either (ws : list str) (a b : str) : bool :=
  existsb (fun w => contains w a || contains w b) ws.

(** One round of the loop over [persona.expertise_domains]. *)
Definition domain_step (content_lower title_lower : str) (score : R)
    (domain : str) : R :=
  let domain_keywords := _get_domain_keywords domain in
  let domain_matches := count_in_either domain_keywords content_lower title_lower in
  if (0 <? domain_matches)%nat then score + 0.3 else score.

(** One round of the loop over [persona.focus_areas] and over
    [job.information_needs]. *)
Definition phrase_step (content_lower title_lower : str) (score : R)
    (phrase : str) : R :=
  let words := split_ws (lower phrase) in
  if any_in_either words content_lower title_lower then score + 0.2 else score.

Definition technical_terms : list str := map lit
  ["methodology"; "analysis"; "framework"; "model"; "algorithm"].

Definition intro_terms : list str := map lit
  ["introduction"; "overview"; "basic"; "fundamental"; "concept"].

Definition _calculate_persona_alignment (section : DocumentSection)
    (persona : PersonaProfile) : R :=
  let content_lower := lower (content section) in
  let title_lower := lower (title section) in
  let score := 0 in
  let score :=
    fold_left (domain_step content_lower title_lower)
      (expertise_domains persona) score in
  let score :=
    fold_left (phrase_step content_lower title_lower)
      (focus_areas persona) score in
  let score :=
    if str_eqb (skill_level persona) (lit "expert")
    then if any_in technical_terms content_lower then score + 0.1 else score
    else if str_eqb (skill_level persona) (lit "beginner")
    then if any_in intro_terms content_lower then score + 0.1 else score
    else score in
  Rmin score 1.

Definition deliverable_keywords : list (str * list str) := [
  entry "analysis" ["analysis"; "analyze"; "examination"; "evaluation"];
  entry "synthesis" ["summary"; "overview"; "compilation"; "integration"];
  entry "review" ["review"; "survey"; "literature"; "comprehensive"];
  entry "preparation" ["methodology"; "approach"; "framework"; "procedure"];
  entry "identification" ["key"; "important"; "significant"; "main"];
  entry "learning" ["concept"; "principle"; "fundamental"; "theory"]
].

Definition _calculate_job_alignment (section : DocumentSection)
    (job : JobRequirements) : R :=
  let content_lower := lower (content section) in
  let title_lower := lower (title section) in
  let score := 0 in
  let goal_words := split_ws (lower (primary_goal job)) in
  let goal_matches := count_in_either goal_words content_lower title_lower in
  let score := if (0 <? goal_matches)%nat then score + 0.4 else score in
  let score :=
    fold_left (phrase_step content_lower title_lower)
      (information_needs job) score in
  let score :=
    match lookup deliverable_keywords (deliverable_type job) with
    | Some keywords =>
        if any_in keywords content_lower then score + 0.2 else score
    | None => score
    end in
  Rmin score 1.

(** *** Sub-section extraction *)

Definition is_sentence_end (c : ascii) : bool :=
  Ascii.eqb c "."%char || Ascii.eqb c "!"%char || Ascii.eqb c "?"%char.

(** [re.split(r'[.!?]+', content)]: the pieces between the maximal runs of
    sentence-ending punctuation; a run at either end of the text leaves an
    empty piece there. *)
Fixpoint split_sentences_from (cur : str) (in_run : bool) (s : str)
  : list str :=
  match s with
  | [] => [rev cur]
  | c :: s' =>
      if is_sentence_end c
      then if in_run then split_sentences_from [] true s'
           else rev cur :: split_sentences_from [] true s'
      else split_sentences_from (c :: cur) false s'
  end.

Definition split_sentences (content : str) : list str :=
  split_sentences_from [] false content.

(** [[s.strip() for s in sentences if len(s.strip()) > 20]] *)
Definition retained_sentences (content : str) : list str :=
  map strip
    (filter (fun s => (20 <? length (strip s))%nat) (split_sentences content)).

Definition quality_indicators : list str := map lit
  ["result"; "finding"; "conclusion"; "analysis"; "method"; "approach"].

Definition _score_sentence (sentence : str) (persona : PersonaProfile)
    (job : JobRequirements) : result R :=
  let sentence_lower := lower sentence in
  let all_keywords := all_keywords persona job in
  let keyword_matches := count_in all_keywords sentence_lower in
  if (word_count sentence =? 0)%nat then Raise ZeroDivisionError
  else
    let keyword_score :=
      Rmin (INR keyword_matches / INR (word_count sentence) * 2) 1 in
    let length := word_count sentence in
    let length_score :=
      if ((5 <=? length) && (length <=? 30))%nat then 1
      else if (length <? 5)%nat then 0.5
      else Rmax 0.1 (1 - (INR length - 30) * 0.02) in
    let quality_score :=
      if any_in quality_indicators sentence_lower then 0.3 else 0 in
    Ok (keyword_score * 0.6 + length_score * 0.2 + quality_score * 0.2).

(** [re.sub(r'\s+', ' ', text)] *)
Fixpoint collapse_ws_from (in_run : bool) (s : str) : str :=
  match s with
  | [] => []
  | c :: s' =>
      if isspace c
      then if in_run then collapse_ws_from true s'
           else " "%char :: collapse_ws_from true s'
      else c :: collapse_ws_from false s'
  end.

Definition collapse_ws (s : str) : str := collapse_ws_from false s.

Definition _refine_sentence_with_context (target_sentence : str)
    (all_sentences : list str) : result str :=
  match find_index (fun sentence => contains (strip target_sentence) sentence)
          all_sentences with
  | None => Ok target_sentence
  | Some target_index =>
      before <- (if (0 <? target_index)%nat
                 then s <- index all_sentences (target_index - 1) ;; Ok [s]
                 else Ok []) ;;
      after <- (if (target_index <? length all_sentences - 1)%nat
                then s <- index all_sentences (target_index + 1) ;; Ok [s]
                else Ok []) ;;
      let context_sentences := before ++ [target_sentence] ++ after in
      let refined_text := join (lit ". ") context_sentences in
      Ok (strip (collapse_ws refined_text))
  end.

Definition _extract_section_subsections (scored_section : ScoredSection)
    (persona : PersonaProfile) (job : JobRequirements) (max_subsections : Z)
  : result (list Sub.SubSection) :=
  let section := section scored_section in
  let sentences := retained_sentences (content section) in
  match sentences with
  | [] => Ok []
  | _ =>
      sentence_scores <-
        mapM (fun sentence =>
                score <- _score_sentence sentence persona job ;;
                Ok (sentence, score)) sentences ;;
      let sentence_scores := sort_desc snd sentence_scores in
      let top_sentences := slice_to sentence_scores max_subsections in
      mapM (fun top =>
              refined <- _refine_sentence_with_context (fst top) sentences ;;
              Ok {| Sub.document := document scored_section;
                    Sub.page_number := page_number section;
                    Sub.refined_text := refined;
                    Sub.parent_section := title section;
                    Sub.relevance_score := snd top |}) top_sentences
  end.

Definition extract_subsections (sections : list ScoredSection)
    (persona : PersonaProfile) (job : JobRequirements) (max_subsections : Z)
  : result (list Sub.SubSection) :=
  per_section <-
    mapM (fun scored_section =>
            _extract_section_subsections scored_section persona job
              max_subsections) sections ;;
  Ok (sort_desc Sub.relevance_score (concat per_section)).

(** *** Section scoring

    [TfidfVectorizer] and [cosine_similarity] belong to scikit-learn and are
    taken as given.  [fit_transform] learns a vocabulary from the corpus it
    is handed, replacing whatever the vectorizer held, and returns the
    document-term matrix; it can raise, and what the vectorizer holds then is
    [failed_fit].  [query_similarity v m q i] stands for
    [cosine_similarity(v.transform([q]), m[i:i+1])[0][0]], which can raise
    as well. *)

Section Scoring.

Variable vectorizer : Type.
Variable matrix : Type.
Variable fit_transform : list str -> option (vectorizer * matrix).
Variable failed_fit : vectorizer -> list str -> vectorizer.
Variable query_similarity : vectorizer -> matrix -> str -> nat -> option R.

Definition query_text (persona : PersonaProfile) (job : JobRequirements)
  : str :=
  role persona ++ lit " " ++ join (lit " ") (focus_areas persona) ++ lit " " ++
  primary_goal job ++ lit " " ++ join (lit " ") (information_needs job).

Definition _calculate_semantic_score (v : vectorizer)
    (section : DocumentSection) (persona : PersonaProfile)
    (job : JobRequirements) (tfidf_matrix : option matrix)
    (section_index : nat) : R :=
  match tfidf_matrix with
  | None => 0
  | Some m =>
      match query_similarity v m (query_text persona job) section_index with
      | Some similarity => similarity
      | None => 0
      end
  end.

(** The weighted sum of [score_sections]. *)
Definition combine_scores (keyword_score semantic_score structural_score
    persona_alignment job_alignment : R) : R :=
  keyword_match weights * keyword_score +
  semantic_similarity weights * semantic_score +
  structural_importance weights * structural_score +
  persona_alignment_weight weights * persona_alignment +
  job_alignment_weight weights * job_alignment.

(** The body of the loop over the worklist. *)
Definition score_one (v : vectorizer) (persona : PersonaProfile)
    (job : JobRequirements) (tfidf_matrix : option matrix)
    (item : nat * (str * DocumentSection)) : ScoredSection :=
  let i := fst item in
  let doc_name := fst (snd item) in
  let section := snd (snd item) in
  let keyword_score := _calculate_keyword_score section persona job in
  let semantic_score :=
    _calculate_semantic_score v section persona job tfidf_matrix i in
  let structural_score := _calculate_structural_score section in
  let persona_alignment := _calculate_persona_alignment section persona in
  let job_alignment := _calculate_job_alignment section job in
  let relevance_score :=
    combine_scores keyword_score semantic_score structural_score
      persona_alignment job_alignment in
  {| document := doc_name;
     section := section;
     relevance_score := relevance_score;
     persona_alignment := persona_alignment;
     job_alignment := job_alignment;
     importance_rank := 0 |}.

Definition set_rank (s : ScoredSection) (i : Z) : ScoredSection :=
  {| document := document s;
     section := section s;
     relevance_score := relevance_score s;
     persona_alignment := persona_alignment s;
     job_alignment := job_alignment s;
     importance_rank := i |}.

(** [for i, scored_section in enumerate(l, start): scored_section.importance_rank = i] *)
Fixpoint assign_ranks (start : Z) (l : list ScoredSection)
  : list ScoredSection :=
  match l with
  | [] => []
  | s :: l' => set_rank s start :: assign_ranks (start + 1) l'
  end.

(** The worklist [all_sections]. *)
Definition worklist (documents : list ProcessedDocument)
  : list (str * DocumentSection) :=
  flat_map (fun doc => map (fun section => (filename doc, section)) (sections doc))
    documents.

(** The [try] block around [fit_transform]: on an exception the matrix is
    [None]. *)
Definition try_fit (v : vectorizer) (section_texts : list str)
  : vectorizer * option matrix :=
  match fit_transform section_texts with
  | Some (v', m) => (v', Some m)
  | None => (failed_fit v section_texts, None)
  end.

(** [score_sections], run on a scorer whose vectorizer is [v]; returns the
    ranked list and the vectorizer the scorer is left with.  Every
    [ScoredSection] is a fresh object, so the ranks written after sorting
    reach exactly the elements of the returned slice. *)
Definition score_sections (v : vectorizer)
    (documents : list ProcessedDocument) (persona : PersonaProfile)
    (job : JobRequirements) (max_sections : Z)
  : list ScoredSection * vectorizer :=
  let all_sections := worklist documents in
  match all_sections with
  | [] => ([], v)
  | _ =>
      let section_texts := map (fun item => content (snd item)) all_sections in
      let fitted := try_fit v section_texts in
      let v' := fst fitted in
      let tfidf_matrix := snd fitted in
      let scored_sections :=
        map (score_one v' persona job tfidf_matrix) (enumerate all_sections) in
      let scored_sections := sort_desc relevance_score scored_sections in
      (assign_ranks 1 (slice_to scored_sections max_sections), v')
  end.

(** The list [scored_sections] as the loop leaves it, before it is sorted. *)
Definition scored_list (v : vectorizer) (documents : list ProcessedDocument)
    (persona : PersonaProfile) (job : JobRequirements) : list ScoredSection :=
  let texts := map (fun item => content (snd item)) (worklist documents) in
  let fitted := try_fit v texts in
  map (score_one (fst fitted) persona job (snd fitted))
    (enumerate (worklist documents)).

End Scoring.

End RelevanceScorer.

(** ** The formulas of the specification

    Definitions that follow the wording of the specification, to be compared
    with the functions above. *)

Module Spec.

Import PersonaAnalyzer.

Local Open Scope R_scope.

(** The number of occurrences of [k] as a substring of [text]: one for every
    position of [text] at which [k] starts. *)
Fixpoint occurrences (k text : str) : nat :=
  ((if starts_with k text then 1 else 0) +
   match text with
   | [] => 0
   | _ :: text' => occurrences k text'
   end)%nat.

(** "count substring occurrences of each keyword" *)
Definition total_occurrences (K : list str) (text : str) : nat :=
  list_sum (map (fun k => occurrences k text) K).

(** The keyword component as the specification words it, with
    [content_matches] and [title_matches] counting occurrences. *)
Definition keyword_score (section : DocumentSection)
    (persona : PersonaProfile) (job : JobRequirements) : R :=
  let K := union (keywords persona) (priority_keywords job) in
  match K with
  | [] => 0
  | _ =>
      let content_matches := total_occurrences K (lower (content section)) in
      let title_matches := total_occurrences K (lower (title section)) in
      Rmin 1
        ((INR content_matches + 2 * INR title_matches)
         / (sqrt (INR (word_count (content section))) * sqrt (INR (length K))))
  end.

(** "keyword_density = min(hits / word_count * 2, 1)" *)
Definition keyword_density (hits words : nat) : R :=
  Rmin 1 (INR hits / INR words * 2).

(** "1.0 for 5-30 words; 0.5 for <5 words; max(0.1, 1.0 - (words-30)*0.02)
    for >30 words" *)
Definition length_score (words : nat) : R :=
  if (words <? 5)%nat then 0.5
  else if (words <=? 30)%nat then 1
  else Rmax 0.1 (1 - (INR words - 30) * 0.02).

(** "0.3 if the sentence contains any of the indicators, else 0" *)
Definition quality_score (hit : bool) : R := if hit then 0.3 else 0.

Definition sentence_score (hits words : nat) (hit : bool) : R :=
  0.6 * keyword_density hits words + 0.2 * length_score words
  + 0.2 * quality_score hit.

(** The eight fixed domain names. *)
Definition fixed_domains : list str := map lit
  ["computer_science"; "biology"; "chemistry"; "finance"; "medicine";
   "research"; "education"; "business"].

(** The six deliverable types in their declared order. *)
Definition deliverable_types : list str := map lit
  ["analysis"; "synthesis"; "review"; "preparation"; "identification";
   "learning"].

End Spec.

(** ** Sample data *)

Module Samples.

Import PersonaAnalyzer RelevanceScorer.

Definition with_title (s : DocumentSection) (t : str) : DocumentSection :=
  {| title := t;
     content := content s;
     page_number := page_number s;
     section_number := section_number s;
     start_position := start_position s;
     end_position := end_position s |}.

Definition with_domains (p : PersonaProfile) (d : list str) : PersonaProfile :=
  {| role := role p;
     expertise_domains := d;
     focus_areas := focus_areas p;
     skill_level := skill_level p;
     keywords := keywords p |}.

Definition with_keywords (p : PersonaProfile) (k : list str) : PersonaProfile :=
  {| role := role p;
     expertise_domains := expertise_domains p;
     focus_areas := focus_areas p;
     skill_level := skill_level p;
     keywords := k |}.

Definition with_priority_keywords (j : JobRequirements) (k : list str)
  : JobRequirements :=
  {| primary_goal := primary_goal j;
     information_needs := information_needs j;
     deliverable_type := deliverable_type j;
     priority_keywords := k;
     success_criteria := success_criteria j |}.

Definition mk_section (t c : string) (page : Z) (number : option string)
  : DocumentSection :=
  {| title := lit t;
     content := lit c;
     page_number := page;
     section_number := option_map lit number;
     start_position := None;
     end_position := None |}.

Definition empty_persona : PersonaProfile :=
  {| role := [];
     expertise_domains := [];
     focus_areas := [];
     skill_level := lit "intermediate";
     keywords := [] |}.

Definition empty_job : JobRequirements :=
  {| primary_goal := [];
     information_needs := [];
     deliverable_type := lit "analysis";
     priority_keywords := [];
     success_criteria := default_criteria |}.

(** The job of the end-to-end scenario. *)
Definition review_job : str := lit
  "Prepare a comprehensive literature review focusing on methodologies, datasets, and performance benchmarks".

(** A vectorizer that cannot be fitted: what scikit-learn does on a corpus
    without a single usable term, such as one of empty bodies. *)
Definition unfit (corpus : list str) : option (unit * unit) := None.
Definition unfit_state (v : unit) (corpus : list str) : unit := v.
Definition unfit_similarity (v m : unit) (q : str) (i : nat) : option R := None.

Definition score_unfit := score_sections unfit unfit_state unfit_similarity tt.

(** Two documents with one section each, both of empty body. *)
Definition two_blank_documents : list ProcessedDocument := [
  {| filename := lit "a.pdf"; total_pages := 1;
     sections := [mk_section "Results" "" 1 (Some "1")] |};
  {| filename := lit "b.pdf"; total_pages := 6;
     sections := [mk_section "References" "" 6 None] |}
].

(** One document with one section. *)
Definition results_section : DocumentSection :=
  mk_section "Results" "" 1 (Some "1").

Definition one_document : list ProcessedDocument := [
  {| filename := lit "a.pdf"; total_pages := 1;
     sections := [results_section] |}
].

Definition ranked_results_section : ScoredSection :=
  set_rank
    (score_one unfit_similarity tt empty_persona empty_job None
       (0%nat, (lit "a.pdf", results_section))) 1.

(** A ranked section whose body is too short to hold a sentence. *)
Definition short_scored : ScoredSection :=
  {| document := lit "a.pdf";
     section := mk_section "Note" "  Too short.  " 1 None;
     relevance_score := 0;
     persona_alignment := 0;
     job_alignment := 0;
     importance_rank := 1 |}.

Definition sample_sentence : str :=
  lit "the results of this analysis are clear".

End Samples.

(** ** The structural score in binary64 *)

Module Binary64.

Import PersonaAnalyzer RelevanceScorer.
Import PrimFloat.

#[local] Set Warnings "-inexact-float".

(** [_calculate_structural_score] with the arithmetic of the interpreter:
    a literal is the double nearest to it, every [score += x] is one
    rounded addition, the additions come in the order of the source, and
    [min(score, 1.0)] is [1.0] when that is less than the score. *)
Definition _calculate_structural_score (section : DocumentSection) : float :=
  let score := 0%float in
  let title_lower := lower (title section) in
  let score :=
    if any_in high_value_terms title_lower then (score + 0.3)%float
    else score in
  let score :=
    match section_number section with
    | None | Some [] => score
    | Some number =>
        if first_number_le_3 number then (score + 0.2)%float else score
    end in
  let content_length := word_count (content section) in
  let score :=
    if ((50 <=? content_length) && (content_length <=? 500))%nat
    then (score + 0.2)%float
    else if (500 <? content_length)%nat then (score + 0.1)%float
    else score in
  let score :=
    if (page_number section <=? 3)%Z then (score + 0.1)%float else score in
  if (1 <? score)%float then 1%float else score.

(** The rational number that a finite double stands for. *)
Definition exact (x : float) : option QArith_base.Q :=
  match FloatOps.Prim2SF x with
  | SpecFloat.S754_zero _ => Some (QArith_base.Qmake 0 1)
  | SpecFloat.S754_finite negative m e =>
      let v :=
        if (0 <=? e)%Z then QArith_base.Qmake (Z.pos m * 2 ^ e) 1
        else QArith_base.Qmake (Z.pos m) (2 ^ Z.to_pos (- e)) in
      Some (if negative then QArith_base.Qopp v else v)
  | _ => None
  end.

(** [10^-16], less than half the distance between 1 and the next double. *)
Definition tolerance : QArith_base.Q := QArith_base.Qmake 1 (10 ^ 16).

(** [|x - q| <= 10^-16] for a double [x] and a rational [q]. *)
Definition near (x : float) (q : QArith_base.Q) : bool :=
  match exact x with
  | Some v =>
      QArith_base.Qle_bool (Qabs.Qabs (QArith_base.Qminus v q)) tolerance
  | None => false
  end.

(** [|(x - y) - q| <= 10^-16] for doubles [x], [y] and a rational [q], the
    difference taken exactly. *)
Definition differ_by (x y : float) (q : QArith_base.Q) : bool :=
  match exact x, exact y with
  | Some a, Some b =>
      QArith_base.Qle_bool
        (Qabs.Qabs (QArith_base.Qminus (QArith_base.Qminus a b) q)) tolerance
  | _, _ => false
  end.

End Binary64.

(** ** Variations of a section *)

Module Variations.

(** A section with another section number. *)
Definition with_number (s : DocumentSection) (n : option str)
  : DocumentSection :=
  {| title := title s;
     content := content s;
     page_number := page_number s;
     section_number := n;
     start_position := start_position s;
     end_position := end_position s |}.

(** A section with its title and body in lower case. *)
Definition lower_text (s : DocumentSection) : DocumentSection :=
  {| title := lower (title s);
     content := lower (content s);
     page_number := page_number s;
     section_number := section_number s;
     start_position := start_position s;
     end_position := end_position s |}.

(** The number written by a string of decimal digits. *)
Definition decimal_value (digits : str) : N :=
  fold_left (fun acc c => (acc * 10 + PyFloat.digit_value c)%N) digits 0%N.

(** One of the letters of a Roman numeral the document processor accepts. *)
Definition is_roman (c : ascii) : bool :=
  Ascii.eqb c "I"%char || Ascii.eqb c "V"%char || Ascii.eqb c "X"%char.

(** Whether a text ends on a blank; [d] answers for the empty text. *)
Fixpoint last_blank (d : bool) (s : str) : bool :=
  match s with
  | [] => d
  | c :: s' => last_blank (isspace c) s'
  end.

Definition single_space : str := lit " ".

(** A word: at least one character and no blank. *)
Definition is_word (w : str) : Prop :=
  w <> [] /\ forallb (fun c => negb (isspace c)) w = true.

(** A ranked section with one sentence long enough to be retained. *)
Definition one_sentence_section : RelevanceScorer.ScoredSection :=
  {| RelevanceScorer.document := lit "a.pdf";
     RelevanceScorer.section :=
       Samples.mk_section "Results"
         "Graph neural networks improve the results. Short." 2 None;
     RelevanceScorer.relevance_score := 0%R;
     RelevanceScorer.persona_alignment := 0%R;
     RelevanceScorer.job_alignment := 0%R;
     RelevanceScorer.importance_rank := 1 |}.

(** A ranked section with two sentences long enough to be retained. *)
Definition two_sentence_section : RelevanceScorer.ScoredSection :=
  {| RelevanceScorer.document := lit "a.pdf";
     RelevanceScorer.section :=
       Samples.mk_section "Results"
         "Graph neural networks improve the results. The method is evaluated on three datasets! Short."
         2 None;
     RelevanceScorer.relevance_score := 0%R;
     RelevanceScorer.persona_alignment := 0%R;
     RelevanceScorer.job_alignment := 0%R;
     RelevanceScorer.importance_rank := 1 |}.

End Variations.

(** ** document_processor.py: from the text of a document to its sections *)

Module DocumentProcessor.

Import Re PersonaAnalyzer.

Definition newline : ascii := ascii_of_nat 10.

(** The interpreter refuses to convert a decimal string of more digits
    (the default limit of CPython 3.11 and later). *)
Definition max_str_digits : nat := 4300.

(** [int(s)] for a string: blanks around it, a sign, and decimal digits
    that single underscores may separate.  [None] stands for [ValueError]. *)
Definition int (s : str) : option Z :=
  let (negative, body) := PyFloat.sign (PyFloat.trim s) in
  match PyFloat.digitpart body with
  | Some (n, []) =>
      if length (filter isdigit body) <=? max_str_digits
      then Some (if negative then (- Z.of_N n)%Z else Z.of_N n)
      else None
  | _ => None
  end.

(** Pattern fragments. *)
Definition digit_ : regex := CharSet false isdigit.
Definition dot_ : regex := Chr "."%char.
Definition roman_ : regex := CharSet false Variations.is_roman.

(** [.] matches every character but a line feed. *)
Definition any_ : regex := CharSet true (Ascii.eqb newline).

Definition number_ : regex :=
  pat "\d+\.?\d*\.?\d*"
    (Seqs [Plus digit_; Opt dot_; Star digit_; Opt dot_; Star digit_]).

(** [self.section_patterns].  Each of them ends in [$]; the matcher below
    takes the [$] as its last step. *)
Definition section_patterns : list regex := [
  pat "^(\d+\.?\d*\.?\d*)\s+(.+)$"
    (Seqs [Bol; Group 1 number_; Plus ws_; Group 2 (Plus any_)]);
  pat "^([IVX]+\.?\d*)\s+(.+)$"
    (Seqs [Bol; Group 1 (Seqs [Plus roman_; Opt dot_; Star digit_]);
           Plus ws_; Group 2 (Plus any_)]);
  pat "^(Abstract|Introduction|Background|Methodology|Methods|Results|Discussion|Conclusion|References).*$"
    (Seqs [Bol;
           Group 1 (Alts [Word "Abstract"; Word "Introduction";
                          Word "Background"; Word "Methodology";
                          Word "Methods"; Word "Results"; Word "Discussion";
                          Word "Conclusion"; Word "References"]);
           Star any_]);
  pat "^(Chapter \d+|Section \d+).*$"
    (Seqs [Bol;
           Group 1 (Alt (Seq (Word "Chapter ") (Plus digit_))
                        (Seq (Word "Section ") (Plus digit_)));
           Star any_]);
  pat "^([A-Z][A-Z\s]+)$"
    (Seqs [Bol;
           Group 1 (Seq upper_
                      (Plus (CharSet false
                               (fun c => isupper c || isspace c))))])
].

(** [$] without [re.MULTILINE]: the end of the text, or the place before a
    line feed that ends it. *)
Definition at_end (st : mstate) : bool :=
  match rest st with
  | [] => true
  | [c] => Ascii.eqb c newline
  | _ => false
  end.

(** [re.match] for a pattern that ends in [$]. *)
Definition match_to_end (ic : bool) (r : regex) (s : str) : option rmatch :=
  run ic r (MState None s [])
    (fun st' =>
       if at_end st'
       then Some (RMatch (firstn (length s - length (rest st')) s) (caps st')
                    (MState (prev st') (rest st') []))
       else None).

(** [for pattern in self.section_patterns:
         match = re.match(pattern, line, re.IGNORECASE); if match: ...] *)
Fixpoint first_match (patterns : list regex) (line : str)
  : option (regex * rmatch) :=
  match patterns with
  | [] => None
  | p :: rest =>
      match match_to_end true p line with
      | Some m => Some (p, m)
      | None => first_match rest line
      end
  end.

(** [s.isupper()]: a cased character, and none in lower case. *)
Definition str_isupper (s : str) : bool :=
  existsb isupper s && negb (existsb islower s).

Definition _is_section_header (line : str) : result (option str) :=
  if (length line <? 3) || (200 <? length line) then Ok None
  else
    match first_match section_patterns line with
    | Some (p, m) =>
        if 2 <=? ngroups p
        then g <- group (ngroups p) m 2 ;;
             s <- as_str g ;;
             Ok (Some (strip s))
        else Ok (Some (strip line))
    | None =>
        if str_isupper line && (word_count line <=? 8)
           && negb (existsb isdigit line)
        then Ok (Some (strip line))
        else Ok None
    end.

(** The two patterns of [_extract_section_number], case-sensitive. *)
Definition leading_number : regex :=
  pat "^(\d+\.?\d*\.?\d*)" (Seq Bol (Group 1 number_)).

Definition leading_roman : regex :=
  pat "^([IVX]+)" (Seq Bol (Group 1 (Plus roman_))).

Definition _extract_section_number (title : str) : result (option str) :=
  match re_match false leading_number title with
  | Some m => group (ngroups leading_number) m 1
  | None =>
      match re_match false leading_roman title with
      | Some m => group (ngroups leading_roman) m 1
      | None => Ok None
      end
  end.

(** The variables of the loop of [_extract_sections]. *)
Record state := {
  sections_so_far : list DocumentSection;
  current_section : option DocumentSection;
  current_content : list str;
  current_page : Z
}.

Definition with_content (s : DocumentSection) (c : str) : DocumentSection :=
  {| title := title s;
     content := c;
     page_number := page_number s;
     section_number := section_number s;
     start_position := start_position s;
     end_position := end_position s |}.

(** [if current_section and current_content:
         current_section.content = '\n'.join(current_content).strip()
         sections.append(current_section)];
    the result is the list of sections afterwards. *)
Definition save (st : state) : list DocumentSection :=
  match current_section st, current_content st with
  | Some s, _ :: _ =>
      sections_so_far st
      ++ [with_content s (strip (join [newline] (current_content st)))]
  | _, _ => sections_so_far st
  end.

Definition page_marker : str := lit "--- PAGE ".

(** [int(line.split()[2])], with the two exceptions the loop catches. *)
Definition marked_page (line : str) (current : Z) : Z :=
  match index (split_ws line) 2 with
  | Ok token =>
      match int token with
      | Some n => n
      | None => current
      end
  | Raise _ => current
  end.

(** One round of the loop over the lines.  A title counts as a header when
    it is a non-empty string. *)
Definition step (st : state) (raw : str) : result state :=
  let line := strip raw in
  if starts_with page_marker line
  then Ok {| sections_so_far := sections_so_far st;
             current_section := current_section st;
             current_content := current_content st;
             current_page := marked_page line (current_page st) |}
  else
    section_match <- _is_section_header line ;;
    match section_match with
    | Some (c :: t) =>
        number <- _extract_section_number (c :: t) ;;
        Ok {| sections_so_far := save st;
              current_section :=
                Some {| title := c :: t;
                        content := [];
                        page_number := current_page st;
                        section_number := number;
                        start_position := None;
                        end_position := None |};
              current_content := [];
              current_page := current_page st |}
    | _ =>
        match line with
        | [] => Ok st
        | _ :: _ =>
            Ok {| sections_so_far := sections_so_far st;
                  current_section := current_section st;
                  current_content := current_content st ++ [line];
                  current_page := current_page st |}
        end
    end.

Fixpoint run_lines (st : state) (lines : list str) : result state :=
  match lines with
  | [] => Ok st
  | line :: rest =>
      st' <- step st line ;;
      run_lines st' rest
  end.

Definition initial : state :=
  {| sections_so_far := [];
     current_section := None;
     current_content := [];
     current_page := 1 |}.

Definition whole_document (text : str) : DocumentSection :=
  {| title := lit "Document Content";
     content := strip text;
     page_number := 1;
     section_number := None;
     start_position := None;
     end_position := None |}.

Definition _extract_sections (text : str) : result (list DocumentSection) :=
  final <- run_lines initial (split_on newline text) ;;
  match save final, strip text with
  | [], _ :: _ => Ok [whole_document text]
  | sections, _ => Ok sections
  end.

End DocumentProcessor.

(** ** output_formatter.py: the excerpt of a section body *)

Module OutputFormatter.

(** [s.rfind(c)] for a character: its last index in [s], or -1. *)
Fixpoint rfind_from (c : ascii) (i last : Z) (s : str) : Z :=
  match s with
  | [] => last
  | x :: s' =>
      rfind_from c (i + 1)%Z (if Ascii.eqb x c then i else last) s'
  end.

Definition rfind (c : ascii) (s : str) : Z := rfind_from c 0%Z (-1)%Z s.

(** [last_space > max_length * 0.8] compares an integer with a float; in
    exact arithmetic it is [5 * last_space > 4 * max_length]. *)
Definition _truncate_content (content : str) (max_length : Z) : str :=
  if (Z.of_nat (length content) <=? max_length)%Z then content
  else
    let truncated := slice_to content max_length in
    let last_space := rfind " "%char truncated in
    let truncated :=
      if (4 * max_length <? 5 * last_space)%Z
      then slice_to truncated last_space
      else truncated in
    truncated ++ lit "...".

End OutputFormatter.

(** ** Notions for the properties of the section extraction *)

Module ProcessorNotions.

Import Re DocumentProcessor.

(** Every character a pattern can read satisfies [P]. *)
Fixpoint reads_only (ic : bool) (P : ascii -> bool) (r : regex) : Prop :=
  match r with
  | CharSet negate p => forall c, in_set ic negate p c = true -> P c = true
  | Seq a b | Alt a b => reads_only ic P a /\ reads_only ic P b
  | Star a | Group _ a => reads_only ic P a
  | Eps | Bol | WordB => True
  end.

(** A pattern that reads at least one character whenever it matches. *)
Fixpoint reads_some (r : regex) : Prop :=
  match r with
  | CharSet _ _ => True
  | Seq a b => reads_some a \/ reads_some b
  | Alt a b => reads_some a /\ reads_some b
  | Group _ a => reads_some a
  | Eps | Star _ | Bol | WordB => False
  end.

(** The repetition loop of the matcher, by name. *)
Definition star_loop {A} (ic : bool) (a : regex) (k : mstate -> option A)
  : nat -> mstate -> option A :=
  fix loop (fuel : nat) (st : mstate) {struct fuel} : option A :=
    match fuel with
    | O => k st
    | S fuel' =>
        match run ic a st
                (fun st' =>
                   if length (rest st') <? length (rest st)
                   then loop fuel' st'
                   else None) with
        | Some x => Some x
        | None => k st
        end
    end.

(** One way for a pattern to read from a position to another. *)
Inductive path (ic : bool) : regex -> mstate -> mstate -> Prop :=
| path_eps st : path ic Eps st st
| path_char negate p pv c s cs :
    in_set ic negate p c = true ->
    path ic (CharSet negate p) (MState pv (c :: s) cs) (MState (Some c) s cs)
| path_seq a b st st1 st2 :
    path ic a st st1 -> path ic b st1 st2 -> path ic (Seq a b) st st2
| path_alt_l a b st st1 : path ic a st st1 -> path ic (Alt a b) st st1
| path_alt_r a b st st1 : path ic b st st1 -> path ic (Alt a b) st st1
| path_star_stop a st : path ic (Star a) st st
| path_star_round a st st1 st2 :
    path ic a st st1 -> length (rest st1) < length (rest st) ->
    path ic (Star a) st1 st2 -> path ic (Star a) st st2
| path_group n a st st1 :
    path ic a st st1 ->
    path ic (Group n a) st
      (MState (prev st1) (rest st1)
         ((n, firstn (length (rest st) - length (rest st1)) (rest st))
          :: caps st1))
| path_bol s cs : path ic Bol (MState None s cs) (MState None s cs).

(** A text that is not empty and has no blank at either end. *)
Definition trimmed (s : str) : Prop := s <> [] /\ strip s = s.

(** What every extracted section satisfies. *)
Definition well_formed (s : DocumentSection) : Prop :=
  trimmed (title s) /\
  trimmed (content s) /\
  _extract_section_number (title s) = Ok (section_number s) /\
  start_position s = None /\ end_position s = None.

(** The same for a section whose body is still being collected. *)
Definition well_started (s : DocumentSection) : Prop :=
  trimmed (title s) /\
  _extract_section_number (title s) = Ok (section_number s) /\
  start_position s = None /\ end_position s = None.

(** What the loop of [_extract_sections] keeps true of its variables. *)
Definition invariant (st : state) : Prop :=
  Forall well_formed (sections_so_far st) /\
  match current_section st with
  | Some s => well_started s
  | None => True
  end /\
  Forall trimmed (current_content st).

(** A page number the text can give: 1, or the number a marker line of
    the text names. *)
Definition marked (lines : list str) (n : Z) : Prop :=
  n = 1%Z \/
  exists l token,
    In l lines /\ starts_with page_marker (strip l) = true /\
    index (split_ws (strip l)) 2 = Ok token /\ int token = Some n.

Definition pages_marked (lines : list str) (st : state) : Prop :=
  marked lines (current_page st) /\
  Forall (fun s => marked lines (page_number s)) (sections_so_far st) /\
  match current_section st with
  | Some s => marked lines (page_number s)
  | None => True
  end.

End ProcessorNotions.

(** * Properties *)

Unset Implicit Arguments.

(** ** First-hit lookup in a table of indicator lists *)

Section FirstHit.

Variable text : str.

Lemma first_hit_none (table : list (str * list str)) :
  first_hit table text = None <-> Forall (no_hit text) table.
Proof.
  induction table as [|[key inds] rest IH]; simpl.
  - split; [constructor | reflexivity].
  - destruct (any_in inds text) eqn:E.
    + split; [discriminate |].
      intros H. inversion H as [|? ? Hx _]; subst.
      unfold no_hit in Hx. simpl in Hx. congruence.
    + rewrite IH. split.
      * intros H. constructor; [exact E | exact H].
      * intros H. inversion H; assumption.
Qed.

Lemma first_hit_some (table : list (str * list str)) (key : str) :
  first_hit table text = Some key <->
  exists pre inds post,
    table = pre ++ (key, inds) :: post /\
    any_in inds text = true /\ Forall (no_hit text) pre.
Proof.
  induction table as [|[k inds] rest IH]; simpl.
  - split; [discriminate |].
    intros (pre & i & post & H & _). destruct pre; discriminate.
  - destruct (any_in inds text) eqn:E.
    + split.
      * intros H. injection H as <-. exists [], inds, rest. auto.
      * intros (pre & i & post & H & Hi & Hpre).
        destruct pre as [|e pre]; simpl in H.
        -- injection H as -> _ _. reflexivity.
        -- injection H as <- _. inversion Hpre as [|? ? Hx _]; subst.
           unfold no_hit in Hx. simpl in Hx. congruence.
    + rewrite IH. split.
      * intros (pre & i & post & -> & Hi & Hpre).
        exists ((k, inds) :: pre), i, post. repeat split; auto.
      * intros (pre & i & post & H & Hi & Hpre).
        destruct pre as [|e pre]; simpl in H.
        -- injection H as _ <- _. congruence.
        -- injection H as _ ->. inversion Hpre; subst.
           exists pre, i, post. auto.
Qed.


End FirstHit.

(** ** Deliverable type *)

Section DeliverableType.

Import PersonaAnalyzer.

(** C8. The deliverable type of a job string is found by going through the
    six indicator lists in the order analysis, synthesis, review,
    preparation, identification, learning against the lower-cased string:
    the type returned is the first one whose list has an indicator occurring
    in it, and [analysis] when no list has one.  For the literature-review
    job of the end-to-end scenario the type is [review]. *)
Theorem deliverable_type_first_hit :
  map fst job_types = Spec.deliverable_types /\
  (forall job t,
      _determine_deliverable_type job = t <->
      (exists pre inds post,
          job_types = pre ++ (t, inds) :: post /\
          any_in inds (lower job) = true /\
          Forall (no_hit (lower job)) pre) \/
      (Forall (no_hit (lower job)) job_types /\ t = lit "analysis")) /\
  _determine_deliverable_type Samples.review_job = lit "review".
Proof.
  split; [reflexivity | split; [| vm_compute; reflexivity]].
  intros job t. unfold _determine_deliverable_type.
  destruct (first_hit job_types (lower job)) as [k|] eqn:E.
  - split.
    + intros <-. left. apply first_hit_some. exact E.
    + intros [H | [H _]].
      * apply first_hit_some in H. congruence.
      * apply first_hit_none in H. congruence.
  - split.
    + intros <-. right. split; [apply first_hit_none; exact E | reflexivity].
    + intros [H | [_ ->]]; [| reflexivity].
      apply first_hit_some in H. congruence.
Qed.

End DeliverableType.

(** ** Facts about the string primitives *)

Module PyStrFacts.

Lemma isspace_lower_char (c : ascii) : isspace (lower_char c) = isspace c.
Proof.
  destruct c as [[] [] [] [] [] [] [] []]; vm_compute; reflexivity.
Qed.

Lemma split_ws_from_lower (s cur : str) :
  length (split_ws_from (lower cur) (lower s)) = length (split_ws_from cur s).
Proof.
  revert cur. induction s as [|c s IH]; intros cur; simpl.
  - destruct cur; reflexivity.
  - rewrite isspace_lower_char. destruct (isspace c).
    + destruct cur; simpl; [apply (IH []) | f_equal; apply (IH [])].
    + apply (IH (c :: cur)).
Qed.

(** Lower-casing does not change the number of words. *)
Lemma word_count_lower (s : str) : word_count (lower s) = word_count s.
Proof. apply (split_ws_from_lower s []). Qed.

Lemma split_ws_from_nil (s cur : str) :
  split_ws_from cur s = [] -> cur = [] /\ forallb isspace s = true.
Proof.
  revert cur. induction s as [|c s IH]; intros cur; simpl.
  - destruct cur; [auto | discriminate].
  - destruct (isspace c) eqn:E; simpl.
    + destruct cur; [| discriminate]. intros H. apply IH in H. tauto.
    + intros H. apply IH in H. destruct H; discriminate.
Qed.

Lemma lstrip_all_space (s : str) : forallb isspace s = true -> lstrip s = [].
Proof.
  induction s as [|c s IH]; simpl; [reflexivity |].
  destruct (isspace c); simpl; [exact IH | discriminate].
Qed.

(** Text of blanks only is trimmed to nothing. *)
Lemma strip_all_space (s : str) : forallb isspace s = true -> strip s = [].
Proof.
  intros H. unfold strip, rstrip. rewrite (lstrip_all_space s H). reflexivity.
Qed.

(** A text that is not trimmed to nothing has a word. *)
Lemma word_count_strip_pos (s : str) : s <> [] -> strip s = s -> 1 <= word_count s.
Proof.
  intros Hne Hs. unfold word_count, split_ws.
  destruct (split_ws_from [] s) eqn:E; simpl; [| lia].
  apply split_ws_from_nil in E. destruct E as [_ E].
  apply strip_all_space in E. congruence.
Qed.

Lemma lstrip_app (x y : str) :
  lstrip (x ++ y) = if forallb isspace x then lstrip y else lstrip x ++ y.
Proof.
  induction x as [|c x IH]; simpl; [reflexivity |].
  destruct (isspace c); simpl; [exact IH | reflexivity].
Qed.

Lemma lstrip_suffix (s : str) : exists blanks, s = blanks ++ lstrip s.
Proof.
  induction s as [|c s [b IH]]; simpl.
  - exists []. reflexivity.
  - destruct (isspace c).
    + exists (c :: b). simpl. f_equal. exact IH.
    + exists []. reflexivity.
Qed.

Lemma lstrip_length (s : str) : length (lstrip s) <= length s.
Proof.
  destruct (lstrip_suffix s) as [b H]. rewrite H at 2.
  rewrite length_app. lia.
Qed.

Lemma lstrip_idem (s : str) : lstrip (lstrip s) = lstrip s.
Proof.
  induction s as [|c s IH]; simpl; [reflexivity |].
  destruct (isspace c) eqn:E; [exact IH |]. simpl. rewrite E. reflexivity.
Qed.

Lemma lstrip_app_l (x y : str) : length (lstrip x) <= length (lstrip (x ++ y)).
Proof.
  rewrite lstrip_app. destruct (forallb isspace x) eqn:E.
  - rewrite (lstrip_all_space x E). simpl. lia.
  - rewrite length_app. lia.
Qed.

Lemma lstrip_app_r (x y : str) : length (lstrip y) <= length (lstrip (x ++ y)).
Proof.
  rewrite lstrip_app. destruct (forallb isspace x).
  - lia.
  - rewrite length_app. pose proof (lstrip_length y). lia.
Qed.

Lemma rstrip_app_l (x y : str) : length (rstrip x) <= length (rstrip (x ++ y)).
Proof.
  unfold rstrip. rewrite !length_rev, rev_app_distr. apply lstrip_app_r.
Qed.

Lemma rstrip_app_r (x y : str) : length (rstrip y) <= length (rstrip (x ++ y)).
Proof.
  unfold rstrip. rewrite !length_rev, rev_app_distr. apply lstrip_app_l.
Qed.

(** Trimming a piece of a text leaves no more than trimming the text. *)
Lemma strip_infix (a f b : str) :
  length (strip f) <= length (strip (a ++ f ++ b)).
Proof.
  unfold strip. rewrite (lstrip_app a).
  destruct (forallb isspace a).
  - rewrite (lstrip_app f). destruct (forallb isspace f) eqn:Ef.
    + rewrite (lstrip_all_space f Ef). unfold rstrip. simpl. lia.
    + apply rstrip_app_l.
  - destruct (lstrip_suffix f) as [blanks Hf].
    assert (H1 : length (rstrip (lstrip f)) <= length (rstrip f)).
    { rewrite Hf at 2. apply rstrip_app_r. }
    assert (H2 : length (rstrip f) <= length (rstrip (lstrip a ++ f))).
    { apply rstrip_app_r. }
    assert (H3 : length (rstrip (lstrip a ++ f))
                 <= length (rstrip ((lstrip a ++ f) ++ b))).
    { apply rstrip_app_l. }
    rewrite <- app_assoc in H3. lia.
Qed.

(** What [strip] returns is trimmed already. *)
Lemma lstrip_head (s : str) :
  match lstrip s with
  | [] => True
  | c :: _ => isspace c = false
  end.
Proof.
  induction s as [|c s IH]; simpl; [exact I |].
  destruct (isspace c) eqn:E; [exact IH | exact E].
Qed.

Lemma lstrip_fixed (s : str) :
  match s with [] => True | c :: _ => isspace c = false end -> lstrip s = s.
Proof.
  destruct s as [|c s]; simpl; [reflexivity |]. intros ->. reflexivity.
Qed.

Lemma strip_idem (s : str) : strip (strip s) = strip s.
Proof.
  unfold strip, rstrip.
  set (u := lstrip s). set (w := lstrip (rev u)).
  assert (H1 : lstrip (rev w) = rev w).
  { apply lstrip_fixed.
    destruct (lstrip_suffix (rev u)) as [blanks Hb]. fold w in Hb.
    assert (Hu : u = rev w ++ rev blanks).
    { rewrite <- (rev_involutive u), Hb, rev_app_distr. reflexivity. }
    pose proof (lstrip_head s) as Hh. fold u in Hh. rewrite Hu in Hh.
    destruct (rev w); [exact I | exact Hh]. }
  rewrite H1, rev_involutive. unfold w. rewrite lstrip_idem. reflexivity.
Qed.

End PyStrFacts.

(** ** Facts about the list primitives and the exception monad *)

Module PyListFacts.

Section Sorting.

Context {A : Type} (key : A -> R).

Lemma insert_desc_perm (x : A) (l : list A) :
  Permutation (insert_desc key x l) (x :: l).
Proof.
  induction l as [|y l IH]; simpl; [reflexivity |].
  destruct (Rlt_dec (key x) (key y)); [| reflexivity].
  rewrite IH. apply perm_swap.
Qed.

(** Sorting rearranges: nothing is lost, added or repeated. *)
Lemma sort_desc_perm (l : list A) : Permutation (sort_desc key l) l.
Proof.
  induction l as [|x l IH]; simpl; [reflexivity |].
  rewrite insert_desc_perm. constructor. exact IH.
Qed.

Lemma sort_desc_length (l : list A) : length (sort_desc key l) = length l.
Proof. apply Permutation_length, sort_desc_perm. Qed.

Lemma sort_desc_In (x : A) (l : list A) : In x (sort_desc key l) -> In x l.
Proof. apply Permutation_in, sort_desc_perm. Qed.

Lemma insert_desc_descending (x : A) (l : list A) :
  descending key l -> descending key (insert_desc key x l).
Proof.
  induction 1 as [|y|y z l Hyz Hd IH]; simpl.
  - constructor.
  - destruct (Rlt_dec (key x) (key y)).
    + constructor; [lra | constructor].
    + constructor; [lra | constructor].
  - destruct (Rlt_dec (key x) (key y)).
    + simpl in IH. destruct (Rlt_dec (key x) (key z)).
      * constructor; assumption.
      * constructor; [lra | exact IH].
    + constructor; [lra |]. constructor; assumption.
Qed.

Lemma sort_desc_descending (l : list A) : descending key (sort_desc key l).
Proof.
  induction l; simpl; [constructor | apply insert_desc_descending; assumption].
Qed.

Lemma insert_desc_with_key (k : R) (x : A) (l : list A) :
  with_key key k (insert_desc key x l) = with_key key k (x :: l).
Proof.
  induction l as [|y l IH]; [reflexivity |].
  cbn [insert_desc]. destruct (Rlt_dec (key x) (key y)) as [Hlt|]; [| reflexivity].
  unfold with_key in *. cbn [filter] in *. rewrite IH.
  destruct (Req_EM_T (key x) k), (Req_EM_T (key y) k); try reflexivity.
  lra.
Qed.

(** The sort is stable: elements with the same key keep their order. *)
Lemma sort_desc_stable (k : R) (l : list A) :
  with_key key k (sort_desc key l) = with_key key k l.
Proof.
  induction l as [|x l IH]; [reflexivity |].
  cbn [sort_desc fold_right]. rewrite insert_desc_with_key.
  unfold with_key in *. cbn [filter]. fold (sort_desc key l). rewrite IH.
  reflexivity.
Qed.

End Sorting.

Lemma firstn_incl {A} (n : nat) (l : list A) (x : A) :
  In x (firstn n l) -> In x l.
Proof.
  intros H. rewrite <- (firstn_skipn n l). apply in_or_app. left. exact H.
Qed.

Lemma slice_to_In {A} (x : A) (l : list A) (k : Z) :
  In x (slice_to l k) -> In x l.
Proof.
  unfold slice_to. destruct (0 <=? k)%Z; apply firstn_incl.
Qed.

Lemma slice_to_length_nonneg {A} (l : list A) (k : Z) :
  (0 <= k)%Z ->
  Z.of_nat (length (slice_to l k)) = Z.min k (Z.of_nat (length l)).
Proof.
  intros Hk. unfold slice_to.
  destruct (Z.leb_spec 0 k); [| lia].
  rewrite length_firstn. lia.
Qed.

Lemma slice_to_length_neg {A} (l : list A) (k : Z) :
  (k < 0)%Z ->
  Z.of_nat (length (slice_to l k)) = Z.max 0 (Z.of_nat (length l) + k).
Proof.
  intros Hk. unfold slice_to.
  destruct (Z.leb_spec 0 k); [lia |].
  rewrite length_firstn. lia.
Qed.

Lemma find_index_bound {A} (p : A -> bool) (l : list A) (i : nat) :
  find_index p l = Some i -> i < length l.
Proof.
  revert i. induction l as [|x l IH]; simpl; intros i; [discriminate |].
  destruct (p x).
  - intros [= <-]. lia.
  - destruct (find_index p l); [| discriminate].
    intros [= <-]. specialize (IH _ eq_refl). lia.
Qed.

Lemma index_ok {A} (l : list A) (i : nat) :
  i < length l -> exists x, index l i = Ok x.
Proof.
  intros H. unfold index.
  destruct (nth_error l i) eqn:E; [eauto |].
  apply nth_error_None in E. lia.
Qed.

Lemma mapM_ok {A B} (f : A -> result B) (P : B -> Prop) (l : list A) :
  (forall x, In x l -> exists y, f x = Ok y /\ P y) ->
  exists ys, mapM f l = Ok ys /\ Forall P ys /\ length ys = length l.
Proof.
  induction l as [|x l IH]; simpl; intros H.
  - exists []. auto.
  - destruct (H x) as (y & Hy & Py); [auto |].
    destruct IH as (ys & Hys & Pys & Hlen); [auto |].
    exists (y :: ys). rewrite Hy, Hys. simpl. auto.
Qed.

Lemma mapM_nil_inv {A B} (f : A -> result (list B)) (l : list A) :
  (forall x, In x l -> f x = Ok []) ->
  exists ys, mapM f l = Ok ys /\ concat ys = [].
Proof.
  induction l as [|x l IH]; simpl; intros H.
  - exists []. auto.
  - rewrite (H x) by auto. destruct IH as (ys & -> & Hc); [auto |].
    exists ([] :: ys). simpl. auto.
Qed.

End PyListFacts.

(** ** Sub-section extraction *)

Module SubsectionFacts.

Import PersonaAnalyzer RelevanceScorer PyStrFacts PyListFacts.

Local Open Scope R_scope.

(** Every piece produced by the sentence split is a piece of the text. *)
Lemma split_sentences_from_infix (s cur : str) (in_run : bool) (f : str) :
  In f (split_sentences_from cur in_run s) ->
  exists a b, rev cur ++ s = a ++ f ++ b.
Proof.
  revert cur in_run. induction s as [|c s IH]; intros cur in_run; simpl.
  - intros [<- | []]. exists [], []. rewrite !app_nil_r. reflexivity.
  - assert (Hrest : In f (split_sentences_from [] true s) ->
                    exists a b, rev cur ++ c :: s = a ++ f ++ b).
    { intros H. apply IH in H. destruct H as (a & b & H). simpl in H.
      exists (rev cur ++ c :: a), b. rewrite H, <- app_assoc. reflexivity. }
    destruct (is_sentence_end c).
    + destruct in_run; [exact Hrest |].
      intros [<- | H]; [| exact (Hrest H)].
      exists [], (c :: s). reflexivity.
    + intros H. apply IH in H. destruct H as (a & b & H).
      exists a, b. rewrite <- H. simpl. rewrite <- app_assoc. reflexivity.
Qed.

Lemma split_sentences_strip (content f : str) :
  In f (split_sentences content) ->
  (length (strip f) <= length (strip content))%nat.
Proof.
  intros H. apply split_sentences_from_infix in H.
  destruct H as (a & b & H). simpl in H. rewrite H. apply strip_infix.
Qed.

Lemma retained_iff (content s : str) :
  In s (retained_sentences content) <->
  exists f, In f (split_sentences content) /\ s = strip f /\
            (20 < length (strip f))%nat.
Proof.
  unfold retained_sentences. rewrite in_map_iff. split.
  - intros (f & <- & H). apply filter_In in H. destruct H as [H1 H2].
    apply Nat.ltb_lt in H2. eauto.
  - intros (f & H1 & -> & H2). exists f. split; [reflexivity |].
    apply filter_In. split; [exact H1 | apply Nat.ltb_lt; exact H2].
Qed.

(** A section whose trimmed body has at most 20 characters keeps no
    sentence. *)
Lemma retained_short (content : str) :
  (length (strip content) <= 20)%nat -> retained_sentences content = [].
Proof.
  intros H. destruct (retained_sentences content) as [|s l] eqn:E;
    [reflexivity |].
  assert (Hs : In s (retained_sentences content)) by (rewrite E; left; auto).
  apply retained_iff in Hs. destruct Hs as (f & Hf & _ & Hlen).
  apply split_sentences_strip in Hf. lia.
Qed.

(** A kept sentence has a word. *)
Lemma retained_word (content s : str) :
  In s (retained_sentences content) -> (1 <= word_count s)%nat.
Proof.
  intros H. apply retained_iff in H. destruct H as (f & _ & -> & Hlen).
  apply word_count_strip_pos.
  - intros E. rewrite E in Hlen. simpl in Hlen. lia.
  - apply strip_idem.
Qed.

(** C4 (as the code has it). A fragment of the sentence split is kept
    exactly when it has more than 20 characters after trimming: a fragment
    of 20 characters is dropped, one of 21 is kept.  A section whose trimmed
    body has at most 20 characters, so in particular one shorter than 20,
    yields no sub-section, and the extraction ends without an exception. *)
Theorem sentence_filter_boundary :
  (forall content f,
      In f (split_sentences content) ->
      (In (strip f) (retained_sentences content) <->
       (20 < length (strip f))%nat)) /\
  retained_sentences (lit "abcdefghijklmnopqrstu")
    = [lit "abcdefghijklmnopqrstu"] /\
  (forall scored_section persona job max_subsections,
      (length (strip (content (section scored_section))) <= 20)%nat ->
      _extract_section_subsections scored_section persona job max_subsections
      = Ok []) /\
  (forall sections persona job max_subsections,
      Forall (fun s => (length (strip (content (section s))) <= 20)%nat)
        sections ->
      extract_subsections sections persona job max_subsections = Ok []).
Proof.
  split; [| split; [vm_compute; reflexivity | split]].
  - intros content f Hf. rewrite retained_iff. split.
    + intros (f' & _ & E & Hlen). rewrite E. exact Hlen.
    + intros Hlen. exists f. auto.
  - intros ss persona job k H. unfold _extract_section_subsections.
    rewrite (retained_short _ H). reflexivity.
  - intros sections persona job k H. unfold extract_subsections.
    destruct (mapM_nil_inv
                (fun s => _extract_section_subsections s persona job k)
                sections) as (ys & -> & Hc).
    + intros s Hs. rewrite Forall_forall in H. specialize (H s Hs).
      unfold _extract_section_subsections.
      rewrite (retained_short _ H). reflexivity.
    + simpl. rewrite Hc. reflexivity.
Qed.

(** C4, the claim as stated fails: a body of exactly 20 characters is one
    fragment of 20 characters after trimming, and it is dropped. *)
Lemma fragment_of_20_dropped :
  In (lit "abcdefghijklmnopqrst") (split_sentences (lit "abcdefghijklmnopqrst")) /\
  length (strip (lit "abcdefghijklmnopqrst")) = 20%nat /\
  retained_sentences (lit "abcdefghijklmnopqrst") = [].
Proof. vm_compute. auto. Qed.

(** *** Sentence scores *)

Lemma keyword_density_bounds (hits words : nat) :
  (1 <= words)%nat -> 0 <= Spec.keyword_density hits words <= 1.
Proof.
  intros Hw. unfold Spec.keyword_density.
  assert (Hpos : 0 < INR words) by (apply lt_0_INR; lia).
  assert (Hh : 0 <= INR hits) by apply pos_INR.
  assert (Hq : 0 <= INR hits / INR words * 2).
  { apply Rmult_le_pos; [| lra].
    apply Rmult_le_pos; [exact Hh |].
    apply Rlt_le, Rinv_0_lt_compat, Hpos. }
  unfold Rmin. destruct (Rle_dec 1 (INR hits / INR words * 2)); lra.
Qed.

Lemma length_score_bounds (words : nat) :
  0 <= Spec.length_score words <= 1.
Proof.
  unfold Spec.length_score.
  destruct (Nat.ltb_spec words 5); [lra |].
  destruct (Nat.leb_spec words 30); [lra |].
  assert (Hw : 30 < INR words).
  { replace 30 with (INR 30) by (simpl; lra). apply lt_INR. lia. }
  unfold Rmax. destruct (Rle_dec 0.1 (1 - (INR words - 30) * 0.02)); lra.
Qed.

Lemma quality_score_bounds (hit : bool) : 0 <= Spec.quality_score hit <= 0.3.
Proof. destruct hit; simpl; lra. Qed.

Lemma sentence_score_bounds (hits words : nat) (hit : bool) :
  (1 <= words)%nat -> 0 <= Spec.sentence_score hits words hit <= 1.
Proof.
  intros Hw. unfold Spec.sentence_score.
  pose proof (keyword_density_bounds hits words Hw).
  pose proof (length_score_bounds words).
  pose proof (quality_score_bounds hit).
  lra.
Qed.

(** The score of a sentence with at least one word is the formula of the
    specification. *)
Lemma score_sentence_formula (sentence : str) (persona : PersonaProfile)
    (job : JobRequirements) :
  (1 <= word_count sentence)%nat ->
  _score_sentence sentence persona job
  = Ok (Spec.sentence_score
          (count_in (all_keywords persona job) (lower sentence))
          (word_count sentence)
          (any_in quality_indicators (lower sentence))).
Proof.
  intros Hw. unfold _score_sentence.
  destruct (Nat.eqb_spec (word_count sentence) 0); [lia |].
  f_equal.
  unfold Spec.sentence_score, Spec.keyword_density, Spec.length_score,
    Spec.quality_score.
  rewrite (Rmin_comm 1).
  destruct (Nat.leb_spec 5 (word_count sentence));
    destruct (Nat.leb_spec (word_count sentence) 30);
    destruct (Nat.ltb_spec (word_count sentence) 5);
    simpl; try lia; lra.
Qed.

Lemma refine_total (target : str) (sentences : list str) :
  exists refined, _refine_sentence_with_context target sentences = Ok refined.
Proof.
  unfold _refine_sentence_with_context.
  destruct (find_index _ sentences) as [i|] eqn:E; [| eauto].
  apply find_index_bound in E.
  assert (Hb : exists before,
             (if (0 <? i)%nat
              then s <- index sentences (i - 1) ;; Ok [s]
              else Ok []) = Ok before).
  { destruct (Nat.ltb_spec 0 i); [| eauto].
    destruct (index_ok sentences (i - 1)) as [x ->]; [lia |]. simpl. eauto. }
  assert (Ha : exists after,
             (if (i <? length sentences - 1)%nat
              then s <- index sentences (i + 1) ;; Ok [s]
              else Ok []) = Ok after).
  { destruct (Nat.ltb_spec i (length sentences - 1)); [| eauto].
    destruct (index_ok sentences (i + 1)) as [x ->]; [lia |]. simpl. eauto. }
  destruct Hb as [before ->], Ha as [after ->]. simpl. eauto.
Qed.

(** The sub-sections of one section are produced without an exception, and
    each carries a score between 0 and 1. *)
Lemma section_subsections_total (scored_section : ScoredSection)
    (persona : PersonaProfile) (job : JobRequirements) (max_subsections : Z) :
  exists subs,
    _extract_section_subsections scored_section persona job max_subsections
    = Ok subs /\ Forall unit_score subs.
Proof.
  unfold _extract_section_subsections.
  set (sentences := retained_sentences (content (section scored_section))).
  assert (Hw : forall s, In s sentences -> (1 <= word_count s)%nat).
  { intros s Hs. exact (retained_word _ _ Hs). }
  destruct sentences as [|s0 rest] eqn:Es; [exists []; auto |].
  rewrite <- Es in *. clear Es s0 rest.
  destruct (mapM_ok
              (fun sentence =>
                 score <- _score_sentence sentence persona job ;;
                 Ok (sentence, score))
              (fun p : str * R => 0 <= snd p <= 1) sentences)
    as (scores & -> & Hscores & _).
  { intros s Hs. rewrite (score_sentence_formula _ _ _ (Hw s Hs)). simpl.
    eexists. split; [reflexivity |]. simpl.
    apply sentence_score_bounds, Hw, Hs. }
  simpl.
  destruct (mapM_ok
              (fun top : str * R =>
                 refined <- _refine_sentence_with_context (fst top) sentences ;;
                 Ok {| Sub.document := document scored_section;
                       Sub.page_number := page_number (section scored_section);
                       Sub.refined_text := refined;
                       Sub.parent_section := title (section scored_section);
                       Sub.relevance_score := snd top |})
              unit_score
              (slice_to (sort_desc snd scores) max_subsections))
    as (subs & Hsubs & Hall & _).
  { intros top Htop.
    destruct (refine_total (fst top) sentences) as [refined ->]. simpl.
    eexists. split; [reflexivity |]. unfold unit_score. simpl.
    rewrite Forall_forall in Hscores. apply Hscores.
    apply (sort_desc_In snd), (slice_to_In _ _ _ Htop). }
  exists subs. split; [exact Hsubs | exact Hall].
Qed.

(** C9. A sentence with at least one word is scored
    0.6 * keyword_density + 0.2 * length_score + 0.2 * quality_score, with
    keyword_density = min(1, hits / words * 2), length_score 1 for 5 to 30
    words, 0.5 below 5 words and max(0.1, 1 - (words - 30) * 0.02) above 30,
    and quality_score 0.3 or 0; the score lies between 0 and 1.  Every
    sentence the extraction keeps has a word, so [extract_subsections] always
    returns, and every sub-section it returns has a score between 0 and 1. *)
Theorem sentence_score_spec :
  (forall sentence persona job,
      (1 <= word_count sentence)%nat ->
      let hits := count_in (all_keywords persona job) (lower sentence) in
      let words := word_count sentence in
      let hit := any_in quality_indicators (lower sentence) in
      _score_sentence sentence persona job
      = Ok (Spec.sentence_score hits words hit) /\
      Spec.sentence_score hits words hit
      = 0.6 * Rmin 1 (INR hits / INR words * 2)
        + 0.2 * (if (words <? 5)%nat then 0.5
                 else if (words <=? 30)%nat then 1
                 else Rmax 0.1 (1 - (INR words - 30) * 0.02))
        + 0.2 * (if hit then 0.3 else 0) /\
      0 <= Spec.sentence_score hits words hit <= 1) /\
  (forall sections persona job max_subsections,
      exists subs,
        extract_subsections sections persona job max_subsections = Ok subs /\
        Forall (fun s => 0 <= Sub.relevance_score s <= 1) subs).
Proof.
  split.
  - intros sentence persona job Hw hits words hit.
    split; [apply score_sentence_formula; exact Hw |].
    split; [reflexivity | apply sentence_score_bounds; exact Hw].
  - intros sections persona job k. unfold extract_subsections.
    destruct (mapM_ok
                (fun s => _extract_section_subsections s persona job k)
                (Forall unit_score) sections) as (per & -> & Hper & _).
    { intros s _. destruct (section_subsections_total s persona job k)
        as (subs & -> & H). eauto. }
    simpl. eexists. split; [reflexivity |].
    apply Forall_forall. intros s Hs.
    apply (sort_desc_In Sub.relevance_score) in Hs.
    apply in_concat in Hs. destruct Hs as (l & Hl & Hs).
    rewrite Forall_forall in Hper. specialize (Hper l Hl).
    rewrite Forall_forall in Hper. exact (Hper s Hs).
Qed.

Lemma sentence_filter_boundary_witness :
  (length (strip (content (section Samples.short_scored))) <= 20)%nat /\
  _extract_section_subsections Samples.short_scored Samples.empty_persona
    Samples.empty_job 5%Z = Ok [].
Proof.
  assert (H : (length (strip (content (section Samples.short_scored))) <= 20)%nat)
    by (vm_compute; lia).
  split; [exact H |].
  exact (proj1 (proj2 (proj2 sentence_filter_boundary))
           Samples.short_scored Samples.empty_persona Samples.empty_job 5%Z H).
Defined.

Lemma sentence_score_spec_witness :
  (1 <= word_count Samples.sample_sentence)%nat /\
  _score_sentence Samples.sample_sentence Samples.empty_persona
    Samples.empty_job
  = Ok (Spec.sentence_score 0 7 true) /\
  0 <= Spec.sentence_score 0 7 true <= 1.
Proof.
  assert (H : (1 <= word_count Samples.sample_sentence)%nat)
    by (vm_compute; lia).
  split; [exact H |].
  destruct (proj1 sentence_score_spec Samples.sample_sentence
              Samples.empty_persona Samples.empty_job H) as (E & _ & B).
  split; [exact E | exact B].
Defined.

End SubsectionFacts.

(** ** Component scores *)

Module ComponentFacts.

Import PersonaAnalyzer RelevanceScorer PyStrFacts PyListFacts.

Local Open Scope R_scope.

(** Case analysis on every boolean condition the goal branches on, then on
    the comparisons behind [min] and [max]. *)
Ltac split_ifs :=
  repeat match goal with
         | |- context [if ?b then _ else _] =>
             lazymatch type of b with bool => destruct b end
         end;
  unfold Rmin, Rmax;
  repeat match goal with
         | |- context [Rle_dec ?a ?b] => destruct (Rle_dec a b)
         end.

Lemma Rmin_unit (x : R) : 0 <= x -> 0 <= Rmin x 1 <= 1.
Proof.
  intros H. unfold Rmin. destruct (Rle_dec x 1); lra.
Qed.

Lemma fold_left_nonneg {A} (step : R -> A -> R) (l : list A) (acc : R) :
  (forall a x, 0 <= a -> 0 <= step a x) ->
  0 <= acc -> 0 <= fold_left step l acc.
Proof.
  intros Hstep. revert acc.
  induction l as [|x l IH]; simpl; intros acc Hacc; [exact Hacc |].
  apply IH, Hstep, Hacc.
Qed.

Lemma domain_step_nonneg (c t : str) (a : R) (d : str) :
  0 <= a -> 0 <= domain_step c t a d.
Proof.
  intros H. unfold domain_step.
  destruct (0 <? count_in_either _ c t)%nat; lra.
Qed.

Lemma phrase_step_nonneg (c t : str) (a : R) (p : str) :
  0 <= a -> 0 <= phrase_step c t a p.
Proof.
  intros H. unfold phrase_step.
  destruct (any_in_either _ c t); lra.
Qed.

Lemma keyword_ratio_nonneg (matches words size : nat) :
  (1 <= words)%nat -> (1 <= size)%nat ->
  0 <= INR matches / sqrt (INR words) / sqrt (INR size).
Proof.
  intros Hw Hs.
  assert (H1 : 0 < sqrt (INR words)) by (apply sqrt_lt_R0, lt_0_INR; lia).
  assert (H2 : 0 < sqrt (INR size)) by (apply sqrt_lt_R0, lt_0_INR; lia).
  apply Rmult_le_pos; [| apply Rlt_le, Rinv_0_lt_compat, H2].
  apply Rmult_le_pos; [apply pos_INR | apply Rlt_le, Rinv_0_lt_compat, H1].
Qed.

Lemma keyword_score_bounds section persona job :
  0 <= _calculate_keyword_score section persona job <= 1.
Proof.
  unfold _calculate_keyword_score.
  destruct (all_keywords persona job) as [|k K] eqn:EK; [lra |].
  destruct (Nat.eqb_spec (word_count (lower (content section))) 0); [lra |].
  apply Rmin_unit, keyword_ratio_nonneg; simpl; lia.
Qed.

Lemma structural_score_bounds section :
  0 <= _calculate_structural_score section <= 1.
Proof.
  unfold _calculate_structural_score. apply Rmin_unit.
  destruct (section_number section) as [[|c n]|]; split_ifs; lra.
Qed.

Lemma persona_alignment_bounds section persona :
  0 <= _calculate_persona_alignment section persona <= 1.
Proof.
  unfold _calculate_persona_alignment. apply Rmin_unit.
  assert (H : 0 <= fold_left
                     (phrase_step (lower (content section)) (lower (title section)))
                     (focus_areas persona)
                     (fold_left
                        (domain_step (lower (content section))
                           (lower (title section)))
                        (expertise_domains persona) 0)).
  { apply fold_left_nonneg; [intros; apply phrase_step_nonneg; assumption |].
    apply fold_left_nonneg; [intros; apply domain_step_nonneg; assumption |].
    lra. }
  split_ifs; lra.
Qed.

Lemma job_alignment_bounds section job :
  0 <= _calculate_job_alignment section job <= 1.
Proof.
  unfold _calculate_job_alignment. apply Rmin_unit.
  assert (H : forall start, 0 <= start ->
             0 <= fold_left
                    (phrase_step (lower (content section)) (lower (title section)))
                    (information_needs job) start).
  { intros start Hs.
    apply fold_left_nonneg; [intros; apply phrase_step_nonneg; assumption |].
    exact Hs. }
  destruct (lookup deliverable_keywords (deliverable_type job));
    destruct (0 <? _)%nat.
  all: try match goal with
           | |- context [fold_left ?f ?l ?a] =>
               assert (0 <= fold_left f l a) by (apply H; lra)
           end.
  all: split_ifs; lra.
Qed.

(** *** Keyword score *)



Lemma keyword_score_words section persona job :
  all_keywords persona job <> [] ->
  (1 <= word_count (content section))%nat ->
  _calculate_keyword_score section persona job
  = Rmin 1
      ((INR (count_in (all_keywords persona job) (lower (content section)))
        + 2 * INR (count_in (all_keywords persona job) (lower (title section))))
       / (sqrt (INR (word_count (content section)))
          * sqrt (INR (length (all_keywords persona job))))).
Proof.
  intros HK Hw. unfold _calculate_keyword_score.
  destruct (all_keywords persona job) as [|k K] eqn:EK; [congruence |].
  rewrite word_count_lower.
  destruct (Nat.eqb_spec (word_count (content section)) 0); [lia |].
  rewrite Rmin_comm. f_equal.
  rewrite plus_INR, mult_INR. simpl (INR 2).
  assert (H1 : 0 < sqrt (INR (word_count (content section))))
    by (apply sqrt_lt_R0, lt_0_INR; lia).
  assert (H2 : 0 < sqrt (INR (length (k :: K))))
    by (apply sqrt_lt_R0, lt_0_INR; simpl; lia).
  field. split; lra.
Qed.





(** *** Domain tags and persona alignment *)

(** Evaluation of the boolean conditions of a goal on concrete data. *)
Ltac eval_conditions :=
  repeat match goal with
         | |- context [if ?b then _ else _] =>
             lazymatch type of b with
             | bool =>
                 let v := eval vm_compute in b in
                 replace b with v by (vm_compute; reflexivity);
                 cbv iota
             end
         end.

Lemma str_eqb_eq (a b : str) : str_eqb a b = true <-> a = b.
Proof.
  unfold str_eqb. destruct (str_eq_dec a b); split; congruence.
Qed.

Lemma lookup_none (table : list (str * list str)) (key : str) :
  ~ In key (map fst table) -> lookup table key = None.
Proof.
  intros H. unfold lookup.
  destruct (find _ table) as [e|] eqn:E; [| reflexivity].
  apply find_some in E. destruct E as [He Hk].
  apply str_eqb_eq in Hk. exfalso. apply H. rewrite <- Hk.
  apply in_map. exact He.
Qed.

Lemma get_domain_keywords_unknown (tag : str) :
  ~ In tag Spec.fixed_domains -> _get_domain_keywords tag = [].
Proof.
  intros H. unfold _get_domain_keywords.
  rewrite lookup_none; [reflexivity | exact H].
Qed.

Lemma domain_step_unknown (tag c t : str) (score : R) :
  ~ In tag Spec.fixed_domains -> domain_step c t score tag = score.
Proof.
  intros H. unfold domain_step.
  rewrite (get_domain_keywords_unknown tag H). reflexivity.
Qed.

(** C10 (as the code has it). For every expertise-domain tag that is not one
    of the eight fixed domain names the domain-keyword lookup returns the
    empty list, so the tag adds nothing in the loop over the domains, and
    the persona alignment of every section is the one obtained without the
    tag.  A free-text tag taken from an "in X" or "X research|studies|field"
    phrase is such a tag whenever the lower-cased, underscore-joined phrase
    is not itself one of the eight names. *)
Theorem unknown_domain_contributes_nothing (tag : str) :
  ~ In tag Spec.fixed_domains ->
  _get_domain_keywords tag = [] /\
  (forall content_lower title_lower score,
      domain_step content_lower title_lower score tag = score) /\
  (forall section persona before after,
      _calculate_persona_alignment section
        (Samples.with_domains persona (before ++ tag :: after))
      = _calculate_persona_alignment section
          (Samples.with_domains persona (before ++ after))) /\
  (forall capture,
      domain_tag (Re.FStr capture) = Ok tag ->
      tag = replace_char " "%char "_"%char (lower capture)).
Proof.
  intros H. split; [apply get_domain_keywords_unknown; exact H |].
  split; [intros; apply domain_step_unknown; exact H |].
  split.
  - intros section persona before after.
    unfold _calculate_persona_alignment, Samples.with_domains.
    cbn [expertise_domains focus_areas skill_level].
    rewrite !fold_left_app. cbn [fold_left].
    rewrite (domain_step_unknown tag _ _ _ H). reflexivity.
  - intros capture E. unfold domain_tag in E. simpl in E. congruence.
Qed.

Lemma unknown_domain_contributes_nothing_witness :
  _extract_expertise_domains (lit "PhD Researcher in Computational Biology")
  = Ok [lit "computational_biology"] /\
  _get_domain_keywords (lit "computational_biology") = [].
Proof.
  split; [vm_compute; reflexivity |].
  apply (unknown_domain_contributes_nothing (lit "computational_biology")).
  vm_compute. intuition discriminate.
Defined.

(** C10, the claim as stated fails: the persona "Researcher in Biology"
    names no domain keyword, its only tag is the free-text one taken from
    "in Biology", and that tag is the fixed name [biology]: the lookup
    returns the biology keywords and the tag adds 0.3 to the persona
    alignment of a section about cells. *)
Lemma free_text_tag_biology :
  filter (fun e => any_in (snd e) (lower (lit "Researcher in Biology")))
    domain_keywords = [] /\
  flat_map (fun p => Re.re_findall false p (lit "Researcher in Biology"))
    domain_patterns = [Re.FStr (lit "Biology")] /\
  _extract_expertise_domains (lit "Researcher in Biology")
  = Ok [lit "biology"] /\
  _get_domain_keywords (lit "biology")
  = map lit ["gene"; "protein"; "cell"; "organism"; "molecular"; "genetic"] /\
  _calculate_persona_alignment
    (Samples.mk_section "Mitosis" "cell division" 1 None)
    (Samples.with_domains Samples.empty_persona [lit "biology"]) = 0.3 /\
  _calculate_persona_alignment
    (Samples.mk_section "Mitosis" "cell division" 1 None)
    (Samples.with_domains Samples.empty_persona []) = 0.
Proof.
  repeat (split; [vm_compute; reflexivity |]).
  split.
  - unfold _calculate_persona_alignment, Samples.with_domains,
      Samples.empty_persona.
    cbn [expertise_domains focus_areas skill_level fold_left].
    unfold domain_step. eval_conditions.
    unfold Rmin. destruct (Rle_dec (0 + 0.3) 1); lra.
  - unfold _calculate_persona_alignment, Samples.with_domains,
      Samples.empty_persona.
    cbn [expertise_domains focus_areas skill_level fold_left].
    eval_conditions.
    unfold Rmin. destruct (Rle_dec 0 1); lra.
Qed.

End ComponentFacts.

(** ** Section scoring *)

Module ScoringFacts.

Import PersonaAnalyzer RelevanceScorer PyStrFacts PyListFacts ComponentFacts.

Local Open Scope R_scope.

Lemma enumerate_from_In {A} (l : list A) (start i : nat) (x : A) :
  In (i, x) (combine (seq start (length l)) l) ->
  (start <= i)%nat /\ nth_error l (i - start) = Some x.
Proof.
  revert start. induction l as [|y l IH]; simpl; intros start; [tauto |].
  intros [E | H].
  - injection E as <- <-. rewrite Nat.sub_diag. auto.
  - apply IH in H. destruct H as [Hle Hn]. split; [lia |].
    replace (i - start)%nat with (S (i - S start)) by lia. exact Hn.
Qed.

Lemma enumerate_In {A} (l : list A) (i : nat) (x : A) :
  In (i, x) (enumerate l) -> nth_error l i = Some x.
Proof.
  intros H. apply enumerate_from_In in H. destruct H as [_ H].
  rewrite Nat.sub_0_r in H. exact H.
Qed.

Lemma enumerate_length {A} (l : list A) : length (enumerate l) = length l.
Proof.
  unfold enumerate. rewrite length_combine, length_seq. lia.
Qed.

Lemma worklist_length (documents : list ProcessedDocument) :
  length (worklist documents)
  = list_sum (map (fun doc => length (sections doc)) documents).
Proof.
  unfold worklist. induction documents as [|d ds IH]; simpl; [reflexivity |].
  rewrite length_app, length_map, IH. reflexivity.
Qed.

Lemma assign_ranks_length (l : list ScoredSection) (start : Z) :
  length (assign_ranks start l) = length l.
Proof.
  revert start. induction l as [|s l IH]; simpl; intros start; [reflexivity |].
  rewrite IH. reflexivity.
Qed.

Lemma assign_ranks_In (l : list ScoredSection) (start : Z) (s : ScoredSection) :
  In s (assign_ranks start l) -> exists s0 rank, In s0 l /\ s = set_rank s0 rank.
Proof.
  revert start. induction l as [|x l IH]; simpl; intros start; [tauto |].
  intros [<- | H]; [eauto |].
  apply IH in H. destruct H as (s0 & rank & H & E). eauto.
Qed.

Lemma assign_ranks_ranks (l : list ScoredSection) (start : nat) :
  map importance_rank (assign_ranks (Z.of_nat start) l)
  = map Z.of_nat (seq start (length l)).
Proof.
  revert start. induction l as [|s l IH]; simpl; intros start; [reflexivity |].
  f_equal. rewrite <- IH. do 2 f_equal. lia.
Qed.

(** *** Keyword sets listed in another way *)

Lemma filter_perm {A} (f : A -> bool) (l l' : list A) :
  Permutation l l' -> Permutation (filter f l) (filter f l').
Proof.
  induction 1 as [| x l l' _ IH | x y l | l l' l'' _ IH1 _ IH2]; simpl.
  - constructor.
  - destruct (f x); [constructor |]; exact IH.
  - destruct (f x), (f y); try reflexivity. apply perm_swap.
  - etransitivity; eassumption.
Qed.

(** Two listings of the same sets have the same union, up to order. *)
Lemma union_same (a a' b b' : list str) :
  same_set a a' -> same_set b b' -> Permutation (union a b) (union a' b').
Proof.
  intros Ha Hb. unfold union, py_set.
  apply NoDup_Permutation; try apply NoDup_nodup.
  intros x. rewrite !nodup_In, !in_app_iff, (Ha x), (Hb x). reflexivity.
Qed.

Lemma count_in_perm (K K' : list str) (text : str) :
  Permutation K K' -> count_in K text = count_in K' text.
Proof.
  intros H. unfold count_in. apply Permutation_length, filter_perm, H.
Qed.

Lemma keyword_score_order section persona job kp kj :
  same_set (keywords persona) kp ->
  same_set (priority_keywords job) kj ->
  _calculate_keyword_score section (Samples.with_keywords persona kp)
    (Samples.with_priority_keywords job kj)
  = _calculate_keyword_score section persona job.
Proof.
  intros Hp Hj.
  assert (H : Permutation (all_keywords persona job)
                (all_keywords (Samples.with_keywords persona kp)
                   (Samples.with_priority_keywords job kj))).
  { unfold all_keywords. simpl. apply union_same; assumption. }
  unfold _calculate_keyword_score.
  rewrite <- (count_in_perm _ _ (lower (content section)) H).
  rewrite <- (count_in_perm _ _ (lower (title section)) H).
  rewrite <- (Permutation_length H).
  destruct (all_keywords persona job) as [|k K] eqn:E1;
    destruct (all_keywords (Samples.with_keywords persona kp)
                (Samples.with_priority_keywords job kj)) as [|k' K'] eqn:E2;
    try reflexivity.
  - apply Permutation_nil in H. discriminate.
  - apply Permutation_sym, Permutation_nil in H. discriminate.
Qed.

Section Scoring.

Context {vectorizer matrix : Type}.
Variable fit_transform : list str -> option (vectorizer * matrix).
Variable failed_fit : vectorizer -> list str -> vectorizer.
Variable query_similarity : vectorizer -> matrix -> str -> nat -> option R.

Lemma score_sections_unfold v documents persona job max_sections :
  worklist documents <> [] ->
  fst (score_sections fit_transform failed_fit query_similarity v documents
         persona job max_sections)
  = assign_ranks 1
      (slice_to
         (sort_desc relevance_score
            (scored_list fit_transform failed_fit query_similarity v documents
               persona job))
         max_sections).
Proof.
  intros H. unfold score_sections, scored_list.
  destruct (worklist documents); [congruence | reflexivity].
Qed.

Lemma score_sections_empty v documents persona job max_sections :
  worklist documents = [] ->
  score_sections fit_transform failed_fit query_similarity v documents
    persona job max_sections = ([], v).
Proof.
  intros H. unfold score_sections. rewrite H. reflexivity.
Qed.

Lemma scored_list_length v documents persona job :
  length (scored_list fit_transform failed_fit query_similarity v documents
            persona job)
  = length (worklist documents).
Proof.
  unfold scored_list. rewrite length_map. apply enumerate_length.
Qed.

(** The length of the result for any integer cap: a negative cap drops
    that many sections from the end of the ranking. *)
Lemma score_sections_length v documents persona job max_sections :
  Z.of_nat (length (fst (score_sections fit_transform failed_fit
                           query_similarity v documents persona job
                           max_sections)))
  = if (0 <=? max_sections)%Z
    then Z.min max_sections (Z.of_nat (length (worklist documents)))
    else Z.max 0 (Z.of_nat (length (worklist documents)) + max_sections).
Proof.
  destruct (worklist documents) as [|x l] eqn:E.
  - rewrite score_sections_empty by exact E. simpl.
    destruct (Z.leb_spec 0 max_sections); lia.
  - rewrite score_sections_unfold by congruence.
    rewrite assign_ranks_length.
    destruct (Z.leb_spec 0 max_sections).
    + rewrite slice_to_length_nonneg by assumption.
      rewrite sort_desc_length, scored_list_length, E. reflexivity.
    + rewrite slice_to_length_neg by assumption.
      rewrite sort_desc_length, scored_list_length, E. reflexivity.
Qed.

(** C3 (as the code has it). For every list of documents with N sections in
    total and every cap K that is not negative, [score_sections] returns a
    list of length min(K, N) whose importance ranks are 1, 2, ..., min(K, N)
    in list order, without gap or repeat; with N = 0 the result is the empty
    list, and nothing is raised. *)
Theorem ranked_length_and_ranks v documents persona job (K : Z) :
  (0 <= K)%Z ->
  let result :=
    fst (score_sections fit_transform failed_fit query_similarity v documents
           persona job K) in
  let N := list_sum (map (fun doc => length (sections doc)) documents) in
  Z.of_nat (length result) = Z.min K (Z.of_nat N) /\
  map importance_rank result = map Z.of_nat (seq 1 (length result)) /\
  (N = 0%nat -> result = []).
Proof.
  intros HK result N. unfold result, N. rewrite <- worklist_length.
  split; [| split].
  - rewrite score_sections_length.
    destruct (Z.leb_spec 0 K); [reflexivity | lia].
  - destruct (worklist documents) as [|x l] eqn:E.
    + rewrite score_sections_empty by exact E. reflexivity.
    + rewrite score_sections_unfold by congruence.
      rewrite assign_ranks_length. apply (assign_ranks_ranks _ 1).
  - intros H. apply length_zero_iff_nil in H.
    rewrite score_sections_empty by exact H. reflexivity.
Qed.

(** Every section the loop scores is a worklist entry, and every element of
    the result is one of them with its rank written. *)
Lemma scored_list_In v documents persona job ss :
  In ss (scored_list fit_transform failed_fit query_similarity v documents
           persona job) ->
  exists i,
    nth_error (worklist documents) i = Some (document ss, section ss) /\
    let fitted :=
      try_fit fit_transform failed_fit v
        (map (fun item => content (snd item)) (worklist documents)) in
    ss = score_one query_similarity (fst fitted) persona job (snd fitted)
           (i, (document ss, section ss)).
Proof.
  unfold scored_list. intros H. apply in_map_iff in H.
  destruct H as ([i [doc sec]] & <- & H).
  apply enumerate_In in H. exists i. simpl. auto.
Qed.

Lemma score_sections_In v documents persona job max_sections ss :
  In ss (fst (score_sections fit_transform failed_fit query_similarity v
                documents persona job max_sections)) ->
  exists s0 rank,
    In s0 (scored_list fit_transform failed_fit query_similarity v documents
             persona job) /\
    ss = set_rank s0 rank.
Proof.
  destruct (worklist documents) as [|x l] eqn:E.
  - rewrite score_sections_empty by exact E. simpl. tauto.
  - rewrite score_sections_unfold by congruence.
    intros H. apply assign_ranks_In in H. destruct H as (s0 & rank & H & ->).
    apply slice_to_In, (sort_desc_In relevance_score) in H. eauto.
Qed.

(** C1. For every section scored by [score_sections], whether it is kept in
    the result or cut off by the cap, the relevance score is
    0.30 * keyword + 0.20 * semantic + 0.20 * structural
    + 0.15 * persona_alignment + 0.15 * job_alignment of that section's five
    component scores (the two alignments being the ones stored beside it),
    and when the five components lie in [0,1] so does the relevance
    score. *)
Theorem relevance_is_weighted_sum v documents persona job max_sections ss :
  In ss (scored_list fit_transform failed_fit query_similarity v documents
           persona job) \/
  In ss (fst (score_sections fit_transform failed_fit query_similarity v
                documents persona job max_sections)) ->
  exists i,
    nth_error (worklist documents) i = Some (document ss, section ss) /\
    let fitted :=
      try_fit fit_transform failed_fit v
        (map (fun item => content (snd item)) (worklist documents)) in
    let keyword := _calculate_keyword_score (section ss) persona job in
    let semantic :=
      _calculate_semantic_score query_similarity (fst fitted) (section ss)
        persona job (snd fitted) i in
    let structural := _calculate_structural_score (section ss) in
    let persona_al := _calculate_persona_alignment (section ss) persona in
    let job_al := _calculate_job_alignment (section ss) job in
    relevance_score ss
    = 0.30 * keyword + 0.20 * semantic + 0.20 * structural
      + 0.15 * persona_al + 0.15 * job_al /\
    persona_alignment ss = persona_al /\
    job_alignment ss = job_al /\
    (0 <= keyword <= 1 -> 0 <= semantic <= 1 -> 0 <= structural <= 1 ->
     0 <= persona_al <= 1 -> 0 <= job_al <= 1 ->
     0 <= relevance_score ss <= 1).
Proof.
  intros H.
  assert (Hs : exists s0,
             In s0 (scored_list fit_transform failed_fit query_similarity v
                      documents persona job) /\
             document ss = document s0 /\ section ss = section s0 /\
             relevance_score ss = relevance_score s0 /\
             persona_alignment ss = persona_alignment s0 /\
             job_alignment ss = job_alignment s0).
  { destruct H as [H | H].
    - exists ss. auto 6.
    - apply score_sections_In in H. destruct H as (s0 & rank & H & ->).
      exists s0. simpl. auto 6. }
  destruct Hs as (s0 & Hs0 & Hd & Hsec & Hr & Hp & Hj).
  apply scored_list_In in Hs0. destruct Hs0 as (i & Hnth & E).
  exists i. rewrite Hd, Hsec, Hr, Hp, Hj. split; [exact Hnth |].
  cbv zeta in E |- *.
  set (fitted := try_fit _ _ _ _) in *.
  assert (Hrel : relevance_score s0
                 = 0.30 * _calculate_keyword_score (section s0) persona job
                   + 0.20 * _calculate_semantic_score query_similarity
                              (fst fitted) (section s0) persona job
                              (snd fitted) i
                   + 0.20 * _calculate_structural_score (section s0)
                   + 0.15 * _calculate_persona_alignment (section s0) persona
                   + 0.15 * _calculate_job_alignment (section s0) job).
  { rewrite E at 1. unfold score_one, combine_scores, weights.
    cbn [relevance_score fst snd keyword_match semantic_similarity
           structural_importance persona_alignment_weight
           job_alignment_weight].
    lra. }
  split; [exact Hrel |].
  split; [rewrite E at 1; reflexivity |].
  split; [rewrite E at 1; reflexivity |].
  intros Hk Hsm Hst Hpa Hja. rewrite Hrel. lra.
Qed.

(** *** Determinism *)

(** What is scored does not depend on what the vectorizer held before. *)
Lemma scored_list_fresh v1 v2 documents persona job :
  scored_list fit_transform failed_fit query_similarity v1 documents persona job
  = scored_list fit_transform failed_fit query_similarity v2 documents persona
      job.
Proof.
  unfold scored_list, try_fit.
  destruct (fit_transform _) as [[v' m]|]; reflexivity.
Qed.

Lemma score_sections_fresh v1 v2 documents persona job max_sections :
  fst (score_sections fit_transform failed_fit query_similarity v1 documents
         persona job max_sections)
  = fst (score_sections fit_transform failed_fit query_similarity v2 documents
           persona job max_sections).
Proof.
  destruct (worklist documents) as [|x l] eqn:E.
  - rewrite !score_sections_empty by exact E. reflexivity.
  - rewrite !score_sections_unfold by congruence.
    rewrite (scored_list_fresh v1 v2). reflexivity.
Qed.

(** Listing the two keyword sets in another way changes no score. *)
Lemma score_one_keyword_order v persona job kp kj tfidf item :
  same_set (keywords persona) kp ->
  same_set (priority_keywords job) kj ->
  score_one query_similarity v (Samples.with_keywords persona kp)
    (Samples.with_priority_keywords job kj) tfidf item
  = score_one query_similarity v persona job tfidf item.
Proof.
  intros Hp Hj. unfold score_one.
  rewrite (keyword_score_order _ persona job kp kj Hp Hj). reflexivity.
Qed.

(** C7. [score_sections] is deterministic.  The model makes the two things
    a repeated call could depend on explicit: what the scorer's vectorizer
    holds from earlier calls, and the order in which the two keyword sets
    happen to be iterated.  Neither matters: calls with the same documents,
    profile, requirements and cap return the same list, element by element,
    in the same order and with the same ranks; in particular a second call
    on the same scorer repeats the result of the first. *)
Theorem score_sections_deterministic documents persona job max_sections :
  (forall v1 v2,
      fst (score_sections fit_transform failed_fit query_similarity v1
             documents persona job max_sections)
      = fst (score_sections fit_transform failed_fit query_similarity v2
               documents persona job max_sections)) /\
  (forall v,
      let first :=
        score_sections fit_transform failed_fit query_similarity v documents
          persona job max_sections in
      fst (score_sections fit_transform failed_fit query_similarity
             (snd first) documents persona job max_sections)
      = fst first) /\
  (forall v kp kj,
      same_set (keywords persona) kp ->
      same_set (priority_keywords job) kj ->
      fst (score_sections fit_transform failed_fit query_similarity v
             documents (Samples.with_keywords persona kp)
             (Samples.with_priority_keywords job kj) max_sections)
      = fst (score_sections fit_transform failed_fit query_similarity v
               documents persona job max_sections)).
Proof.
  split; [| split].
  - intros v1 v2. apply score_sections_fresh.
  - intros v first. apply score_sections_fresh.
  - intros v kp kj Hp Hj.
    destruct (worklist documents) as [|x l] eqn:E.
    + rewrite !score_sections_empty by exact E. reflexivity.
    + rewrite !score_sections_unfold by congruence.
      unfold scored_list. cbv zeta.
      do 3 f_equal. apply map_ext. intros item.
      apply score_one_keyword_order; assumption.
Qed.

End Scoring.

(** *** The scorer on a corpus that cannot be vectorized *)

Lemma ranked_length_and_ranks_witness :
  (0 <= 1)%Z /\
  Z.of_nat
    (length (fst (Samples.score_unfit Samples.two_blank_documents
                    Samples.empty_persona Samples.empty_job 1))) = 1%Z.
Proof.
  split; [lia |].
  exact (proj1 (ranked_length_and_ranks Samples.unfit Samples.unfit_state
                  Samples.unfit_similarity tt Samples.two_blank_documents
                  Samples.empty_persona Samples.empty_job 1
                  ltac:(lia))).
Defined.

(** C3, the claim as stated fails for a negative cap: with two sections and
    the cap -1 the slice drops the last section, and the result has one
    element, which is not min(-1, 2). *)
Lemma negative_cap_keeps_sections :
  list_sum (map (fun doc => length (sections doc)) Samples.two_blank_documents)
  = 2%nat /\
  Z.of_nat
    (length (fst (Samples.score_unfit Samples.two_blank_documents
                    Samples.empty_persona Samples.empty_job (-1)))) = 1%Z /\
  Z.min (-1) 2 = (-1)%Z.
Proof.
  split; [reflexivity | split; [| reflexivity]].
  unfold Samples.score_unfit. rewrite score_sections_length. reflexivity.
Qed.

Lemma one_document_ranked :
  fst (Samples.score_unfit Samples.one_document Samples.empty_persona
         Samples.empty_job 5)
  = [Samples.ranked_results_section].
Proof. reflexivity. Qed.

Lemma relevance_is_weighted_sum_witness :
  In Samples.ranked_results_section
    (fst (Samples.score_unfit Samples.one_document Samples.empty_persona
            Samples.empty_job 5)) /\
  0 <= relevance_score Samples.ranked_results_section <= 1.
Proof.
  assert (HIn : In Samples.ranked_results_section
                  (fst (Samples.score_unfit Samples.one_document
                          Samples.empty_persona Samples.empty_job 5))).
  { rewrite one_document_ranked. left. reflexivity. }
  split; [exact HIn |].
  destruct (relevance_is_weighted_sum Samples.unfit Samples.unfit_state
              Samples.unfit_similarity tt Samples.one_document
              Samples.empty_persona Samples.empty_job 5
              Samples.ranked_results_section (or_intror HIn))
    as (i & _ & _ & _ & _ & Hbound).
  apply Hbound.
  - apply keyword_score_bounds.
  - unfold _calculate_semantic_score, try_fit, Samples.unfit. simpl. lra.
  - apply structural_score_bounds.
  - apply persona_alignment_bounds.
  - apply job_alignment_bounds.
Defined.

Lemma score_sections_deterministic_witness :
  fst (Samples.score_unfit Samples.two_blank_documents
         (Samples.with_keywords Samples.empty_persona [lit "cell"; lit "gene"])
         Samples.empty_job 5)
  = fst (Samples.score_unfit Samples.two_blank_documents
           (Samples.with_keywords Samples.empty_persona [lit "gene"; lit "cell"])
           Samples.empty_job 5).
Proof.
  exact (proj2 (proj2 (score_sections_deterministic Samples.unfit
                         Samples.unfit_state Samples.unfit_similarity
                         Samples.two_blank_documents
                         (Samples.with_keywords Samples.empty_persona
                            [lit "gene"; lit "cell"])
                         Samples.empty_job 5))
           tt [lit "cell"; lit "gene"] []
           ltac:(intros x; simpl; tauto) ltac:(intros x; tauto)).
Defined.

End ScoringFacts.

(** ** The analyzers *)

Module AnalyzerFacts.

Import Re PersonaAnalyzer PyListFacts.




Lemma findall_strings (ic : bool) (r : regex) (s : str) :
  (ngroups r <= 1)%nat -> exists l, re_findall ic r s = map FStr l.
Proof.
  intros H. unfold re_findall.
  destruct (ngroups r) as [|[|n]]; [| | lia].
  - eexists. rewrite <- map_map. reflexivity.
  - eexists. rewrite <- (map_map (fun m => group_text m 1) FStr). reflexivity.
Qed.

Lemma findall_all_strings (ic : bool) (patterns : list regex) (s : str) :
  Forall (fun p => (ngroups p <= 1)%nat) patterns ->
  exists l, flat_map (fun p => re_findall ic p s) patterns = map FStr l.
Proof.
  induction 1 as [|p ps Hp _ [l IH]]; simpl.
  - exists []. reflexivity.
  - destruct (findall_strings ic p s Hp) as [l0 ->].
    exists (l0 ++ l). rewrite IH, map_app. reflexivity.
Qed.

Lemma mapM_strings {B} (f : found -> result B) (g : str -> B) (l : list str) :
  (forall x, f (FStr x) = Ok (g x)) -> mapM f (map FStr l) = Ok (map g l).
Proof.
  intros H. induction l as [|x l IH]; simpl; [reflexivity |].
  rewrite H, IH. reflexivity.
Qed.












End AnalyzerFacts.

(** ** The ranking returned by [score_sections] *)

Module RankingFacts.

Import PersonaAnalyzer RelevanceScorer PyStrFacts PyListFacts ComponentFacts
  ScoringFacts.

Local Open Scope R_scope.

Lemma descending_tail {A} (key : A -> R) (x : A) (l : list A) :
  descending key (x :: l) -> descending key l.
Proof.
  intros H. inversion H; subst; [constructor | assumption].
Qed.

Lemma descending_firstn {A} (key : A -> R) (n : nat) (l : list A) :
  descending key l -> descending key (firstn n l).
Proof.
  revert l. induction n as [|n IH]; intros l H; simpl; [constructor |].
  destruct l as [|x l]; [constructor |].
  specialize (IH l (descending_tail key x l H)).
  destruct l as [|y l]; simpl in *.
  - rewrite firstn_nil. constructor.
  - destruct n as [|n]; simpl in *; [constructor |].
    inversion H; subst. constructor; assumption.
Qed.

Lemma descending_slice {A} (key : A -> R) (l : list A) (k : Z) :
  descending key l -> descending key (slice_to l k).
Proof.
  intros H. unfold slice_to. destruct (0 <=? k)%Z; apply descending_firstn, H.
Qed.

(** In a list of descending keys every later element has a key no larger
    than an earlier one. *)
Lemma descending_app {A} (key : A -> R) (l1 l2 : list A) :
  descending key (l1 ++ l2) ->
  forall a b, In a l1 -> In b l2 -> key b <= key a.
Proof.
  induction l1 as [|x l1 IH]; simpl; intros H a b Ha Hb; [tauto |].
  assert (Hx : forall l, descending key (x :: l) ->
                         forall c, In c l -> key c <= key x).
  { clear. intros l. revert x. induction l as [|y l IHl]; intros x H c Hc;
      [destruct Hc |].
    inversion H; subst. destruct Hc as [<- | Hc]; [assumption |].
    specialize (IHl y ltac:(assumption) c Hc). lra. }
  destruct Ha as [<- | Ha].
  - apply (Hx _ H). apply in_or_app. right. exact Hb.
  - apply IH; [exact (descending_tail key x _ H) | exact Ha | exact Hb].
Qed.

Lemma slice_to_split {A} (l : list A) (k : Z) :
  exists tail, l = slice_to l k ++ tail.
Proof.
  unfold slice_to. destruct (0 <=? k)%Z; eexists; symmetry; apply firstn_skipn.
Qed.

Lemma map_fixed {A} (f : A -> A) (l : list A) :
  (forall x, In x l -> f x = x) -> map f l = l.
Proof.
  induction l as [|x l IH]; simpl; intros H; [reflexivity |].
  rewrite H by (left; reflexivity). f_equal. apply IH. auto.
Qed.

Lemma assign_ranks_unrank (l : list ScoredSection) (start : Z) :
  map (fun s => set_rank s 0) (assign_ranks start l)
  = map (fun s => set_rank s 0) l.
Proof.
  revert start. induction l as [|s l IH]; intros start; simpl; [reflexivity |].
  rewrite IH. reflexivity.
Qed.

Lemma assign_ranks_descending (l : list ScoredSection) (start : Z) :
  descending relevance_score l ->
  descending relevance_score (assign_ranks start l).
Proof.
  revert start. induction l as [|x l IH]; intros start H; simpl; [constructor |].
  specialize (IH (start + 1)%Z (descending_tail _ x l H)).
  destruct l as [|y l]; simpl in *; [constructor |].
  inversion H; subst. constructor; assumption.
Qed.

Section Ranking.

Context {vectorizer matrix : Type}.
Variable fit_transform : list str -> option (vectorizer * matrix).
Variable failed_fit : vectorizer -> list str -> vectorizer.
Variable query_similarity : vectorizer -> matrix -> str -> nat -> option R.

(** Before ranking every scored section carries rank 0. *)
Lemma scored_list_unranked v documents persona job :
  map (fun s => set_rank s 0)
    (scored_list fit_transform failed_fit query_similarity v documents
       persona job)
  = scored_list fit_transform failed_fit query_similarity v documents persona
      job.
Proof.
  unfold scored_list. cbv zeta. rewrite map_map. apply map_ext.
  intros item. reflexivity.
Qed.

Lemma scored_list_entries v documents persona job :
  map (fun s => (document s, section s))
    (scored_list fit_transform failed_fit query_similarity v documents
       persona job)
  = worklist documents.
Proof.
  unfold scored_list, enumerate. cbv zeta. rewrite map_map.
  cbn [score_one document section].
  generalize (worklist documents). intros l. generalize 0%nat.
  induction l as [|[d s] l IH]; intros n; simpl; [reflexivity |].
  rewrite IH. reflexivity.
Qed.

(** X1. The list returned by [score_sections] is in order of relevance:
    from one element to the next the relevance score never increases. *)
Theorem ranking_descending v documents persona job max_sections :
  descending relevance_score
    (fst (score_sections fit_transform failed_fit query_similarity v documents
            persona job max_sections)).
Proof.
  destruct (worklist documents) as [|x l] eqn:E.
  - rewrite score_sections_empty by exact E. constructor.
  - rewrite score_sections_unfold by congruence.
    apply assign_ranks_descending, descending_slice, sort_desc_descending.
Qed.

(** X2. The cap keeps the best sections and nothing else: the returned
    sections (their ranks set aside) together with the dropped ones are
    exactly the scored sections, each once, and no dropped section has a
    higher relevance than a returned one. *)
Theorem ranking_keeps_best v documents persona job max_sections :
  exists dropped,
    Permutation
      (map (fun s => set_rank s 0)
         (fst (score_sections fit_transform failed_fit query_similarity v
                 documents persona job max_sections)) ++ dropped)
      (scored_list fit_transform failed_fit query_similarity v documents
         persona job) /\
    forall kept other,
      In kept (fst (score_sections fit_transform failed_fit query_similarity
                      v documents persona job max_sections)) ->
      In other dropped ->
      relevance_score other <= relevance_score kept.
Proof.
  destruct (worklist documents) as [|x l] eqn:E.
  - rewrite score_sections_empty by exact E. exists []. simpl.
    split; [| tauto].
    assert (H := scored_list_length fit_transform failed_fit query_similarity
                   v documents persona job).
    rewrite E in H. apply length_zero_iff_nil in H. rewrite H. constructor.
  - rewrite score_sections_unfold by congruence.
    set (scored := scored_list _ _ _ v documents persona job).
    set (sorted := sort_desc relevance_score scored).
    destruct (slice_to_split sorted max_sections) as [tail Hsplit].
    exists tail. split.
    + rewrite assign_ranks_unrank.
      assert (Hp : Permutation sorted scored) by apply sort_desc_perm.
      rewrite map_fixed.
      * rewrite <- Hsplit. exact Hp.
      * intros s Hs. apply slice_to_In, (Permutation_in _ Hp) in Hs.
        unfold scored in Hs. rewrite <- scored_list_unranked in Hs.
        apply in_map_iff in Hs. destruct Hs as (s0 & <- & _). reflexivity.
    + intros kept other Hkept Hother.
      apply assign_ranks_In in Hkept. destruct Hkept as (s0 & rank & Hs0 & ->).
      simpl. apply (descending_app relevance_score
                      (slice_to sorted max_sections) tail);
        [rewrite <- Hsplit; apply sort_desc_descending | exact Hs0 | exact Hother].
Qed.

(** X3. Ties are broken by position: among the scored sections of any one
    relevance, those returned are the first ones, in the order in which the
    documents list them. *)
Theorem ranking_stable v documents persona job max_sections (k : R) :
  exists later,
    with_key relevance_score k
      (scored_list fit_transform failed_fit query_similarity v documents
         persona job)
    = with_key relevance_score k
        (map (fun s => set_rank s 0)
           (fst (score_sections fit_transform failed_fit query_similarity v
                   documents persona job max_sections))) ++ later.
Proof.
  destruct (worklist documents) as [|x l] eqn:E.
  - rewrite score_sections_empty by exact E. simpl. eauto.
  - rewrite score_sections_unfold by congruence.
    set (scored := scored_list _ _ _ v documents persona job).
    set (sorted := sort_desc relevance_score scored).
    destruct (slice_to_split sorted max_sections) as [tail Hsplit].
    exists (with_key relevance_score k tail).
    rewrite assign_ranks_unrank, map_fixed.
    + rewrite <- (sort_desc_stable relevance_score k scored). fold sorted.
      rewrite Hsplit at 1. unfold with_key. apply filter_app.
    + intros s Hs.
      apply slice_to_In, (sort_desc_In relevance_score) in Hs.
      unfold scored in Hs. rewrite <- scored_list_unranked in Hs.
      apply in_map_iff in Hs. destruct Hs as (s0 & <- & _). reflexivity.
Qed.

(** X4. Every returned section comes from the input: it is a section of one
    of the documents, and it carries that document's file name. *)
Theorem ranking_provenance v documents persona job max_sections ss :
  In ss (fst (score_sections fit_transform failed_fit query_similarity v
                documents persona job max_sections)) ->
  exists doc,
    In doc documents /\ document ss = filename doc /\
    In (section ss) (sections doc).
Proof.
  intros H. apply score_sections_In in H. destruct H as (s0 & rank & H & ->).
  apply scored_list_In in H. destruct H as (i & Hnth & _).
  apply nth_error_In in Hnth. unfold worklist in Hnth.
  apply in_flat_map in Hnth. destruct Hnth as (doc & Hdoc & Hs).
  apply in_map_iff in Hs. destruct Hs as (sec & Heq & Hsec).
  injection Heq as Hf Hs. exists doc. simpl.
  rewrite <- Hf, <- Hs. auto.
Qed.

End Ranking.

Lemma ranking_provenance_witness :
  In Samples.ranked_results_section
    (fst (Samples.score_unfit Samples.one_document Samples.empty_persona
            Samples.empty_job 5)) /\
  exists doc,
    In doc Samples.one_document /\
    RelevanceScorer.document Samples.ranked_results_section = filename doc /\
    In (RelevanceScorer.section Samples.ranked_results_section) (sections doc).
Proof.
  assert (H : In Samples.ranked_results_section
                (fst (Samples.score_unfit Samples.one_document
                        Samples.empty_persona Samples.empty_job 5))).
  { left. reflexivity. }
  split; [exact H |].
  exact (ranking_provenance Samples.unfit Samples.unfit_state
           Samples.unfit_similarity tt Samples.one_document
           Samples.empty_persona Samples.empty_job 5
           Samples.ranked_results_section H).
Defined.

End RankingFacts.

(** ** More on the component scores *)

Module ComponentExtras.

Import PersonaAnalyzer RelevanceScorer PyStrFacts PyListFacts ComponentFacts
  ScoringFacts Variations.

Local Open Scope R_scope.

(** X5. For every section, profile and requirements the keyword,
    structural, persona-alignment and job-alignment scores lie in [0,1]. *)
Theorem component_scores_unit section persona job :
  0 <= _calculate_keyword_score section persona job <= 1 /\
  0 <= _calculate_structural_score section <= 1 /\
  0 <= _calculate_persona_alignment section persona <= 1 /\
  0 <= _calculate_job_alignment section job <= 1.
Proof.
  split; [apply keyword_score_bounds |].
  split; [apply structural_score_bounds |].
  split; [apply persona_alignment_bounds | apply job_alignment_bounds].
Qed.

(** *** Letter case *)

Lemma lower_char_idem (c : ascii) : lower_char (lower_char c) = lower_char c.
Proof.
  destruct c as [[] [] [] [] [] [] [] []]; vm_compute; reflexivity.
Qed.

Lemma lower_idem (s : str) : lower (lower s) = lower s.
Proof.
  unfold lower. rewrite map_map. apply map_ext. exact lower_char_idem.
Qed.

Lemma isupper_lower_char (c : ascii) : isupper (lower_char c) = false.
Proof.
  destruct c as [[] [] [] [] [] [] [] []]; vm_compute; reflexivity.
Qed.

(** X7. The scores do not see the letter case of a section: putting its
    title and body in lower case changes none of the keyword, structural,
    persona-alignment and job-alignment scores. *)
Theorem scores_ignore_case section persona job :
  _calculate_keyword_score (lower_text section) persona job
  = _calculate_keyword_score section persona job /\
  _calculate_structural_score (lower_text section)
  = _calculate_structural_score section /\
  _calculate_persona_alignment (lower_text section) persona
  = _calculate_persona_alignment section persona /\
  _calculate_job_alignment (lower_text section) job
  = _calculate_job_alignment section job.
Proof.
  unfold _calculate_keyword_score, _calculate_structural_score,
    _calculate_persona_alignment, _calculate_job_alignment, lower_text.
  cbn [title content page_number section_number].
  rewrite !lower_idem, !word_count_lower. repeat split; reflexivity.
Qed.

Lemma starts_with_incl (k t : str) :
  starts_with k t = true -> forall c, In c k -> In c t.
Proof.
  revert t. induction k as [|a k IH]; intros t H c Hc; [destruct Hc |].
  destruct t as [|b t]; simpl in H; [discriminate |].
  apply andb_true_iff in H. destruct H as [Hab Hk].
  apply Ascii.eqb_eq in Hab. subst b.
  destruct Hc as [<- | Hc]; [left; reflexivity | right; exact (IH t Hk c Hc)].
Qed.

Lemma contains_incl (k t : str) :
  contains k t = true -> forall c, In c k -> In c t.
Proof.
  induction t as [|b t IH]; simpl; intros H c Hc.
  - rewrite orb_false_r in H. exact (starts_with_incl k [] H c Hc).
  - apply orb_true_iff in H. destruct H as [H | H].
    + exact (starts_with_incl k _ H c Hc).
    + right. exact (IH H c Hc).
Qed.

Lemma upper_case_never_found (k text : str) :
  existsb isupper k = true -> contains k (lower text) = false.
Proof.
  intros H. destruct (contains k (lower text)) eqn:E; [| reflexivity].
  apply existsb_exists in H. destruct H as (c & Hc & Hup).
  apply (contains_incl _ _ E) in Hc. unfold lower in Hc.
  apply in_map_iff in Hc. destruct Hc as (c' & <- & _).
  rewrite isupper_lower_char in Hup. discriminate.
Qed.

(** *** Keyword score *)

(** X9. With a non-empty keyword set and a body of at least one word, the
    keyword score is 0 exactly when no keyword occurs in the lower-cased
    body or title. *)
Theorem keyword_score_zero section persona job :
  all_keywords persona job <> [] ->
  (1 <= word_count (content section))%nat ->
  (_calculate_keyword_score section persona job = 0 <->
   count_in (all_keywords persona job) (lower (content section)) = 0%nat /\
   count_in (all_keywords persona job) (lower (title section)) = 0%nat).
Proof.
  intros HK Hw. rewrite (keyword_score_words section persona job HK Hw).
  set (c := count_in _ (lower (content section))).
  set (t := count_in _ (lower (title section))).
  assert (H1 : 0 < sqrt (INR (word_count (content section))))
    by (apply sqrt_lt_R0, lt_0_INR; lia).
  assert (H2 : 0 < sqrt (INR (length (all_keywords persona job)))).
  { apply sqrt_lt_R0, lt_0_INR.
    destruct (all_keywords persona job); [congruence | simpl; lia]. }
  assert (Hd : 0 < sqrt (INR (word_count (content section)))
                   * sqrt (INR (length (all_keywords persona job))))
    by (apply Rmult_lt_0_compat; assumption).
  assert (Hc : 0 <= INR c) by apply pos_INR.
  assert (Ht : 0 <= INR t) by apply pos_INR.
  split.
  - intros E.
    assert (Hn : INR c + 2 * INR t = 0).
    { destruct (Req_dec (INR c + 2 * INR t) 0) as [Z | NZ]; [exact Z |].
      exfalso.
      assert (Hpos : 0 < (INR c + 2 * INR t)
                         / (sqrt (INR (word_count (content section)))
                            * sqrt (INR (length (all_keywords persona job))))).
      { apply Rdiv_lt_0_compat; [lra | exact Hd]. }
      unfold Rmin in E. destruct (Rle_dec 1 _); lra. }
    split; apply INR_eq; simpl; lra.
  - intros [Ec Et]. rewrite Ec, Et. simpl.
    replace ((0 + 2 * 0) / _) with 0 by (field; lra).
    unfold Rmin. destruct (Rle_dec 1 0); lra.
Qed.

Lemma keyword_score_zero_witness :
  _calculate_keyword_score
    (Samples.mk_section "" "data data" 1 None)
    (Samples.with_keywords Samples.empty_persona [lit "gene"])
    Samples.empty_job = 0.
Proof.
  apply (keyword_score_zero
           (Samples.mk_section "" "data data" 1 None)
           (Samples.with_keywords Samples.empty_persona [lit "gene"])
           Samples.empty_job).
  - vm_compute. discriminate.
  - vm_compute. lia.
  - split; vm_compute; reflexivity.
Defined.

(** *** The section-number bonus *)

Lemma digit_facts (c : ascii) :
  isdigit c = true ->
  isspace c = false /\ lower_char c = c /\
  Ascii.eqb c "-"%char = false /\ Ascii.eqb c "+"%char = false /\
  Ascii.eqb c "."%char = false.
Proof.
  destruct c as [[] [] [] [] [] [] [] []]; vm_compute; intros H;
    try discriminate; repeat split.
Qed.

Lemma roman_facts (c : ascii) :
  is_roman c = true ->
  isspace c = false /\ isdigit c = false /\
  Ascii.eqb c "-"%char = false /\ Ascii.eqb c "+"%char = false /\
  Ascii.eqb c "."%char = false /\
  Ascii.eqb (lower_char c) "n"%char = false.
Proof.
  destruct c as [[] [] [] [] [] [] [] []]; vm_compute; intros H;
    try discriminate; repeat split.
Qed.

Lemma digits_from_all (ds : str) (acc : N) :
  forallb isdigit ds = true ->
  PyFloat.digits_from acc ds
  = (fold_left (fun a c => (a * 10 + PyFloat.digit_value c)%N) ds acc, []).
Proof.
  revert acc. induction ds as [|c ds IH]; intros acc H; [reflexivity |].
  simpl in H. apply andb_true_iff in H. destruct H as [Hc Hds].
  simpl. rewrite Hc. apply IH, Hds.
Qed.

Lemma split_on_from_prefix (sep : ascii) (ds rest cur : str) :
  forallb (fun c => negb (Ascii.eqb c sep)) ds = true ->
  split_on_from sep cur (ds ++ sep :: rest)
  = (rev cur ++ ds) :: split_on_from sep [] rest.
Proof.
  revert cur. induction ds as [|c ds IH]; intros cur H; simpl.
  - rewrite Ascii.eqb_refl, app_nil_r. reflexivity.
  - simpl in H. apply andb_true_iff in H. destruct H as [Hc Hds].
    destruct (Ascii.eqb c sep); [discriminate |].
    rewrite (IH (c :: cur) Hds). simpl. rewrite <- app_assoc. reflexivity.
Qed.

Lemma split_on_from_whole (sep : ascii) (ds cur : str) :
  forallb (fun c => negb (Ascii.eqb c sep)) ds = true ->
  split_on_from sep cur ds = [rev cur ++ ds].
Proof.
  revert cur. induction ds as [|c ds IH]; intros cur H; simpl.
  - rewrite app_nil_r. reflexivity.
  - simpl in H. apply andb_true_iff in H. destruct H as [Hc Hds].
    destruct (Ascii.eqb c sep); [discriminate |].
    rewrite (IH (c :: cur) Hds). simpl. rewrite <- app_assoc. reflexivity.
Qed.

Lemma forallb_impl {A} (p q : A -> bool) (l : list A) :
  (forall x, p x = true -> q x = true) ->
  forallb p l = true -> forallb q l = true.
Proof.
  intros Hpq H. rewrite forallb_forall in *. auto.
Qed.

(** Text without a blank is not changed by the trimming of [float]. *)
Lemma trim_no_space (s : str) :
  forallb (fun c => negb (isspace c)) s = true -> PyFloat.trim s = s.
Proof.
  intros H.
  assert (Hhead : forall t : str,
             (forall c, In c t -> isspace c = false) ->
             PyFloat.skip_blanks t = t).
  { intros t Ht. destruct t as [|c t]; [reflexivity |]. simpl.
    assert (Hc : isspace c = false) by (apply Ht; left; reflexivity).
    replace (PyFloat.isblank c) with false; [reflexivity |].
    revert Hc. clear. destruct c as [[] [] [] [] [] [] [] []]; vm_compute;
      congruence. }
  assert (Hall : forall c, In c s -> isspace c = false).
  { intros c Hc. rewrite forallb_forall in H. specialize (H c Hc).
    destruct (isspace c); [discriminate | reflexivity]. }
  unfold PyFloat.trim. rewrite (Hhead s Hall).
  rewrite (Hhead (rev s)); [apply rev_involutive |].
  intros c Hc. apply Hall, in_rev. exact Hc.
Qed.

(** [float] reads a string of decimal digits as the number they write. *)
Lemma parse_digits (ds : str) :
  ds <> [] -> forallb isdigit ds = true ->
  PyFloat.parse ds = Some (PyFloat.Num false (decimal_value ds) 0).
Proof.
  intros Hne H. unfold PyFloat.parse.
  rewrite trim_no_space.
  2:{ apply (forallb_impl isdigit); [| exact H].
      intros c Hc. destruct (digit_facts c Hc) as [-> _]. reflexivity. }
  destruct ds as [|c ds]; [congruence |].
  assert (Hc : isdigit c = true).
  { simpl in H. apply andb_true_iff in H. tauto. }
  destruct (digit_facts c Hc) as (_ & Hl & Hm & Hp & _).
  unfold PyFloat.sign. rewrite Hm, Hp.
  assert (Hword : forall w : str,
             forallb isdigit w = false ->
             str_eqb (lower (c :: ds)) w = false).
  { intros w Hw. unfold str_eqb.
    destruct (str_eq_dec (lower (c :: ds)) w) as [E |]; [| reflexivity].
    exfalso. rewrite <- E in Hw.
    assert (Hd : forallb isdigit (lower (c :: ds)) = true).
    { unfold lower. rewrite forallb_forall. intros x Hx.
      apply in_map_iff in Hx. destruct Hx as (y & <- & Hy).
      rewrite forallb_forall in H. specialize (H y Hy).
      destruct (digit_facts y H) as (_ & -> & _). exact H. }
    congruence. }
  rewrite !Hword by reflexivity. simpl orb. cbv iota.
  unfold PyFloat.digitpart. rewrite Hc.
  rewrite (digits_from_all (c :: ds) 0 H). reflexivity.
Qed.

Lemma le_3_natural (m : N) :
  PyFloat.le_3 (PyFloat.Num false m 0) = (m <=? 3)%N.
Proof.
  unfold PyFloat.le_3. change (0 <=? 0)%Z with true. cbv iota.
  assert (E1 : (10 ^ 0 = 1)%Z) by reflexivity.
  assert (E2 : (2 ^ 52 = 4503599627370496)%Z) by reflexivity.
  rewrite E1, E2.
  destruct (N.leb_spec m 3);
    destruct (Z.leb_spec (Z.of_N m * 1 * 4503599627370496)
                (3 * 4503599627370496 + 1));
    try reflexivity; lia.
Qed.

Lemma first_number_digits (ds rest : str) :
  ds <> [] -> forallb isdigit ds = true ->
  first_number_le_3 ds = (decimal_value ds <=? 3)%N /\
  first_number_le_3 (ds ++ "."%char :: rest) = (decimal_value ds <=? 3)%N.
Proof.
  intros Hne H.
  assert (Hdot : forallb (fun c => negb (Ascii.eqb c "."%char)) ds = true).
  { apply (forallb_impl isdigit); [| exact H].
    intros c Hc. destruct (digit_facts c Hc) as (_ & _ & _ & _ & ->).
    reflexivity. }
  unfold first_number_le_3, split_on.
  rewrite (split_on_from_whole _ ds [] Hdot).
  rewrite (split_on_from_prefix _ ds rest [] Hdot).
  simpl. rewrite (parse_digits ds Hne H), le_3_natural. auto.
Qed.

Lemma first_number_roman (s : str) :
  forallb is_roman s = true -> first_number_le_3 s = false.
Proof.
  intros H.
  assert (Hdot : forallb (fun c => negb (Ascii.eqb c "."%char)) s = true).
  { apply (forallb_impl is_roman); [| exact H].
    intros c Hc. destruct (roman_facts c Hc) as (_ & _ & _ & _ & -> & _).
    reflexivity. }
  unfold first_number_le_3, split_on.
  rewrite (split_on_from_whole _ s [] Hdot). simpl.
  unfold PyFloat.parse. rewrite trim_no_space.
  2:{ apply (forallb_impl is_roman); [| exact H].
      intros c Hc. destruct (roman_facts c Hc) as [-> _]. reflexivity. }
  destruct s as [|c s]; [reflexivity |].
  assert (Hc : is_roman c = true).
  { simpl in H. apply andb_true_iff in H. tauto. }
  destruct (roman_facts c Hc) as (_ & Hd & Hm & Hp & _ & _).
  unfold PyFloat.sign. rewrite Hm, Hp.
  assert (Hword : forall w : str,
             existsb (fun x => Ascii.eqb x "n"%char) w = true ->
             str_eqb (lower (c :: s)) w = false).
  { intros w Hw. unfold str_eqb.
    destruct (str_eq_dec (lower (c :: s)) w) as [E |]; [| reflexivity].
    exfalso. rewrite <- E in Hw. apply existsb_exists in Hw.
    destruct Hw as (x & Hx & Hn). unfold lower in Hx.
    apply in_map_iff in Hx. destruct Hx as (y & <- & Hy).
    rewrite forallb_forall in H. specialize (H y Hy).
    destruct (roman_facts y H) as (_ & _ & _ & _ & _ & Hy').
    congruence. }
  rewrite !Hword by reflexivity. simpl orb. cbv iota.
  unfold PyFloat.digitpart. rewrite Hd. reflexivity.
Qed.

(** X11. A section number written in the letters I, V and X earns no
    bonus: [float] rejects it and the exception is swallowed. *)
Theorem roman_number_no_bonus section (numeral : str) :
  forallb is_roman numeral = true ->
  _calculate_structural_score (with_number section (Some numeral))
  = _calculate_structural_score (with_number section None).
Proof.
  intros H. unfold _calculate_structural_score, with_number.
  cbn [title content page_number section_number].
  destruct numeral as [|c s]; [reflexivity |].
  rewrite (first_number_roman (c :: s) H). reflexivity.
Qed.

Lemma roman_number_no_bonus_witness :
  _calculate_structural_score
    (with_number Samples.results_section (Some (lit "II")))
  = _calculate_structural_score (with_number Samples.results_section None).
Proof.
  exact (roman_number_no_bonus Samples.results_section (lit "II") eq_refl).
Defined.

End ComponentExtras.

(** ** More on sub-section extraction *)

Module SubsectionExtras.

Import PersonaAnalyzer RelevanceScorer PyStrFacts PyListFacts SubsectionFacts.

Local Open Scope R_scope.

Lemma bind_ok {A B} (m : result A) (f : A -> result B) (b : B) :
  bind m f = Ok b -> exists a, m = Ok a /\ f a = Ok b.
Proof.
  destruct m as [a | e]; simpl; [eauto | discriminate].
Qed.

Lemma mapM_Forall2 {A B} (f : A -> result B) (l : list A) (ys : list B) :
  mapM f l = Ok ys -> Forall2 (fun x y => f x = Ok y) l ys.
Proof.
  revert ys. induction l as [|x l IH]; simpl; intros ys H.
  - injection H as <-. constructor.
  - apply bind_ok in H. destruct H as (y & Hy & H).
    apply bind_ok in H. destruct H as (ys' & Hys & H).
    injection H as <-. constructor; [exact Hy | apply IH, Hys].
Qed.

Lemma Forall2_In_r {A B} (R : A -> B -> Prop) (l : list A) (ys : list B) (y : B) :
  Forall2 R l ys -> In y ys -> exists x, In x l /\ R x y.
Proof.
  induction 1 as [|x0 y0 l ys HR _ IH]; simpl; [tauto |].
  intros [<- | H]; [eauto |].
  destruct (IH H) as (x & Hx & Hxy). eauto.
Qed.

(** What one section contributes, read off a successful run. *)
Lemma section_subsections_inv scored_section persona job max_subsections subs :
  _extract_section_subsections scored_section persona job max_subsections
  = Ok subs ->
  let sentences := retained_sentences (content (section scored_section)) in
  length subs
  = length (slice_to sentences max_subsections) /\
  forall sub, In sub subs ->
    exists sentence,
      In sentence sentences /\
      _score_sentence sentence persona job = Ok (Sub.relevance_score sub) /\
      _refine_sentence_with_context sentence sentences
      = Ok (Sub.refined_text sub) /\
      Sub.document sub = document scored_section /\
      Sub.page_number sub = page_number (section scored_section) /\
      Sub.parent_section sub = title (section scored_section).
Proof.
  unfold _extract_section_subsections. cbv zeta.
  set (sentences := retained_sentences (content (section scored_section))).
  destruct sentences as [|s0 rest] eqn:Es.
  - intros [= <-]. unfold slice_to. rewrite !firstn_nil.
    split; [destruct (0 <=? max_subsections)%Z; reflexivity | intros ? []].
  - rewrite <- Es. clear Es s0 rest. intros H.
    apply bind_ok in H. destruct H as (scores & Hscores & H).
    apply mapM_Forall2 in Hscores. apply mapM_Forall2 in H.
    assert (Hlen : length scores = length sentences).
    { symmetry. exact (Forall2_length Hscores). }
    split.
    + rewrite <- (Forall2_length H). unfold slice_to.
      rewrite sort_desc_length, Hlen.
      destruct (0 <=? max_subsections)%Z; rewrite !length_firstn,
        ?sort_desc_length, ?Hlen; reflexivity.
    + intros sub Hsub.
      destruct (Forall2_In_r _ _ _ _ H Hsub) as (top & Htop & Etop).
      apply slice_to_In, (sort_desc_In snd) in Htop.
      destruct (Forall2_In_r _ _ _ _ Hscores Htop) as (sentence & Hs & Esc).
      apply bind_ok in Esc. destruct Esc as (score & Escore & Epair).
      injection Epair as <-.
      apply bind_ok in Etop. destruct Etop as (refined & Eref & Esub).
      injection Esub as <-. simpl in *.
      exists sentence. repeat split; assumption.
Qed.

(** X12. Every sub-section returned by [extract_subsections] comes from one
    of the ranked sections given to it: it carries that section's document
    name, page number and title, its score is the score of one of the
    section's retained sentences, and its text is the excerpt built around
    that sentence. *)
Theorem subsection_provenance sections persona job max_subsections subs sub :
  extract_subsections sections persona job max_subsections = Ok subs ->
  In sub subs ->
  exists scored_section sentence,
    In scored_section sections /\
    In sentence (retained_sentences (content (section scored_section))) /\
    _score_sentence sentence persona job = Ok (Sub.relevance_score sub) /\
    _refine_sentence_with_context sentence
      (retained_sentences (content (section scored_section)))
    = Ok (Sub.refined_text sub) /\
    Sub.document sub = document scored_section /\
    Sub.page_number sub = page_number (section scored_section) /\
    Sub.parent_section sub = title (section scored_section).
Proof.
  unfold extract_subsections. intros H Hsub.
  apply bind_ok in H. destruct H as (per & Hper & H). injection H as <-.
  apply (sort_desc_In Sub.relevance_score) in Hsub.
  apply in_concat in Hsub. destruct Hsub as (l & Hl & Hsub).
  apply mapM_Forall2 in Hper.
  destruct (Forall2_In_r _ _ _ _ Hper Hl) as (ss & Hss & Ess).
  destruct (section_subsections_inv _ _ _ _ _ Ess) as [_ Hall].
  destruct (Hall sub Hsub) as (sentence & Hrest).
  exists ss, sentence. tauto.
Qed.

(** X13. The sub-sections are returned in order of their scores: from one
    to the next the score never increases. *)
Theorem subsections_descending sections persona job max_subsections subs :
  extract_subsections sections persona job max_subsections = Ok subs ->
  descending Sub.relevance_score subs.
Proof.
  unfold extract_subsections. intros H.
  apply bind_ok in H. destruct H as (per & _ & H). injection H as <-.
  apply sort_desc_descending.
Qed.

Lemma concat_length_sum {A} (ls : list (list A)) :
  length (concat ls) = list_sum (map (@length A) ls).
Proof.
  induction ls as [|l ls IH]; simpl; [reflexivity |].
  rewrite length_app, IH. reflexivity.
Qed.

Lemma extract_subsections_length sections persona job (max_subsections : Z)
    subs :
  (0 <= max_subsections)%Z ->
  extract_subsections sections persona job max_subsections = Ok subs ->
  length subs
  = list_sum
      (map (fun s =>
              Nat.min (Z.to_nat max_subsections)
                (length (retained_sentences (content (section s)))))
         sections).
Proof.
  intros HK. unfold extract_subsections. intros H.
  apply bind_ok in H. destruct H as (per & Hper & H). injection H as <-.
  rewrite sort_desc_length, concat_length_sum.
  apply mapM_Forall2 in Hper. f_equal.
  induction Hper as [|s l ss ls E _ IH]; simpl; [reflexivity |].
  destruct (section_subsections_inv _ _ _ _ _ E) as [Hlen _].
  rewrite Hlen, IH. f_equal. unfold slice_to.
  destruct (Z.leb_spec 0 max_subsections); [| lia].
  apply length_firstn.
Qed.

(** X14. With a cap that is not negative, every section contributes as many
    sub-sections as it has retained sentences, but at most the cap; nothing
    limits the total over the sections. *)
Theorem subsection_count sections persona job (max_subsections : Z) subs :
  (0 <= max_subsections)%Z ->
  extract_subsections sections persona job max_subsections = Ok subs ->
  length subs
  = list_sum
      (map (fun s =>
              Nat.min (Z.to_nat max_subsections)
                (length (retained_sentences (content (section s)))))
         sections).
Proof. apply extract_subsections_length. Qed.

Lemma extract_subsections_total sections persona job max_subsections :
  exists subs,
    extract_subsections sections persona job max_subsections = Ok subs.
Proof.
  unfold extract_subsections.
  destruct (mapM_ok
              (fun s => _extract_section_subsections s persona job
                          max_subsections)
              (fun _ => True) sections) as (per & -> & _).
  { intros s _.
    destruct (section_subsections_total s persona job max_subsections)
      as (subs & -> & _). eauto. }
  simpl. eauto.
Qed.

(** The sample section yields one sub-section. *)
Lemma one_sentence_extracted :
  exists sub,
    extract_subsections [Variations.one_sentence_section]
      Samples.empty_persona Samples.empty_job 5 = Ok [sub].
Proof.
  destruct (extract_subsections_total [Variations.one_sentence_section]
              Samples.empty_persona Samples.empty_job 5) as [subs E].
  assert (H := extract_subsections_length _ _ _ 5 subs ltac:(lia) E).
  destruct subs as [|sub [|other subs]]; try discriminate H.
  exists sub. exact E.
Qed.

Lemma subsection_provenance_witness :
  exists sub,
    extract_subsections [Variations.one_sentence_section]
      Samples.empty_persona Samples.empty_job 5 = Ok [sub] /\
    Sub.document sub = lit "a.pdf" /\
    Sub.page_number sub = 2%Z /\
    Sub.parent_section sub = lit "Results".
Proof.
  destruct one_sentence_extracted as [sub E]. exists sub.
  split; [exact E |].
  destruct (subsection_provenance [Variations.one_sentence_section]
              Samples.empty_persona Samples.empty_job 5 [sub] sub E
              (or_introl eq_refl))
    as (ss & sentence & Hss & _ & _ & _ & Hd & Hp & Ht).
  destruct Hss as [<- | []]. auto.
Defined.

(** The second sample section yields two sub-sections. *)
Lemma two_sentences_extracted :
  exists first second,
    extract_subsections [Variations.two_sentence_section]
      Samples.empty_persona Samples.empty_job 5 = Ok [first; second].
Proof.
  destruct (extract_subsections_total [Variations.two_sentence_section]
              Samples.empty_persona Samples.empty_job 5) as [subs E].
  assert (H := extract_subsections_length _ _ _ 5 subs ltac:(lia) E).
  destruct subs as [|a [|b [|c subs]]]; try discriminate H.
  exists a, b. exact E.
Qed.

Lemma subsections_descending_witness :
  exists first second,
    extract_subsections [Variations.two_sentence_section]
      Samples.empty_persona Samples.empty_job 5 = Ok [first; second] /\
    descending Sub.relevance_score [first; second].
Proof.
  destruct two_sentences_extracted as (a & b & E). exists a, b.
  split; [exact E |].
  exact (subsections_descending [Variations.two_sentence_section]
           Samples.empty_persona Samples.empty_job 5 [a; b] E).
Defined.

Lemma subsection_count_witness :
  exists first second,
    extract_subsections [Variations.two_sentence_section]
      Samples.empty_persona Samples.empty_job 5 = Ok [first; second] /\
    length [first; second] = 2%nat.
Proof.
  destruct two_sentences_extracted as (a & b & E). exists a, b.
  split; [exact E |].
  exact (subsection_count [Variations.two_sentence_section]
           Samples.empty_persona Samples.empty_job 5 [a; b] ltac:(lia) E).
Defined.

(** *** The excerpt *)

Section Excerpt.

Import Variations.

Lemma last_blank_cons (d d' : bool) (s : str) :
  s <> [] -> last_blank d s = last_blank d' s.
Proof. destruct s; [congruence | reflexivity]. Qed.

Lemma last_blank_all_space (s : str) :
  forallb isspace s = true -> last_blank true s = true.
Proof.
  assert (H : forall d, d = true -> forallb isspace s = true ->
                        last_blank d s = true).
  { induction s as [|c s IH]; simpl; intros d Hd Hs; [exact Hd |].
    apply andb_true_iff in Hs. destruct Hs as [Hc Hs]. apply IH; assumption. }
  apply H. reflexivity.
Qed.

Lemma split_ws_from_word (s cur : str) :
  cur <> [] -> split_ws_from cur s <> [].
Proof.
  revert cur. induction s as [|c s IH]; intros cur H; simpl.
  - destruct cur; [congruence | discriminate].
  - destruct (isspace c).
    + destruct cur; [congruence | discriminate].
    + apply IH. discriminate.
Qed.

Lemma split_ws_from_nonempty_input (s : str) :
  split_ws_from [] s <> [] -> s <> [].
Proof. destruct s; simpl; congruence. Qed.

(** Collapsing blanks, told in words: the words joined by single spaces,
    and one more space when the text ends on a blank. *)
Lemma collapse_words (s : str) :
  (forall cur, cur <> [] ->
     rev cur ++ collapse_ws_from false s
     = join single_space (split_ws_from cur s)
       ++ (if last_blank false s then single_space else [])) /\
  collapse_ws_from true s
  = join single_space (split_ws_from [] s)
    ++ match split_ws_from [] s with
       | [] => []
       | _ => if last_blank false s then single_space else []
       end.
Proof.
  induction s as [|c s [IH1 IH2]].
  - split.
    + intros cur H. simpl. destruct cur; [congruence |].
      simpl. rewrite app_nil_r. reflexivity.
    + reflexivity.
  - simpl. destruct (isspace c) eqn:Ec.
    + split.
      * intros cur H. destruct cur as [|x cur]; [congruence |].
        rewrite IH2. clear IH1 IH2.
        destruct (split_ws_from [] s) as [|w W] eqn:EW.
        -- apply split_ws_from_nil in EW. destruct EW as [_ EW].
           rewrite (last_blank_all_space s EW). simpl. reflexivity.
        -- assert (Hs : s <> []).
           { apply split_ws_from_nonempty_input. rewrite EW. discriminate. }
           rewrite (last_blank_cons true false s Hs).
           cbn [join]. rewrite <- !app_assoc. reflexivity.
      * rewrite IH2. destruct (split_ws_from [] s) as [|w W] eqn:EW;
          [reflexivity |].
        assert (Hs : s <> []).
        { apply split_ws_from_nonempty_input. rewrite EW. discriminate. }
        rewrite (last_blank_cons true false s Hs). reflexivity.
    + split.
      * intros cur H.
        specialize (IH1 (c :: cur) ltac:(discriminate)).
        simpl in IH1. rewrite <- app_assoc in IH1. exact IH1.
      * specialize (IH1 [c] ltac:(discriminate)). simpl in IH1.
        rewrite IH1.
        destruct (split_ws_from [c] s) eqn:EW; [| reflexivity].
        exfalso. apply (split_ws_from_word s [c]); [discriminate | exact EW].
Qed.

Lemma split_ws_from_words (s cur : str) :
  forallb (fun c => negb (isspace c)) cur = true ->
  Forall is_word (split_ws_from cur s).
Proof.
  revert cur. induction s as [|c s IH]; intros cur H; simpl.
  - destruct cur as [|x cur]; constructor; [| constructor].
    split; [destruct (rev (x :: cur)) eqn:E;
            [apply (f_equal (@length ascii)) in E; rewrite length_rev in E;
             discriminate | discriminate] |].
    rewrite forallb_forall in *. intros y Hy. apply H, in_rev. exact Hy.
  - destruct (isspace c) eqn:Ec.
    + destruct cur as [|x cur]; [apply IH; reflexivity |].
      constructor; [| apply IH; reflexivity].
      split; [destruct (rev (x :: cur)) eqn:E;
              [apply (f_equal (@length ascii)) in E; rewrite length_rev in E;
               discriminate | discriminate] |].
      rewrite forallb_forall in *. intros y Hy. apply H, in_rev. exact Hy.
    + apply IH. simpl. rewrite Ec. exact H.
Qed.

(** Words joined by single spaces begin and end on a character that is no
    blank. *)
Lemma join_words_ends (W : list str) :
  W <> [] -> Forall is_word W ->
  exists a x b y,
    join single_space W = a :: x /\ isspace a = false /\
    join single_space W = y ++ [b] /\ isspace b = false.
Proof.
  assert (Hw : forall w, is_word w ->
             exists a x b y, w = a :: x /\ isspace a = false /\
                             w = y ++ [b] /\ isspace b = false).
  { intros w [Hne Hall]. rewrite forallb_forall in Hall.
    destruct w as [|a x]; [congruence |].
    destruct (exists_last Hne) as (y & b & E).
    exists a, x, b, y. repeat split.
    - specialize (Hall a (or_introl eq_refl)).
      destruct (isspace a); [discriminate | reflexivity].
    - exact E.
    - assert (Hb : In b (a :: x)) by (rewrite E; apply in_or_app; right;
                                      left; reflexivity).
      specialize (Hall b Hb). destruct (isspace b); [discriminate | reflexivity]. }
  induction W as [|w W IH]; intros Hne HW; [congruence |].
  inversion HW as [|? ? Hw1 HW']; subst.
  destruct (Hw w Hw1) as (a & x & b & y & Ea & Ha & Eb & Hb).
  destruct W as [|w' W].
  - simpl. exists a, x, b, y. auto.
  - destruct (IH ltac:(discriminate) HW')
      as (a' & x' & b' & y' & _ & _ & Eb' & Hb').
    cbn [join] in *. exists a, (x ++ single_space ++ join single_space (w' :: W)), b',
      (w ++ single_space ++ y').
    repeat split; try assumption.
    + rewrite Ea. reflexivity.
    + cbn [join]. rewrite Eb'. rewrite <- !app_assoc. reflexivity.
Qed.

Lemma lstrip_collapse (s : str) :
  lstrip (collapse_ws_from false s) = lstrip (collapse_ws_from true s).
Proof.
  destruct s as [|c s]; [reflexivity |]. simpl.
  destruct (isspace c); reflexivity.
Qed.

Lemma rstrip_snoc_word (y : str) (b : ascii) :
  isspace b = false -> rstrip (y ++ [b]) = y ++ [b].
Proof.
  intros H. unfold rstrip. rewrite rev_unit. cbn [lstrip]. rewrite H.
  cbn [rev]. rewrite rev_involutive. reflexivity.
Qed.

Lemma rstrip_snoc_space (y : str) : rstrip (y ++ single_space) = rstrip y.
Proof.
  unfold rstrip, single_space. simpl lit. rewrite rev_unit. reflexivity.
Qed.

(** [re.sub(r'\s+', ' ', text).strip()] is the words of the text joined by
    single spaces. *)
Lemma strip_collapse_words (s : str) :
  strip (collapse_ws s) = join single_space (split_ws s).
Proof.
  unfold strip, collapse_ws, split_ws. rewrite lstrip_collapse.
  destruct (collapse_words s) as [_ ->].
  pose proof (split_ws_from_words s [] eq_refl) as HW.
  destruct (split_ws_from [] s) as [|w W] eqn:EW; [reflexivity |].
  destruct (join_words_ends (w :: W) ltac:(discriminate) HW)
    as (a & x & b & y & Ea & Ha & Eb & Hb).
  assert (Hl : forall t, lstrip (join single_space (w :: W) ++ t)
                         = join single_space (w :: W) ++ t).
  { intros t. rewrite Ea. simpl. rewrite Ha. reflexivity. }
  rewrite Hl. destruct (last_blank false s).
  - rewrite rstrip_snoc_space, Eb. apply rstrip_snoc_word, Hb.
  - rewrite app_nil_r, Eb. apply rstrip_snoc_word, Hb.
Qed.

Lemma contains_app_r (m a t : str) :
  contains m t = true -> contains m (a ++ t) = true.
Proof.
  intros H. induction a as [|c a IH]; [exact H |].
  simpl. rewrite IH. apply orb_true_r.
Qed.

Lemma starts_with_app (m b : str) : starts_with m (m ++ b) = true.
Proof.
  induction m as [|c m IH]; [reflexivity |].
  simpl. rewrite Ascii.eqb_refl. exact IH.
Qed.

Lemma contains_infix (m a b : str) : contains m (a ++ m ++ b) = true.
Proof.
  apply contains_app_r. destruct (m ++ b) eqn:E; simpl.
  - destruct m; [reflexivity | discriminate].
  - rewrite <- E, starts_with_app. reflexivity.
Qed.

Lemma strip_is_infix (t : str) : exists a b, t = a ++ strip t ++ b.
Proof.
  destruct (lstrip_suffix t) as [a Ha].
  destruct (lstrip_suffix (rev (lstrip t))) as [b Hb].
  exists a, (rev b). unfold strip, rstrip.
  rewrite <- rev_app_distr, <- Hb, rev_involutive. exact Ha.
Qed.

Lemma find_index_some {A} (p : A -> bool) (l : list A) (x : A) :
  In x l -> p x = true -> exists i, find_index p l = Some i.
Proof.
  induction l as [|y l IH]; simpl; [tauto |].
  intros [-> | H] Hp.
  - rewrite Hp. eauto.
  - destruct (p y); [eauto |].
    destruct (IH H Hp) as [i ->]. eauto.
Qed.

Lemma index_In {A} (l : list A) (i : nat) (x : A) :
  index l i = Ok x -> In x l.
Proof.
  unfold index. destruct (nth_error l i) eqn:E; [| discriminate].
  intros [= <-]. exact (nth_error_In _ _ E).
Qed.

(** X15. The excerpt built around a sentence of the section's sentence list
    consists of at most three of the section's sentences, the sentence
    itself among them, joined by ". "; its words are then joined by single
    spaces, so the excerpt has no blank at either end and no blank other
    than single spaces. *)
Theorem excerpt_shape (target : str) (all_sentences : list str) (refined : str) :
  In target all_sentences ->
  _refine_sentence_with_context target all_sentences = Ok refined ->
  exists before after,
    (length before <= 1)%nat /\ (length after <= 1)%nat /\
    (forall x, In x (before ++ after) -> In x all_sentences) /\
    refined
    = join (lit " ")
        (split_ws (join (lit ". ") (before ++ [target] ++ after))).
Proof.
  intros Hin. unfold _refine_sentence_with_context.
  destruct (strip_is_infix target) as (a & b & Ht).
  destruct (find_index_some
              (fun sentence => contains (strip target) sentence)
              all_sentences target Hin) as [i ->].
  { rewrite Ht at 2. apply contains_infix. }
  intros H.
  apply bind_ok in H. destruct H as (before & Hb & H).
  apply bind_ok in H. destruct H as (after & Ha & H).
  injection H as <-. exists before, after.
  assert (Hshape : forall (c : bool) (j : nat) (l : list str),
             (if c then s <- index all_sentences j ;; Ok [s] else Ok [])
             = Ok l ->
             (length l <= 1)%nat /\ forall x, In x l -> In x all_sentences).
  { intros c j l E. destruct c.
    - apply bind_ok in E. destruct E as (x & Ex & E). injection E as <-.
      split; [simpl; lia |]. intros y [<- | []]. exact (index_In _ _ _ Ex).
    - injection E as <-. split; [simpl; lia | intros ? []]. }
  destruct (Hshape _ _ _ Hb) as [Lb Ib].
  destruct (Hshape _ _ _ Ha) as [La Ia].
  split; [exact Lb |]. split; [exact La |]. split.
  - intros x Hx. apply in_app_or in Hx. destruct Hx; auto.
  - apply strip_collapse_words.
Qed.

Lemma excerpt_shape_witness :
  _refine_sentence_with_context (lit "second  one")
    [lit "first"; lit "second  one"; lit "third"]
  = Ok (lit "first. second one. third") /\
  exists before after,
    (length before <= 1)%nat /\ (length after <= 1)%nat /\
    (forall x, In x (before ++ after) ->
               In x [lit "first"; lit "second  one"; lit "third"]) /\
    lit "first. second one. third"
    = join (lit " ")
        (split_ws (join (lit ". ") (before ++ [lit "second  one"] ++ after))).
Proof.
  assert (E : _refine_sentence_with_context (lit "second  one")
                [lit "first"; lit "second  one"; lit "third"]
              = Ok (lit "first. second one. third"))
    by (vm_compute; reflexivity).
  split; [exact E |].
  exact (excerpt_shape (lit "second  one")
           [lit "first"; lit "second  one"; lit "third"]
           (lit "first. second one. third")
           (or_intror (or_introl eq_refl)) E).
Defined.

End Excerpt.

End SubsectionExtras.

(** ** More on the analyzers *)

Module AnalyzerExtras.

Import Re PersonaAnalyzer PyStrFacts PyListFacts AnalyzerFacts
  SubsectionExtras Variations ComponentExtras.

Lemma set_mem_true (x : str) (l : list str) : set_mem x l = true <-> In x l.
Proof.
  unfold set_mem. destruct (in_dec str_eq_dec x l); split;
    intros; try assumption; try reflexivity; try discriminate; contradiction.
Qed.

Lemma difference_In (x : str) (a b : list str) :
  In x (difference a b) <-> In x a /\ ~ In x b.
Proof.
  unfold difference. rewrite filter_In, negb_true_iff.
  split; intros [H1 H2]; split; try assumption.
  - intros H. apply set_mem_true in H. congruence.
  - destruct (set_mem x b) eqn:E; [| reflexivity].
    apply set_mem_true in E. contradiction.
Qed.

Lemma difference_NoDup (a b : list str) : NoDup a -> NoDup (difference a b).
Proof. apply NoDup_filter. Qed.

Lemma union_In (x : str) (a b : list str) :
  In x (union a b) <-> In x a \/ In x b.
Proof. unfold union, py_set. rewrite nodup_In. apply in_app_iff. Qed.

(** The loop that adds the keywords of the detected domains. *)
Lemma domain_loop (domains : list str) (start : list str) :
  NoDup start ->
  let all :=
    fold_left
      (fun acc domain =>
         match lookup domain_keywords domain with
         | Some kws => union acc (py_set kws)
         | None => acc
         end) domains start in
  NoDup all /\
  (forall k, In k start -> In k all) /\
  (forall d kws k,
      In d domains -> lookup domain_keywords d = Some kws -> In k kws ->
      In k all).
Proof.
  revert start. induction domains as [|d ds IH]; intros start Hnd; simpl.
  - split; [exact Hnd |]. split; [auto | intros ? ? ? []].
  - set (next := match lookup domain_keywords d with
                 | Some kws => union start (py_set kws)
                 | None => start
                 end).
    assert (Hnext : NoDup next).
    { unfold next. destruct (lookup domain_keywords d); [| exact Hnd].
      apply NoDup_nodup. }
    assert (Hsub : forall k, In k start -> In k next).
    { intros k Hk. unfold next. destruct (lookup domain_keywords d);
        [apply union_In; left |]; exact Hk. }
    destruct (IH next Hnext) as (H1 & H2 & H3).
    split; [exact H1 |]. split; [intros k Hk; apply H2, Hsub, Hk |].
    intros d' kws k [<- | Hd] Hl Hk.
    + apply H2. unfold next. rewrite Hl. apply union_In. right.
      unfold py_set. apply nodup_In. exact Hk.
    + exact (H3 d' kws k Hd Hl Hk).
Qed.

(** X16. The keyword sets the analyzers return hold no word twice and no
    stop word; the persona's set holds every keyword of every detected
    fixed domain that is not a stop word. *)
Theorem keyword_sets_clean :
  (forall text domains words,
      _generate_persona_keywords text domains = Ok words ->
      NoDup words /\
      (forall k, In k words -> ~ In k persona_stop_words) /\
      (forall d kws k,
          In d domains -> lookup domain_keywords d = Some kws -> In k kws ->
          ~ In k persona_stop_words -> In k words)) /\
  (forall text words,
      _extract_priority_keywords text = Ok words ->
      NoDup words /\ (forall k, In k words -> ~ In k job_stop_words)).
Proof.
  split.
  - intros text domains words H. unfold _generate_persona_keywords in H.
    apply bind_ok in H. destruct H as (w & _ & H). injection H as <-.
    destruct (domain_loop domains (py_set w) (NoDup_nodup _ _))
      as (H1 & _ & H3).
    split; [apply difference_NoDup, H1 |].
    split.
    + intros k Hk. apply difference_In in Hk. tauto.
    + intros d kws k Hd Hl Hk Hs. apply difference_In.
      split; [exact (H3 d kws k Hd Hl Hk) | exact Hs].
  - intros text words H. unfold _extract_priority_keywords in H.
    apply bind_ok in H. destruct H as (w & _ & H). injection H as <-.
    split; [apply difference_NoDup, NoDup_nodup |].
    intros k Hk. apply difference_In in Hk. tauto.
Qed.

Lemma keyword_sets_clean_witness :
  _extract_priority_keywords (lit "Review the data and the data sets")
  = Ok [lit "review"; lit "data"; lit "sets"] /\
  NoDup [lit "review"; lit "data"; lit "sets"].
Proof.
  assert (E : _extract_priority_keywords
                (lit "Review the data and the data sets")
              = Ok [lit "review"; lit "data"; lit "sets"])
    by (vm_compute; reflexivity).
  split; [exact E |].
  exact (proj1 (proj2 keyword_sets_clean _ _ E)).
Defined.

(** A character a tag may hold: anything but a space and an upper-case
    letter. *)
Lemma tag_char (c : ascii) :
  let c' := if Ascii.eqb (lower_char c) " "%char then "_"%char
            else lower_char c in
  isupper c' = false /\ Ascii.eqb c' " "%char = false.
Proof.
  destruct c as [[] [] [] [] [] [] [] []]; vm_compute; auto.
Qed.

(** X17. The expertise domains of a persona hold no tag twice, and no tag
    holds a space or an upper-case letter. *)
Theorem expertise_domains_clean (text : str) (domains : list str) :
  _extract_expertise_domains text = Ok domains ->
  NoDup domains /\
  forall tag c, In tag domains -> In c tag ->
    isupper c = false /\ c <> " "%char.
Proof.
  unfold _extract_expertise_domains.
  destruct (findall_all_strings false domain_patterns text) as [l ->].
  { repeat constructor. }
  rewrite (mapM_strings domain_tag
             (fun m => replace_char " "%char "_"%char (lower m)))
    by reflexivity.
  unfold bind. intros H.
  assert (E : domains
              = py_set
                  (map fst
                     (filter (fun e => any_in (snd e) (lower text))
                        domain_keywords)
                   ++ map (fun m => replace_char " "%char "_"%char (lower m))
                        l))
    by congruence.
  clear H. subst domains. split; [apply NoDup_nodup |].
  intros tag c Htag Hc. unfold py_set in Htag. apply nodup_In in Htag.
  apply in_app_or in Htag. destruct Htag as [Htag | Htag].
  - apply in_map_iff in Htag. destruct Htag as (e & <- & He).
    apply filter_In in He. destruct He as [He _].
    assert (Hall : forallb
                     (fun e => forallb
                                 (fun c => negb (isupper c)
                                           && negb (Ascii.eqb c " "%char))
                                 (fst e))
                     domain_keywords = true) by (vm_compute; reflexivity).
    rewrite forallb_forall in Hall. specialize (Hall e He).
    rewrite forallb_forall in Hall. specialize (Hall c Hc).
    apply andb_true_iff in Hall. destruct Hall as [H1 H2].
    apply negb_true_iff in H1, H2. split; [exact H1 |].
    intros ->. discriminate.
  - apply in_map_iff in Htag. destruct Htag as (m & <- & _).
    unfold replace_char, lower in Hc. rewrite map_map in Hc.
    apply in_map_iff in Hc. destruct Hc as (c0 & <- & _).
    destruct (tag_char c0) as [H1 H2]. cbv zeta in H1, H2.
    split; [exact H1 |]. intros E. rewrite E in H2. discriminate.
Qed.

Lemma expertise_domains_clean_witness :
  _extract_expertise_domains (lit "PhD Researcher in Computational Biology")
  = Ok [lit "computational_biology"] /\
  NoDup [lit "computational_biology"].
Proof.
  assert (E : _extract_expertise_domains
                (lit "PhD Researcher in Computational Biology")
              = Ok [lit "computational_biology"])
    by (vm_compute; reflexivity).
  split; [exact E |].
  exact (proj1 (expertise_domains_clean _ _ E)).
Defined.

Lemma strip_ends (s : str) (a b : ascii) (x y : str) :
  s = a :: x -> isspace a = false ->
  s = y ++ [b] -> isspace b = false ->
  strip s = s.
Proof.
  intros Ea Ha Eb Hb. unfold strip, rstrip.
  assert (H1 : lstrip s = s).
  { apply lstrip_fixed. rewrite Ea. exact Ha. }
  rewrite H1.
  assert (H2 : lstrip (rev s) = rev s).
  { apply lstrip_fixed. rewrite Eb, rev_unit. exact Hb. }
  rewrite H2. apply rev_involutive.
Qed.

Lemma Forall_firstn {A} (P : A -> Prop) (n : nat) (l : list A) :
  Forall P l -> Forall P (firstn n l).
Proof.
  intros H. apply Forall_forall. intros x Hx.
  rewrite Forall_forall in H. apply H. exact (firstn_incl n l x Hx).
Qed.

(** X18. The role of a persona carries no blank at either end, whichever
    of the three ways produced it: a pattern match, the first three words,
    or the whole description. *)
Theorem role_is_trimmed (description role : str) :
  _extract_role description = Ok role -> strip role = role.
Proof.
  unfold _extract_role.
  destruct (first_search true role_patterns description) as [[p m]|].
  - intros H. apply bind_ok in H. destruct H as (g & _ & H).
    apply bind_ok in H. destruct H as (t & _ & H).
    injection H as <-. apply strip_idem.
  - destruct (2 <=? length (split_ws description)) eqn:E.
    + intros H. injection H as <-.
      apply Nat.leb_le in E.
      pose proof (split_ws_from_words description [] eq_refl) as HW.
      fold (split_ws description) in HW.
      destruct (split_ws description) as [|w W] eqn:EW;
        [simpl in E; lia |].
      destruct (join_words_ends (firstn 3 (w :: W)))
        as (a & x & b & y & Ea & Ha & Eb & Hb).
      * simpl. discriminate.
      * apply Forall_firstn. exact HW.
      * exact (strip_ends _ a b x y Ea Ha Eb Hb).
    + intros H. injection H as <-. apply strip_idem.
Qed.

Lemma role_is_trimmed_witness :
  _extract_role (lit "  a  keen   reader of  books ") = Ok (lit "a keen reader")
  /\ strip (lit "a keen reader") = lit "a keen reader".
Proof.
  assert (E : _extract_role (lit "  a  keen   reader of  books ")
              = Ok (lit "a keen reader")) by (vm_compute; reflexivity).
  split; [exact E | exact (role_is_trimmed _ _ E)].
Defined.

(** *** Indicators and keywords in capitals *)

Lemma count_in_dead (k : str) (K : list str) (text : str) :
  existsb isupper k = true ->
  count_in (k :: K) (lower text) = count_in K (lower text).
Proof.
  intros H. unfold count_in. simpl.
  rewrite (upper_case_never_found k text H). reflexivity.
Qed.

Lemma any_in_dead (k : str) (K : list str) (text : str) :
  existsb isupper k = true ->
  any_in (k :: K) (lower text) = any_in K (lower text).
Proof.
  intros H. unfold any_in. simpl.
  rewrite (upper_case_never_found k text H). reflexivity.
Qed.

(** The indicators of the computer-science domain that can be found. *)
Lemma computer_science_indicators (text : str) (e : str * list str) :
  In e domain_keywords -> fst e = lit "computer_science" ->
  any_in (snd e) (lower text)
  = any_in (map lit ["algorithm"; "programming"; "software"; "computing";
                     "data structure"; "neural network"]) (lower text).
Proof.
  intros He Hk. unfold domain_keywords in He. cbn [In] in He.
  destruct He as [<- | [<- | [<- | [<- | [<- | [<- | [<- | [<- | []]]]]]]]];
    try (vm_compute in Hk; discriminate).
  unfold entry, any_in. cbn [snd map existsb].
  rewrite (upper_case_never_found (lit "AI") text eq_refl).
  rewrite (upper_case_never_found (lit "ML") text eq_refl).
  cbn [orb]. reflexivity.
Qed.

Lemma dead_keyword_score (k : str) section persona job :
  existsb isupper k = true ->
  (RelevanceScorer._calculate_keyword_score section
     (Samples.with_keywords persona (k :: keywords persona)) job
   <= RelevanceScorer._calculate_keyword_score section persona job)%R.
Proof.
  intros Hk.
  unfold RelevanceScorer._calculate_keyword_score,
    RelevanceScorer.all_keywords, union, Samples.with_keywords.
  cbn [keywords]. rewrite <- app_comm_cons.
  set (l := keywords persona ++ priority_keywords job).
  unfold py_set. cbn [nodup].
  destruct (in_dec str_eq_dec k l) as [Hin | Hout]; [apply Rle_refl |].
  rewrite !(count_in_dead k _ _ Hk).
  set (K := nodup str_eq_dec l).
  set (m := (count_in K (lower (content section))
             + count_in K (lower (title section)) * 2)%nat).
  set (w := word_count (lower (content section))).
  destruct (Nat.eqb_spec w 0) as [Hw | Hw].
  { destruct K; apply Rle_refl. }
  assert (Hsw : (0 < sqrt (INR w))%R) by (apply sqrt_lt_R0, lt_0_INR; lia).
  destruct K as [|x K'] eqn:EK.
  - assert (Hm : m = 0%nat) by reflexivity. rewrite Hm. simpl INR at 1.
    unfold Rdiv. rewrite !Rmult_0_l.
    unfold Rmin. destruct (Rle_dec 0 1); lra.
  - apply Rle_min_compat_r.
    assert (Hn : (0 < sqrt (INR (length (x :: K'))))%R)
      by (apply sqrt_lt_R0, lt_0_INR; simpl; lia).
    assert (Hle : (sqrt (INR (length (x :: K')))
                   <= sqrt (INR (length (k :: x :: K'))))%R).
    { apply sqrt_le_1_alt, le_INR. simpl. lia. }
    unfold Rdiv. apply Rmult_le_compat_l.
    + apply Rmult_le_pos; [apply pos_INR |].
      apply Rlt_le, Rinv_0_lt_compat, Hsw.
    + apply Rinv_le_contravar; assumption.
Qed.

(** X8. Every search is a substring test against lower-cased text, so an
    indicator or keyword that holds a capital letter is never found.
    [_extract_expertise_domains] returns the domain computer_science only
    when one of its six lower-case indicators occurs in the lower-cased
    description or a phrase of the description yields that tag: its
    indicators in capitals detect nothing.  And a keyword with a capital
    letter added to the persona's keywords never raises a keyword score:
    it adds nothing to the matches and can only enlarge the number of
    keywords the score is divided by. *)
Theorem upper_case_keyword_is_dead :
  (forall description domains,
      _extract_expertise_domains description = Ok domains ->
      In (lit "computer_science") domains ->
      any_in (map lit ["algorithm"; "programming"; "software"; "computing";
                       "data structure"; "neural network"])
        (lower description) = true \/
      exists f,
        In f (flat_map (fun p => re_findall false p description)
                domain_patterns) /\
        domain_tag f = Ok (lit "computer_science")) /\
  (forall k section persona job,
      existsb isupper k = true ->
      (RelevanceScorer._calculate_keyword_score section
         (Samples.with_keywords persona (k :: keywords persona)) job
       <= RelevanceScorer._calculate_keyword_score section persona job)%R).
Proof.
  split; [| exact dead_keyword_score].
  intros description domains. unfold _extract_expertise_domains.
  destruct (findall_all_strings false domain_patterns description) as [l El].
  { repeat constructor. }
  rewrite El.
  rewrite (mapM_strings domain_tag
             (fun m => replace_char " "%char "_"%char (lower m)))
    by reflexivity.
  unfold bind. intros H.
  assert (E : domains
              = py_set
                  (map fst
                     (filter (fun e => any_in (snd e) (lower description))
                        domain_keywords)
                   ++ map (fun m => replace_char " "%char "_"%char (lower m))
                        l))
    by congruence.
  clear H. subst domains. intros Hin.
  unfold py_set in Hin. apply nodup_In in Hin. apply in_app_or in Hin.
  destruct Hin as [Hin | Hin].
  - left. apply in_map_iff in Hin. destruct Hin as (e & Hk & He).
    apply filter_In in He. destruct He as [He Hany].
    rewrite <- (computer_science_indicators description e He Hk).
    exact Hany.
  - right. apply in_map_iff in Hin. destruct Hin as (m & Hm & Hl).
    exists (FStr m). split; [apply in_map; exact Hl |].
    unfold domain_tag. cbn [bind]. rewrite Hm. reflexivity.
Qed.

Lemma upper_case_keyword_is_dead_witness :
  (RelevanceScorer._calculate_keyword_score Samples.results_section
     (Samples.with_keywords
        (Samples.with_keywords Samples.empty_persona [lit "results"])
        (lit "AI"
         :: keywords
              (Samples.with_keywords Samples.empty_persona [lit "results"])))
     Samples.empty_job
   <= RelevanceScorer._calculate_keyword_score Samples.results_section
        (Samples.with_keywords Samples.empty_persona [lit "results"])
        Samples.empty_job)%R.
Proof.
  apply (proj2 upper_case_keyword_is_dead (lit "AI")). reflexivity.
Defined.

End AnalyzerExtras.

(** ** The excerpt of a section body in the output *)

Module OutputFacts.

Import OutputFormatter.

Local Open Scope Z_scope.

Lemma rfind_from_spec (c : ascii) (s : str) :
  forall i last,
    (~ In c s /\ rfind_from c i last s = last) \/
    (exists a b, s = a ++ c :: b /\ ~ In c b /\
                 rfind_from c i last s = i + Z.of_nat (length a)).
Proof.
  induction s as [|x s IH]; intros i last; simpl.
  - left. split; [intros [] | reflexivity].
  - destruct (IH (i + 1) (if Ascii.eqb x c then i else last))
      as [[Hn E] | (a & b & Es & Hn & E)].
    + destruct (Ascii.eqb_spec x c) as [-> | Hx].
      * right. exists [], s. simpl. repeat split; [exact Hn | lia].
      * left. split; [intros [H | H]; [congruence | contradiction] | exact E].
    + right. exists (x :: a), b. subst s. simpl length.
      repeat split; [exact Hn | lia].
Qed.

(** The place of the last occurrence of a character bounds every other. *)
Lemma last_occurrence (c : ascii) (a b a' b' : str) :
  a ++ c :: b = a' ++ c :: b' -> ~ In c b -> (length a' <= length a)%nat.
Proof.
  revert a'. induction a as [|x a IH]; intros a' E Hn.
  - destruct a' as [|y a']; [simpl; lia |].
    simpl in E. injection E as _ E. exfalso. apply Hn. rewrite E.
    apply in_or_app. right. left. reflexivity.
  - destruct a' as [|y a']; [simpl; lia |].
    simpl in E. injection E as _ E. simpl. apply le_n_S.
    exact (IH a' E Hn).
Qed.

(** X19. A body within the limit is returned as it is.  A longer one is
    cut: the excerpt is a prefix of the body followed by three dots, so it
    may be three characters longer than the limit.  The prefix is either
    the first [max_length] characters, none of whose spaces lies beyond
    four fifths of the limit, or it ends before the last space among those
    characters, and then more than four fifths of the limit are kept. *)
Theorem truncate_shape (content : str) (max_length : Z) :
  0 <= max_length ->
  (Z.of_nat (length content) <= max_length ->
   _truncate_content content max_length = content) /\
  (max_length < Z.of_nat (length content) ->
   exists kept dropped,
     content = kept ++ dropped /\
     _truncate_content content max_length = kept ++ lit "..." /\
     ((Z.of_nat (length kept) = max_length /\
       forall a b, kept = a ++ " "%char :: b ->
                   5 * Z.of_nat (length a) <= 4 * max_length)
      \/
      (exists word tail,
          dropped = " "%char :: word ++ tail /\
          ~ In " "%char word /\
          Z.of_nat (length kept) + 1 + Z.of_nat (length word) = max_length /\
          4 * max_length < 5 * Z.of_nat (length kept)))).
Proof.
  intros Hmax. unfold _truncate_content. split.
  - intros H. apply Z.leb_le in H. rewrite H. reflexivity.
  - intros H. apply Z.leb_gt in H. rewrite H. apply Z.leb_gt in H.
    cbv zeta. set (n := Z.to_nat max_length).
    assert (E0 : slice_to content max_length = firstn n content).
    { unfold slice_to.
      replace (0 <=? max_length) with true by (symmetry; apply Z.leb_le; lia).
      reflexivity. }
    rewrite E0.
    assert (Hn : (n < length content)%nat) by (unfold n; lia).
    assert (Hlen : length (firstn n content) = n)
      by (rewrite length_firstn; lia).
    pose proof (firstn_skipn n content) as Hsplit.
    destruct (rfind_from_spec " "%char (firstn n content) 0 (-1))
      as [[Hno E] | (a & b & Es & Hno & E)]; fold (rfind " "%char (firstn n content)) in E;
      rewrite E.
    + replace (4 * max_length <? 5 * -1) with false
        by (symmetry; apply Z.ltb_ge; lia).
      exists (firstn n content), (skipn n content).
      split; [symmetry; exact Hsplit |]. split; [reflexivity |].
      left. split; [rewrite Hlen; unfold n; lia |].
      intros a b Ek. exfalso. apply Hno. rewrite Ek.
      apply in_or_app. right. left. reflexivity.
    + destruct (4 * max_length <? 5 * (0 + Z.of_nat (length a))) eqn:Ecut.
      * apply Z.ltb_lt in Ecut.
        assert (Ek : slice_to (firstn n content) (0 + Z.of_nat (length a)) = a).
        { unfold slice_to.
          replace (0 <=? 0 + Z.of_nat (length a)) with true
            by (symmetry; apply Z.leb_le; lia).
          replace (Z.to_nat (0 + Z.of_nat (length a))) with (length a) by lia.
          rewrite Es, firstn_app, Nat.sub_diag, firstn_all. simpl.
          apply app_nil_r. }
        rewrite Ek. exists a, (" "%char :: b ++ skipn n content).
        split.
        { rewrite <- Hsplit at 1. rewrite Es, <- app_assoc. reflexivity. }
        split; [reflexivity |]. right. exists b, (skipn n content).
        split; [reflexivity |]. split; [exact Hno |].
        split; [| lia].
        apply (f_equal (@length ascii)) in Es.
        rewrite Hlen, length_app in Es. simpl in Es. unfold n in Es. lia.
      * apply Z.ltb_ge in Ecut.
        exists (firstn n content), (skipn n content).
        split; [symmetry; exact Hsplit |]. split; [reflexivity |].
        left. split; [rewrite Hlen; unfold n; lia |].
        intros a' b' Ek. rewrite Es in Ek.
        pose proof (last_occurrence _ _ _ _ _ Ek Hno). lia.
Qed.

Lemma truncate_shape_witness :
  _truncate_content (lit "alpha beta gamma delta") 12 = lit "alpha beta..." /\
  _truncate_content (lit "alpha") 12 = lit "alpha".
Proof.
  split; [vm_compute; reflexivity |].
  apply (proj1 (truncate_shape (lit "alpha") 12 ltac:(lia))).
  simpl. lia.
Defined.

End OutputFacts.

(** ** The section extraction of the document processor *)

Module ProcessorFacts.

Import Re PersonaAnalyzer DocumentProcessor ProcessorNotions.
Import PyStrFacts PyListFacts AnalyzerFacts ComponentExtras SubsectionExtras.

Lemma run_seq {A} (ic : bool) (a b : regex) (st : mstate)
    (k : mstate -> option A) :
  run ic (Seq a b) st k = run ic a st (fun st' => run ic b st' k).
Proof. reflexivity. Qed.

Lemma run_group {A} (ic : bool) (n : nat) (a : regex) (st : mstate)
    (k : mstate -> option A) :
  run ic (Group n a) st k
  = run ic a st
      (fun st' =>
         k (MState (prev st') (rest st')
              ((n, firstn (length (rest st) - length (rest st')) (rest st))
               :: caps st'))).
Proof. reflexivity. Qed.

Lemma run_charset {A} (ic negate : bool) (p : ascii -> bool)
    (pv : option ascii) (c : ascii) (s : str) (cs : list (nat * str))
    (k : mstate -> option A) :
  run ic (CharSet negate p) (MState pv (c :: s) cs) k
  = if in_set ic negate p c then k (MState (Some c) s cs) else None.
Proof. reflexivity. Qed.

Lemma run_bol {A} (ic : bool) (s : str) (cs : list (nat * str))
    (k : mstate -> option A) :
  run ic Bol (MState None s cs) k = k (MState None s cs).
Proof. reflexivity. Qed.

Lemma run_charset_inv {A} (ic negate : bool) (p : ascii -> bool)
    (st : mstate) (k : mstate -> option A) (x : A) :
  run ic (CharSet negate p) st k = Some x ->
  exists c s, rest st = c :: s /\ in_set ic negate p c = true /\
              k (MState (Some c) s (caps st)) = Some x.
Proof.
  simpl. destruct (rest st) as [|c s]; [discriminate |].
  destruct (in_set ic negate p c) eqn:E; [| discriminate].
  intros H. exists c, s. auto.
Qed.

(** A successful run reads a prefix of the text, made of characters the
    pattern can read, and ends in its continuation. *)
Lemma run_consumes {A} (ic : bool) (P : ascii -> bool) (r : regex) :
  reads_only ic P r ->
  forall (st : mstate) (k : mstate -> option A) (x : A),
    run ic r st k = Some x ->
    exists st' u, k st' = Some x /\ rest st = u ++ rest st' /\
                  forallb P u = true /\ (reads_some r -> u <> []).
Proof.
  induction r as [| negate p | a IHa b IHb | a IHa b IHb | a IHa | n a IHa | |];
    intros HP st k x.
  - simpl. intros H. exists st, []. auto.
  - intros H. apply run_charset_inv in H.
    destruct H as (c & s & E & Hc & H).
    exists (MState (Some c) s (caps st)), [c]. simpl.
    rewrite E, (HP c Hc). repeat split; auto. discriminate.
  - destruct HP as [Ha Hb]. rewrite run_seq. intros H.
    apply (IHa Ha) in H. destruct H as (st1 & u1 & H & E1 & P1 & N1).
    apply (IHb Hb) in H. destruct H as (st2 & u2 & H & E2 & P2 & N2).
    exists st2, (u1 ++ u2). rewrite E1, E2, app_assoc, forallb_app, P1, P2.
    repeat split; auto. simpl. intros [Hs | Hs] Hu;
      apply app_eq_nil in Hu; destruct Hu as [Hu1 Hu2];
      [exact (N1 Hs Hu1) | exact (N2 Hs Hu2)].
  - destruct HP as [Ha Hb]. simpl.
    destruct (run ic a st k) as [y|] eqn:E.
    + intros [= <-]. destruct (IHa Ha _ _ _ E) as (st1 & u1 & H & E1 & P1 & N1).
      exists st1, u1. repeat split; auto; try (intros [Hs _]; exact (N1 Hs)).
    + intros H. destruct (IHb Hb _ _ _ H) as (st1 & u1 & H' & E1 & P1 & N1).
      exists st1, u1. repeat split; auto; try (intros [_ Hs]; exact (N1 Hs)).
  - simpl in HP. simpl. generalize (length (rest st)). intros fuel.
    revert st. induction fuel as [|fuel IH]; intros st.
    + intros H. exists st, []. repeat split; auto; intros [].
    + match goal with
      | |- match ?t with _ => _ end = _ -> _ => destruct t as [y|] eqn:E
      end.
      * intros [= <-]. apply (IHa HP) in E.
        destruct E as (st1 & u1 & E & E1 & P1 & _).
        destruct (length (rest st1) <? length (rest st))%nat; [| discriminate].
        apply IH in E. destruct E as (st2 & u2 & E & E2 & P2 & _).
        exists st2, (u1 ++ u2).
        rewrite E1, E2, app_assoc, forallb_app, P1, P2.
        repeat split; auto; intros [].
      * intros H. exists st, []. repeat split; auto; intros [].
  - simpl in HP. rewrite run_group. intros H. apply (IHa HP) in H.
    destruct H as (st1 & u1 & H & E1 & P1 & N1).
    eexists (MState _ (rest st1) _), u1. split; [exact H |]. auto.
  - simpl. destruct (prev st); [discriminate |]. intros H.
    exists st, []. repeat split; auto; intros [].
  - simpl. destruct (xorb _ _); [| discriminate]. intros H.
    exists st, []. repeat split; auto; intros [].
Qed.

Lemma run_star {A} (ic : bool) (a : regex) (st : mstate)
    (k : mstate -> option A) :
  run ic (Star a) st k = star_loop ic a k (length (rest st)) st.
Proof. reflexivity. Qed.

(** A continuation that succeeds more often does not make a run fail. *)
Lemma run_mono {A B} (ic : bool) (r : regex) :
  forall (st : mstate) (k : mstate -> option A) (k' : mstate -> option B),
    (forall st', k st' <> None -> k' st' <> None) ->
    run ic r st k <> None -> run ic r st k' <> None.
Proof.
  induction r as [| negate p | a IHa b IHb | a IHa b IHb | a IHa | n a IHa | |];
    intros st k k' Hk.
  - simpl. apply Hk.
  - simpl. destruct (rest st) as [|c s]; [auto |].
    destruct (in_set ic negate p c); [apply Hk | auto].
  - rewrite !run_seq. apply IHa. intros st'. apply IHb. exact Hk.
  - simpl. intros H.
    destruct (run ic a st k') eqn:E'; [discriminate |].
    destruct (run ic a st k) eqn:E.
    + exfalso. apply (IHa st k k' Hk); [rewrite E; discriminate | exact E'].
    + exact (IHb st k k' Hk H).
  - rewrite !run_star. generalize (length (rest st)). intros fuel. revert st.
    induction fuel as [|fuel IH]; intros st; simpl; [apply Hk |].
    intros H.
    match goal with
    | |- match ?t with _ => _ end <> _ => destruct t eqn:E'
    end; [discriminate |].
    match type of H with
    | match ?t with _ => _ end <> _ => destruct t eqn:E
    end.
    + exfalso. revert E'. apply (IHa st) with (k := fun st' =>
        if length (rest st') <? length (rest st)
        then star_loop ic a k fuel st' else None).
      * intros st'. destruct (_ <? _); [apply IH | auto].
      * rewrite E. discriminate.
    + exact (Hk st H).
  - rewrite !run_group. apply IHa. intros st'. apply Hk.
  - simpl. destruct (prev st); [auto | apply Hk].
  - simpl. destruct (xorb _ _); [apply Hk | auto].
Qed.

Lemma star_loop_more_fuel {A} (ic : bool) (a : regex)
    (k : mstate -> option A) (f : nat) :
  forall (f' : nat) (st : mstate),
    f <= f' -> star_loop ic a k f st <> None ->
    star_loop ic a k f' st <> None.
Proof.
  induction f as [|f IH]; intros f' st Hf H.
  - simpl in H. destruct f' as [|f']; [exact H |]. simpl.
    match goal with
    | |- match ?t with _ => _ end <> _ => destruct t
    end; [discriminate | exact H].
  - destruct f' as [|f']; [lia |]. simpl in H |- *.
    match goal with
    | |- match ?t with _ => _ end <> _ => destruct t eqn:E'
    end; [discriminate |].
    match type of H with
    | match ?t with _ => _ end <> _ => destruct t eqn:E
    end; [| exact H].
    exfalso. revert E'. apply run_mono with (k := fun st' =>
      if length (rest st') <? length (rest st)
      then star_loop ic a k f st' else None).
    + intros st'. destruct (_ <? _); [apply IH; lia | auto].
    + rewrite E. discriminate.
Qed.

(** The matcher finds a match wherever there is a way to read the
    pattern that its continuation accepts. *)
Lemma run_complete {A} (ic : bool) (r : regex) (st st' : mstate) :
  path ic r st st' ->
  forall k : mstate -> option A, k st' <> None -> run ic r st k <> None.
Proof.
  induction 1 as [st | negate p pv c s cs Hc | a b st st1 st2 _ IHa _ IHb
                 | a b st st1 _ IH | a b st st1 _ IH | a st
                 | a st st1 st2 _ IHa Hlt _ IHs | n a st st1 _ IH | s cs];
    intros k Hk.
  - exact Hk.
  - rewrite run_charset, Hc. exact Hk.
  - rewrite run_seq. apply IHa. apply IHb. exact Hk.
  - simpl. destruct (run ic a st k) eqn:E; [discriminate |].
    exfalso. exact (IH k Hk E).
  - simpl. destruct (run ic a st k); [discriminate | exact (IH k Hk)].
  - rewrite run_star. destruct (length (rest st)); simpl; [exact Hk |].
    match goal with
    | |- match ?t with _ => _ end <> _ => destruct t
    end; [discriminate | exact Hk].
  - rewrite run_star. destruct (length (rest st)) as [|f] eqn:Ef; [lia |].
    simpl.
    match goal with
    | |- match ?t with _ => _ end <> _ => destruct t eqn:E
    end; [discriminate |].
    exfalso. revert E. apply IHa.
    apply Nat.ltb_lt in Hlt as Hlt'. rewrite Ef, Hlt'.
    apply star_loop_more_fuel with (f := length (rest st1)); [lia |].
    rewrite <- run_star. apply IHs. exact Hk.
  - rewrite run_group. apply IH. exact Hk.
  - exact Hk.
Qed.

Lemma reads_only_any (ic : bool) (r : regex) : reads_only ic (fun _ => true) r.
Proof. induction r; simpl; auto. Qed.

Lemma firstn_consumed {A} (u v : list A) :
  firstn (length (u ++ v) - length v) (u ++ v) = u.
Proof.
  rewrite length_app, Nat.add_sub, firstn_app, Nat.sub_diag, firstn_all.
  simpl. apply app_nil_r.
Qed.

Lemma at_end_inv (pv : option ascii) (s : str) (cs : list (nat * str)) :
  at_end (MState pv s cs) = true -> s = [] \/ s = [newline].
Proof.
  unfold at_end. simpl. destruct s as [|c [|d s]]; auto; [| discriminate].
  intros H. apply Ascii.eqb_eq in H. subst c. auto.
Qed.

Lemma in_set_ic_space (c : ascii) :
  in_set true false isspace c = isspace c.
Proof. destruct c as [[] [] [] [] [] [] [] []]; reflexivity. Qed.

(** When one of the two patterns with a title group matches, the line is
    what the first group can read, blanks, and the title group, which
    reaches to the end of the line. *)
Lemma title_group (P : ascii -> bool) (g1 : regex) (line : str) (m : rmatch) :
  reads_only true P g1 ->
  match_to_end true (Seqs [Bol; Group 1 g1; Plus ws_; Group 2 (Plus any_)])
    line = Some m ->
  exists u1 u2 t,
    lookup_group 2 (captured m) = Some t /\ t <> [] /\
    forallb P u1 = true /\ forallb isspace u2 = true /\ u2 <> [] /\
    (line = u1 ++ u2 ++ t \/ line = u1 ++ u2 ++ t ++ [newline]).
Proof.
  intros HP. unfold match_to_end.
  change (Seqs [Bol; Group 1 g1; Plus ws_; Group 2 (Plus any_)])
    with (Seq Bol (Seq (Group 1 g1)
                     (Seq (Plus ws_) (Group 2 (Plus any_))))).
  rewrite run_seq, run_bol, run_seq. intros H.
  apply (run_consumes true P (Group 1 g1) HP) in H.
  destruct H as (st1 & u1 & H & E1 & P1 & _). rewrite run_seq in H.
  apply (run_consumes true isspace (Plus ws_)) in H.
  2:{ unfold Plus, ws_. cbn [reads_only].
      split; intros c Hc; rewrite in_set_ic_space in Hc; exact Hc. }
  destruct H as (st2 & u2 & H & E2 & P2 & N2).
  rewrite run_group in H.
  apply (run_consumes true _ _ (reads_only_any true (Plus any_))) in H.
  destruct H as (st3 & u3 & H & E3 & _ & N3).
  cbn [rest prev caps] in *.
  destruct (at_end _) eqn:Eend; [| discriminate].
  apply at_end_inv in Eend. injection H as <-. cbn [captured lookup_group].
  rewrite Nat.eqb_refl. rewrite E3, firstn_consumed.
  exists u1, u2, u3. split; [reflexivity |].
  split; [apply N3; simpl; auto |].
  split; [exact P1 |]. split; [exact P2 |].
  split; [apply N2; simpl; auto |].
  rewrite E1, E2, E3.
  destruct Eend as [-> | ->]; [left | right]; rewrite ?app_nil_r; reflexivity.
Qed.

Lemma first_match_some (patterns : list regex) (line : str) (p : regex)
    (m : rmatch) :
  first_match patterns line = Some (p, m) ->
  In p patterns /\ match_to_end true p line = Some m.
Proof.
  induction patterns as [|q ps IH]; simpl; [discriminate |].
  destruct (match_to_end true q line) as [m'|] eqn:E.
  - intros [= <- <-]. auto.
  - intros H. destruct (IH H). auto.
Qed.

Lemma first_match_none (patterns : list regex) (line : str) (p : regex) :
  first_match patterns line = None -> In p patterns ->
  match_to_end true p line = None.
Proof.
  induction patterns as [|q ps IH]; simpl; [intros _ [] |].
  destruct (match_to_end true q line) as [m'|] eqn:E; [discriminate |].
  intros H [<- | Hp]; auto.
Qed.

(** The shape of a header title: the trimmed title group of a pattern that
    has one, the trimmed line otherwise. *)
Lemma header_cases (line title : str) :
  _is_section_header line = Ok (Some title) ->
  (3 <= length line <= 200) /\
  (title = strip line \/
   exists before t, title = strip t /\ t <> [] /\
     (line = before ++ t \/ line = before ++ t ++ [newline])).
Proof.
  unfold _is_section_header.
  destruct (length line <? 3) eqn:E1; [discriminate |].
  destruct (200 <? length line) eqn:E2; [discriminate |].
  apply Nat.ltb_ge in E1, E2. cbn [orb]. intros H. split; [lia |].
  destruct (first_match section_patterns line) as [[p m]|] eqn:E.
  - apply first_match_some in E. destruct E as [Hp Hm].
    unfold section_patterns in Hp. cbn [In] in Hp.
    destruct Hp as [<- | [<- | [<- | [<- | [<- | []]]]]].
    + apply (title_group (fun _ => true)) in Hm; [| apply reads_only_any].
      destruct Hm as (u1 & u2 & t & Eg & Hne & _ & _ & _ & Ht).
      change (2 <=? ngroups _) with true in H. cbv iota in H.
      unfold group in H.
      change (2 <=? ngroups _) with true in H. unfold bind in H.
      rewrite Eg in H. simpl in H. injection H as <-. right.
      exists (u1 ++ u2), t. rewrite <- !app_assoc. auto.
    + apply (title_group (fun _ => true)) in Hm; [| apply reads_only_any].
      destruct Hm as (u1 & u2 & t & Eg & Hne & _ & _ & _ & Ht).
      change (2 <=? ngroups _) with true in H. cbv iota in H.
      unfold group in H.
      change (2 <=? ngroups _) with true in H. unfold bind in H.
      rewrite Eg in H. simpl in H. injection H as <-. right.
      exists (u1 ++ u2), t. rewrite <- !app_assoc. auto.
    + change (2 <=? ngroups _) with false in H. injection H as <-. auto.
    + change (2 <=? ngroups _) with false in H. injection H as <-. auto.
    + change (2 <=? ngroups _) with false in H. injection H as <-. auto.
  - destruct (_ && _)%bool; [| discriminate]. injection H as <-. auto.
Qed.

(** What [_is_section_header] returns for a line that a pattern matches. *)
Lemma matched_title (line : str) (p : regex) (m : rmatch) :
  first_match section_patterns line = Some (p, m) ->
  exists t,
    (if 2 <=? ngroups p
     then g <- group (ngroups p) m 2 ;;
          s <- as_str g ;;
          Ok (Some (strip s))
     else Ok (Some (strip line))) = Ok (Some t).
Proof.
  intros E. apply first_match_some in E. destruct E as [Hp Hm].
  unfold section_patterns in Hp. cbn [In] in Hp.
  destruct Hp as [<- | [<- | [<- | [<- | [<- | []]]]]].
  - apply (title_group (fun _ => true)) in Hm; [| apply reads_only_any].
    destruct Hm as (u1 & u2 & t & Eg & _).
    change (2 <=? ngroups _) with true. cbv iota. unfold group.
    change (2 <=? ngroups _) with true. unfold bind.
    rewrite Eg. simpl. eauto.
  - apply (title_group (fun _ => true)) in Hm; [| apply reads_only_any].
    destruct Hm as (u1 & u2 & t & Eg & _).
    change (2 <=? ngroups _) with true. cbv iota. unfold group.
    change (2 <=? ngroups _) with true. unfold bind.
    rewrite Eg. simpl. eauto.
  - change (2 <=? ngroups _) with false. eauto.
  - change (2 <=? ngroups _) with false. eauto.
  - change (2 <=? ngroups _) with false. eauto.
Qed.

Lemma is_section_header_total (line : str) :
  exists h, _is_section_header line = Ok h.
Proof.
  unfold _is_section_header.
  destruct ((length line <? 3) || (200 <? length line))%bool; [eauto |].
  destruct (first_match section_patterns line) as [[p m]|] eqn:E.
  - destruct (matched_title line p m E) as [t ->]. eauto.
  - destruct (_ && _)%bool; eauto.
Qed.

Lemma header_when_matched (line : str) (p : regex) (m : rmatch) :
  3 <= length line <= 200 ->
  first_match section_patterns line = Some (p, m) ->
  exists t, _is_section_header line = Ok (Some t).
Proof.
  intros Hlen E. unfold _is_section_header.
  replace (length line <? 3) with false by (symmetry; apply Nat.ltb_ge; lia).
  replace (200 <? length line) with false
    by (symmetry; apply Nat.ltb_ge; lia).
  cbn [orb]. rewrite E. exact (matched_title line p m E).
Qed.

Lemma extract_section_number_total (title : str) :
  exists n, _extract_section_number title = Ok n.
Proof.
  unfold _extract_section_number.
  destruct (re_match false leading_number title); [simpl; eauto |].
  destruct (re_match false leading_roman title); simpl; eauto.
Qed.

(** *** Trimmed texts *)

Lemma rstrip_length (s : str) : length (rstrip s) <= length s.
Proof.
  unfold rstrip. rewrite length_rev.
  pose proof (lstrip_length (rev s)) as H. rewrite length_rev in H. exact H.
Qed.

Lemma trimmed_ends (s : str) :
  trimmed s ->
  exists a x b y,
    s = a :: x /\ isspace a = false /\ s = y ++ [b] /\ isspace b = false.
Proof.
  intros [Hne Hs].
  assert (Hhead : lstrip s = s).
  { destruct s as [|a x]; [reflexivity |]. simpl.
    destruct (isspace a) eqn:Ea; [| reflexivity]. exfalso.
    apply (f_equal (@length ascii)) in Hs. unfold strip in Hs.
    pose proof (rstrip_length (lstrip (a :: x))) as H1.
    simpl lstrip in H1, Hs. rewrite Ea in H1, Hs.
    pose proof (lstrip_length x) as H2. simpl in Hs. lia. }
  destruct s as [|a x]; [congruence |].
  destruct (exists_last Hne) as (y & b & Ey).
  exists a, x, b, y. split; [reflexivity |]. split.
  - simpl in Hhead. destruct (isspace a) eqn:Ea; [| reflexivity].
    exfalso. pose proof (lstrip_length x) as H.
    apply (f_equal (@length ascii)) in Hhead. simpl in Hhead. lia.
  - split; [exact Ey |].
    destruct (isspace b) eqn:Eb; [| reflexivity]. exfalso.
    unfold strip in Hs. rewrite Hhead in Hs. unfold rstrip in Hs.
    apply (f_equal (@length ascii)) in Hs. rewrite length_rev in Hs.
    rewrite Ey, rev_unit in Hs. simpl in Hs. rewrite Eb in Hs.
    pose proof (lstrip_length (rev y)) as H. rewrite length_rev in H.
    rewrite length_app in Hs. simpl in Hs. lia.
Qed.

Lemma ends_trimmed (s : str) (a b : ascii) (x y : str) :
  s = a :: x -> isspace a = false ->
  s = y ++ [b] -> isspace b = false ->
  trimmed s.
Proof.
  intros Ea Ha Eb Hb. split; [rewrite Ea; discriminate |].
  unfold strip, rstrip.
  assert (H1 : lstrip s = s).
  { apply lstrip_fixed. rewrite Ea. exact Ha. }
  rewrite H1.
  assert (H2 : lstrip (rev s) = rev s).
  { apply lstrip_fixed. rewrite Eb, rev_unit. exact Hb. }
  rewrite H2. apply rev_involutive.
Qed.

Lemma join_trimmed (sep : str) (parts : list str) :
  parts <> [] -> Forall trimmed parts -> trimmed (join sep parts).
Proof.
  intros Hne H.
  assert (G : exists a x b y,
             join sep parts = a :: x /\ isspace a = false /\
             join sep parts = y ++ [b] /\ isspace b = false).
  { induction H as [|p rest Hp Hrest IH]; [congruence |].
    destruct (trimmed_ends p Hp) as (a & x & b & y & Ea & Ha & Eb & Hb).
    destruct rest as [|q rest'].
    - simpl. exists a, x, b, y. auto.
    - destruct IH as (a' & x' & b' & y' & Ea' & Ha' & Eb' & Hb');
        [discriminate |].
      change (join sep (p :: q :: rest'))
        with (p ++ sep ++ join sep (q :: rest')).
      exists a, (x ++ sep ++ join sep (q :: rest')), b', (p ++ sep ++ y').
      split; [rewrite Ea; reflexivity |]. split; [exact Ha |].
      split; [| exact Hb'].
      rewrite Eb' at 1. rewrite <- !app_assoc. reflexivity. }
  destruct G as (a & x & b & y & Ea & Ha & Eb & Hb).
  exact (ends_trimmed _ a b x y Ea Ha Eb Hb).
Qed.

Lemma lstrip_nil (s : str) : lstrip s = [] -> forallb isspace s = true.
Proof.
  induction s as [|c s IH]; simpl; [reflexivity |].
  destruct (isspace c); [exact IH | discriminate].
Qed.

Lemma strip_nil (s : str) : strip s = [] -> forallb isspace s = true.
Proof.
  unfold strip, rstrip. intros H.
  apply (f_equal (@rev ascii)) in H. rewrite rev_involutive in H. simpl in H.
  apply lstrip_nil in H.
  assert (Hu : lstrip s = []).
  { pose proof (lstrip_head s) as Hh.
    destruct (lstrip s) as [|c u]; [reflexivity |]. exfalso.
    rewrite forallb_forall in H. rewrite (H c) in Hh; [discriminate |].
    apply in_rev. rewrite rev_involutive. left. reflexivity. }
  apply lstrip_nil. exact Hu.
Qed.

(** The end of a trimmed text is not blank. *)
Lemma trimmed_suffix (line before t : str) :
  strip line = line -> line = before ++ t -> t <> [] -> strip t <> [].
Proof.
  intros Hs E Hne Ht. apply strip_nil in Ht.
  destruct (exists_last Hne) as (t' & b & Et).
  destruct (trimmed_ends line) as (a & x & b' & y & _ & _ & Eb & Hb).
  { split; [| exact Hs]. rewrite E. destruct before; [exact Hne | discriminate]. }
  rewrite E, Et, app_assoc in Eb. apply app_inj_tail in Eb.
  destruct Eb as [_ <-].
  rewrite Et, forallb_app in Ht. apply andb_true_iff in Ht.
  destruct Ht as [_ Ht]. simpl in Ht. rewrite Hb in Ht. discriminate.
Qed.

(** The title of a header read off a trimmed line is trimmed. *)
Lemma header_title (line title : str) :
  strip line = line -> _is_section_header line = Ok (Some title) ->
  trimmed title.
Proof.
  intros Hs H. apply header_cases in H.
  destruct H as [Hlen [-> | (before & t & -> & Hne & [E | E])]].
  - split; [| apply strip_idem]. rewrite Hs. destruct line; [simpl in Hlen; lia |].
    discriminate.
  - split; [| apply strip_idem]. exact (trimmed_suffix line before t Hs E Hne).
  - exfalso.
    destruct (trimmed_ends line) as (a & x & b' & y & _ & _ & Eb & Hb).
    { split; [| exact Hs]. rewrite E.
      destruct before; [destruct t; discriminate | discriminate]. }
    rewrite E, !app_assoc in Eb. apply app_inj_tail in Eb.
    destruct Eb as [_ <-]. vm_compute in Hb. discriminate.
Qed.

(** *** The loop of [_extract_sections] *)

Lemma save_well_formed (st : state) :
  invariant st -> Forall well_formed (save st).
Proof.
  intros (Hs & Hc & Hl). unfold save.
  destruct (current_section st) as [s|]; [| exact Hs].
  destruct (current_content st) as [|l ls] eqn:El; [exact Hs |].
  apply Forall_app. split; [exact Hs |]. constructor; [| constructor].
  destruct Hc as (Ht & Hn & Hp1 & Hp2).
  assert (Hj : trimmed (join [newline] (l :: ls)))
    by (apply join_trimmed; [discriminate | exact Hl]).
  unfold well_formed, with_content. cbn [title content section_number
    start_position end_position].
  destruct Hj as [Hj1 Hj2]. rewrite Hj2.
  repeat split; try assumption; apply Ht.
Qed.

Lemma step_invariant (st : state) (raw : str) :
  invariant st -> exists st', step st raw = Ok st' /\ invariant st'.
Proof.
  intros Hinv. pose proof Hinv as (Hs & Hc & Hl). unfold step.
  destruct (starts_with page_marker (strip raw)).
  { eexists. split; [reflexivity |]. repeat split; assumption. }
  destruct (is_section_header_total (strip raw)) as [h Eh]. rewrite Eh.
  cbn [bind].
  assert (Hline : exists st',
             match strip raw with
             | [] => Ok st
             | _ :: _ =>
                 Ok {| sections_so_far := sections_so_far st;
                       current_section := current_section st;
                       current_content := current_content st ++ [strip raw];
                       current_page := current_page st |}
             end = Ok st' /\ invariant st').
  { destruct (strip raw) as [|c l] eqn:El; [eauto |].
    eexists. split; [reflexivity |].
    repeat split; try assumption. cbn [current_content].
    apply Forall_app. split; [exact Hl |]. constructor; [| constructor].
    split; [discriminate |]. rewrite <- El. apply strip_idem. }
  destruct h as [[|c t]|]; try exact Hline.
  destruct (extract_section_number_total (c :: t)) as [n En]. rewrite En.
  cbn [bind]. eexists. split; [reflexivity |].
  split; [exact (save_well_formed st Hinv) |].
  split; [| constructor].
  cbn [current_section]. unfold well_started.
  cbn [title section_number start_position end_position].
  split; [| auto].
  exact (header_title (strip raw) (c :: t) (strip_idem raw) Eh).
Qed.

Lemma run_lines_invariant (lines : list str) (st : state) :
  invariant st -> exists st', run_lines st lines = Ok st' /\ invariant st'.
Proof.
  revert st. induction lines as [|l ls IH]; intros st Hinv; simpl; [eauto |].
  destruct (step_invariant st l Hinv) as (st1 & -> & H1). cbn [bind].
  exact (IH st1 H1).
Qed.

Lemma initial_invariant : invariant initial.
Proof. repeat split; constructor. Qed.

Lemma extract_sections_spec (text : str) :
  exists sections,
    _extract_sections text = Ok sections /\
    forall s, In s sections -> well_formed s /\ 1 <= word_count (content s).
Proof.
  unfold _extract_sections.
  destruct (run_lines_invariant (split_on newline text) initial
              initial_invariant) as (final & -> & Hinv).
  cbn [bind]. pose proof (save_well_formed final Hinv) as Hsave.
  assert (Hall : forall l, Forall well_formed l ->
                   forall s, In s l ->
                     well_formed s /\ 1 <= word_count (content s)).
  { intros l Hl s Hin. rewrite Forall_forall in Hl.
    pose proof (Hl s Hin) as Hw. split; [exact Hw |].
    destruct Hw as (_ & [H1 H2] & _). exact (word_count_strip_pos _ H1 H2). }
  destruct (save final) as [|s0 l0] eqn:Es.
  - destruct (strip text) as [|c t] eqn:Et.
    + exists []. split; [reflexivity | intros s []].
    + eexists. split; [reflexivity |]. apply Hall.
      constructor; [| constructor].
      unfold well_formed, whole_document.
      cbn [title content section_number start_position end_position].
      rewrite Et. repeat split; try discriminate; try reflexivity.
      rewrite <- Et. apply strip_idem.
  - eexists. split; [reflexivity |]. apply Hall. exact Hsave.
Qed.

(** X20. [_extract_sections] returns for every text, and every section it
    returns has a trimmed, non-empty title and body (so a body of at least
    one word), carries as its number what [_extract_section_number] reads
    off its title, and has no positions. *)
Theorem extracted_sections_well_formed (text : str) :
  exists sections,
    _extract_sections text = Ok sections /\
    forall s, In s sections -> well_formed s /\ 1 <= word_count (content s).
Proof. exact (extract_sections_spec text). Qed.

Lemma split_on_from_blank (s cur : str) :
  forallb isspace s = true -> forallb isspace cur = true ->
  Forall (fun l => forallb isspace l = true) (split_on_from newline cur s).
Proof.
  revert cur. induction s as [|c s IH]; intros cur Hs Hcur; simpl.
  - constructor; [| constructor].
    rewrite forallb_forall in *. intros x Hx. apply Hcur, in_rev. exact Hx.
  - simpl in Hs. apply andb_true_iff in Hs. destruct Hs as [Hc Hs].
    destruct (Ascii.eqb c newline).
    + constructor; [| apply IH; auto].
      rewrite forallb_forall in *. intros x Hx. apply Hcur, in_rev. exact Hx.
    + apply IH; [exact Hs |]. simpl. rewrite Hc. exact Hcur.
Qed.

Lemma step_blank (st : state) (raw : str) :
  forallb isspace raw = true -> step st raw = Ok st.
Proof.
  intros H. unfold step. rewrite (strip_all_space raw H). reflexivity.
Qed.

Lemma run_lines_blank (lines : list str) (st : state) :
  Forall (fun l => forallb isspace l = true) lines ->
  run_lines st lines = Ok st.
Proof.
  induction 1 as [|l ls Hl _ IH]; simpl; [reflexivity |].
  rewrite (step_blank st l Hl). exact IH.
Qed.

(** X21. A text yields no section at all exactly when it is blank: any
    other text yields at least one section, if need be the one that holds
    the whole document. *)
Theorem no_sections_iff_blank (text : str) :
  _extract_sections text = Ok [] <-> strip text = [].
Proof.
  unfold _extract_sections. split.
  - destruct (run_lines initial (split_on newline text)) as [final|e];
      [| discriminate].
    cbn [bind]. destruct (save final); destruct (strip text);
      try discriminate; reflexivity.
  - intros H. rewrite H. apply strip_nil in H.
    rewrite (run_lines_blank (split_on newline text) initial).
    + reflexivity.
    + apply split_on_from_blank; [exact H | reflexivity].
Qed.

(** *** Ways to read a pattern *)

Lemma path_star_chars (ic negate : bool) (p : ascii -> bool) (s1 s2 : str)
    (cs : list (nat * str)) :
  forallb (in_set ic negate p) s1 = true ->
  forall pv, exists pv',
    path ic (Star (CharSet negate p)) (MState pv (s1 ++ s2) cs)
      (MState pv' s2 cs).
Proof.
  induction s1 as [|c s1 IH]; intros H pv.
  - exists pv. apply path_star_stop.
  - simpl in H. apply andb_true_iff in H. destruct H as [Hc H].
    destruct (IH H (Some c)) as [pv' Hp]. exists pv'.
    apply path_star_round with (st1 := MState (Some c) (s1 ++ s2) cs);
      [apply path_char; exact Hc | simpl; lia | exact Hp].
Qed.

Lemma path_plus_chars (ic negate : bool) (p : ascii -> bool) (s1 s2 : str)
    (cs : list (nat * str)) (pv : option ascii) :
  s1 <> [] -> forallb (in_set ic negate p) s1 = true ->
  exists pv',
    path ic (Plus (CharSet negate p)) (MState pv (s1 ++ s2) cs)
      (MState pv' s2 cs).
Proof.
  intros Hne H. destruct s1 as [|c s1]; [congruence |].
  simpl in H. apply andb_true_iff in H. destruct H as [Hc H].
  destruct (path_star_chars ic negate p s1 s2 cs H (Some c)) as [pv' Hp].
  exists pv'.
  apply path_seq with (st1 := MState (Some c) (s1 ++ s2) cs);
    [apply path_char; exact Hc | exact Hp].
Qed.

Lemma path_skip (ic : bool) (a : regex) (st : mstate) : path ic (Opt a) st st.
Proof. apply path_alt_r, path_eps. Qed.

(** *** Section numbers *)

Lemma leading_match (P : ascii -> bool) (g : regex) (title : str)
    (m : rmatch) :
  reads_only false P g -> reads_some g ->
  re_match false (Seq Bol (Group 1 g)) title = Some m ->
  exists n rest,
    lookup_group 1 (captured m) = Some n /\ title = n ++ rest /\
    n <> [] /\ forallb P n = true.
Proof.
  unfold re_match, match_at. rewrite run_seq, run_bol, run_group.
  intros HP HS H. apply (run_consumes false P g HP) in H.
  destruct H as (st1 & u & H & E & Pu & N). cbn [rest prev caps] in *.
  injection H as <-. cbn [captured lookup_group Nat.eqb].
  rewrite E, firstn_consumed. exists u, (rest st1). auto.
Qed.

Lemma leading_found (g : regex) (title : str) (st' : mstate) :
  path false g (MState None title []) st' ->
  re_match false (Seq Bol (Group 1 g)) title <> None.
Proof.
  intros Hp. unfold re_match, match_at.
  eapply run_complete;
    [eapply path_seq; [apply path_bol | apply path_group; exact Hp] |].
  discriminate.
Qed.

Lemma number_reads_digits :
  reads_only false (fun c => isdigit c || Ascii.eqb c "."%char) number_ /\
  reads_some number_.
Proof.
  split; [| simpl; auto].
  unfold number_, pat, Plus, Opt, digit_, dot_, Chr. cbn [Seqs reads_only].
  unfold in_set. cbn [xorb].
  repeat split; intros c Hc; try (rewrite Hc; reflexivity);
    try (rewrite Ascii.eqb_sym, Hc; apply orb_true_r).
Qed.

Lemma roman_reads_roman :
  reads_only false Variations.is_roman (Plus roman_) /\
  reads_some (Plus roman_).
Proof.
  split; [| simpl; auto]. unfold Plus, roman_. cbn [reads_only].
  unfold in_set. cbn [xorb]. split; intros c Hc; exact Hc.
Qed.

Lemma section_number_cases (title : str) :
  match title with
  | c :: _ =>
      if isdigit c
      then exists n rest,
          _extract_section_number title = Ok (Some n) /\
          title = n ++ rest /\ n <> [] /\
          forallb (fun x => isdigit x || Ascii.eqb x "."%char) n = true
      else if Variations.is_roman c
      then exists n rest,
          _extract_section_number title = Ok (Some n) /\
          title = n ++ rest /\ n <> [] /\
          forallb Variations.is_roman n = true
      else _extract_section_number title = Ok None
  | [] => _extract_section_number title = Ok None
  end.
Proof.
  destruct title as [|c s]; [reflexivity |].
  unfold _extract_section_number.
  destruct (isdigit c) eqn:Hd.
  - destruct (re_match false leading_number (c :: s)) as [m|] eqn:Em.
    + destruct number_reads_digits as [HP HS].
      destruct (leading_match _ _ _ _ HP HS Em) as (n & rest & Eg & Et & Hne & Hn).
      exists n, rest. unfold group. cbn [ngroups leading_number pat].
      change (1 <=? _) with true. cbv iota. rewrite Eg. auto.
    + exfalso. revert Em.
      apply leading_found with (st' := MState (Some c) s []).
      unfold number_, pat, Plus. cbn [Seqs].
      repeat first [ apply path_skip | apply path_star_stop
                   | eapply path_seq ].
      apply path_char. unfold in_set. cbn [xorb]. exact Hd.
  - assert (E1 : re_match false leading_number (c :: s) = None).
    { unfold re_match, match_at, leading_number, number_, Plus, digit_.
      unfold pat. cbn [Seqs]. rewrite run_seq, run_bol, run_group, !run_seq, run_charset.
      unfold in_set. cbn [xorb]. rewrite Hd. reflexivity. }
    rewrite E1. destruct (Variations.is_roman c) eqn:Hr.
    + destruct (re_match false leading_roman (c :: s)) as [m|] eqn:Em.
      * destruct roman_reads_roman as [HP HS].
        destruct (leading_match _ _ _ _ HP HS Em)
          as (n & rest & Eg & Et & Hne & Hn).
        exists n, rest. unfold group. cbn [ngroups leading_roman pat].
        change (1 <=? _) with true. cbv iota. rewrite Eg. auto.
      * exfalso. revert Em.
        apply leading_found with (st' := MState (Some c) s []).
        unfold Plus.
        eapply path_seq; [apply path_char | apply path_star_stop].
        unfold in_set. cbn [xorb]. exact Hr.
    + assert (E2 : re_match false leading_roman (c :: s) = None).
      { unfold re_match, match_at, leading_roman, pat, Plus, roman_.
        rewrite run_seq, run_bol, run_group, run_seq, run_charset.
        unfold in_set. cbn [xorb]. rewrite Hr. reflexivity. }
      rewrite E2. reflexivity.
Qed.

(** X22. Which titles get a section number: a title that begins with a
    digit gets a non-empty prefix of digits and dots, a title that begins
    with one of the capital letters I, V and X gets a non-empty prefix of
    such letters (so the title Introduction gets the number I), and every
    other title gets none. *)
Theorem section_number_of_title (title : str) :
  match title with
  | c :: _ =>
      if isdigit c
      then exists n rest,
          _extract_section_number title = Ok (Some n) /\
          title = n ++ rest /\ n <> [] /\
          forallb (fun x => isdigit x || Ascii.eqb x "."%char) n = true
      else if Variations.is_roman c
      then exists n rest,
          _extract_section_number title = Ok (Some n) /\
          title = n ++ rest /\ n <> [] /\
          forallb Variations.is_roman n = true
      else _extract_section_number title = Ok None
  | [] => _extract_section_number title = Ok None
  end.
Proof. exact (section_number_cases title). Qed.

(** *** Which lines are headers *)

Lemma in_set_ic_letter (c : ascii) :
  in_set true false isupper c = isalpha c.
Proof. destruct c as [[] [] [] [] [] [] [] []]; reflexivity. Qed.

Lemma in_set_ic_letter_or_blank (c : ascii) :
  in_set true false (fun c => isupper c || isspace c) c
  = isalpha c || isspace c.
Proof. destruct c as [[] [] [] [] [] [] [] []]; reflexivity. Qed.

Lemma in_set_ic_digit (c : ascii) : in_set true false isdigit c = isdigit c.
Proof. destruct c as [[] [] [] [] [] [] [] []]; reflexivity. Qed.

Lemma in_set_ic_dot (c : ascii) :
  in_set true false (Ascii.eqb "."%char) c = Ascii.eqb c "."%char.
Proof. destruct c as [[] [] [] [] [] [] [] []]; reflexivity. Qed.

Lemma in_set_ic_any (c : ascii) :
  in_set true true (Ascii.eqb newline) c = negb (Ascii.eqb c newline).
Proof. destruct c as [[] [] [] [] [] [] [] []]; reflexivity. Qed.

Lemma blank_not_number (c : ascii) :
  isspace c = true -> isdigit c || Ascii.eqb c "."%char = false.
Proof. destruct c as [[] [] [] [] [] [] [] []]; vm_compute; congruence. Qed.

Lemma forallb_eq {A} (p q : A -> bool) (l : list A) :
  (forall x, p x = q x) -> forallb p l = forallb q l.
Proof.
  intros H. induction l as [|x l IH]; simpl; [reflexivity |].
  rewrite H, IH. reflexivity.
Qed.

(** X23. The patterns are matched without regard to case, so the pattern
    for headers in capitals takes every line of letters and blanks: a
    trimmed line of 3 to 200 characters that holds nothing but letters and
    blanks is a header, in whatever case it is written. *)
Theorem letters_line_is_header (line : str) :
  3 <= length line <= 200 ->
  forallb (fun c => isalpha c || isspace c) line = true ->
  strip line = line ->
  exists title, _is_section_header line = Ok (Some title) /\ trimmed title.
Proof.
  intros Hlen Hall Hs.
  assert (Ht : trimmed line).
  { split; [| exact Hs]. destruct line; [simpl in Hlen; lia | discriminate]. }
  destruct (trimmed_ends line Ht) as (a & x & _ & _ & Ea & Ha & _ & _).
  subst line. simpl in Hall. rewrite Ha, orb_false_r in Hall.
  apply andb_true_iff in Hall. destruct Hall as [Hal Hx].
  assert (Hne : x <> []) by (destruct x; [simpl in Hlen; lia | discriminate]).
  set (p5 := Seqs [Bol;
                   Group 1 (Seq upper_
                              (Plus (CharSet false
                                       (fun c => isupper c || isspace c))))]).
  assert (Hm : match_to_end true p5 (a :: x) <> None).
  { destruct (path_plus_chars true false (fun c => isupper c || isspace c)
                x [] [] (Some a) Hne) as [pv' Hp].
    { rewrite (forallb_eq _ _ x in_set_ic_letter_or_blank). exact Hx. }
    rewrite app_nil_r in Hp. unfold match_to_end.
    eapply run_complete.
    - unfold p5. cbn [Seqs].
      apply path_seq with (st1 := MState None (a :: x) []); [apply path_bol |].
      apply path_group.
      apply path_seq with (st1 := MState (Some a) x []); [| exact Hp].
      apply path_char. rewrite in_set_ic_letter. exact Hal.
    - discriminate. }
  destruct (first_match section_patterns (a :: x)) as [[p m]|] eqn:E.
  - destruct (header_when_matched _ p m Hlen E) as [t Eh].
    exists t. split; [exact Eh |]. exact (header_title _ t Hs Eh).
  - exfalso. apply Hm. apply (first_match_none _ _ p5 E).
    unfold section_patterns, p5. cbn [In]. tauto.
Qed.

Lemma letters_line_is_header_witness :
  exists title,
    _is_section_header (lit "see the table below") = Ok (Some title) /\
    trimmed title.
Proof.
  apply (letters_line_is_header (lit "see the table below")).
  - simpl. lia.
  - reflexivity.
  - reflexivity.
Defined.

(** Two ways to cut a text after a run of characters of one kind agree. *)
Lemma span_unique {A} (P : A -> bool) (u u' : list A) (x x' : A)
    (r r' : list A) :
  forallb P u = true -> P x = false ->
  forallb P u' = true -> P x' = false ->
  u ++ x :: r = u' ++ x' :: r' -> u = u' /\ x :: r = x' :: r'.
Proof.
  revert u'. induction u as [|c u IH]; intros u' Hu Hx Hu' Hx' E.
  - destruct u' as [|c' u']; [auto |]. simpl in E, Hu'. injection E as -> _.
    apply andb_true_iff in Hu'. destruct Hu' as [Hc _]. congruence.
  - simpl in Hu. apply andb_true_iff in Hu. destruct Hu as [Hc Hu].
    destruct u' as [|c' u'].
    + simpl in E. injection E as <- _. congruence.
    + simpl in E, Hu'. injection E as <- E.
      apply andb_true_iff in Hu'. destruct Hu' as [_ Hu'].
      destruct (IH u' Hu Hx Hu' Hx' E) as [-> E']. auto.
Qed.

Lemma blank_prefix_split (u blanks t title : str) (a : ascii) (x : str) :
  forallb isspace u = true -> title = a :: x -> isspace a = false ->
  u ++ t = blanks ++ title ->
  exists b, t = b ++ title /\ (forallb isspace blanks = true ->
                               forallb isspace b = true).
Proof.
  intros Hu -> Ha. revert blanks.
  induction u as [|c u IH]; intros blanks E.
  - exists blanks. auto.
  - simpl in Hu. apply andb_true_iff in Hu. destruct Hu as [Hc Hu].
    destruct blanks as [|b blanks].
    + simpl in E. injection E as -> _. congruence.
    + simpl in E. injection E as <- E.
      destruct (IH Hu blanks E) as (b' & Et & Hb). exists b'.
      split; [exact Et |]. simpl. rewrite Hc. exact Hb.
Qed.

Lemma strip_blank_prefix (b title : str) :
  forallb isspace b = true -> trimmed title -> strip (b ++ title) = title.
Proof.
  intros Hb [Hne Hs]. unfold strip in *. rewrite lstrip_app, Hb. exact Hs.
Qed.

Lemma join_digits (parts : list str) :
  Forall (fun d => d <> [] /\ forallb isdigit d = true) parts ->
  forallb (fun c => isdigit c || Ascii.eqb c "."%char) (join (lit ".") parts)
  = true.
Proof.
  assert (Hd : forall d, forallb isdigit d = true ->
                 forallb (fun c => isdigit c || Ascii.eqb c "."%char) d = true).
  { intros d. apply forallb_impl. intros c ->. reflexivity. }
  induction 1 as [|d rest [_ H] _ IH]; [reflexivity |].
  destruct rest as [|e rest]; [exact (Hd d H) |].
  change (join (lit ".") (d :: e :: rest))
    with (d ++ "."%char :: join (lit ".") (e :: rest)).
  rewrite forallb_app, (Hd d H). cbn [forallb]. rewrite IH. reflexivity.
Qed.

(** A number of one to three groups of digits is read by the pattern for
    numbers. *)
Lemma path_number (parts : list str) (after : str) (cs : list (nat * str)) :
  1 <= length parts <= 3 ->
  Forall (fun d => d <> [] /\ forallb isdigit d = true) parts ->
  exists pv',
    path true number_ (MState None (join (lit ".") parts ++ after) cs)
      (MState pv' after cs).
Proof.
  intros Hlen Hparts.
  assert (Hplus : forall d s pv, d <> [] -> forallb isdigit d = true ->
            exists pv', path true (Plus digit_) (MState pv (d ++ s) cs)
                          (MState pv' s cs)).
  { intros d s pv Hne Hd. apply path_plus_chars; [exact Hne |].
    rewrite (forallb_eq _ _ d in_set_ic_digit). exact Hd. }
  assert (Hstar : forall d s pv, forallb isdigit d = true ->
            exists pv', path true (Star digit_) (MState pv (d ++ s) cs)
                          (MState pv' s cs)).
  { intros d s pv Hd. apply path_star_chars.
    rewrite (forallb_eq _ _ d in_set_ic_digit). exact Hd. }
  assert (Hdot : forall s pv,
            path true (Opt dot_) (MState pv ("."%char :: s) cs)
              (MState (Some "."%char) s cs)).
  { intros s pv. apply path_alt_l, path_char. reflexivity. }
  unfold number_, pat. cbn [Seqs].
  destruct parts as [|d1 [|d2 [|d3 [|d4 rest]]]]; simpl in Hlen; try lia.
  - inversion Hparts as [|? ? [N1 D1] _]; subst.
    destruct (Hplus d1 after None N1 D1) as [pv1 P1].
    exists pv1. simpl join.
    eapply path_seq; [exact P1 |].
    eapply path_seq; [apply path_skip |].
    eapply path_seq; [apply path_star_stop |].
    eapply path_seq; [apply path_skip | apply path_star_stop].
  - inversion Hparts as [|? ? [N1 D1] H2]; subst.
    inversion H2 as [|? ? [N2 D2] _]; subst.
    change (join (lit ".") [d1; d2]) with (d1 ++ "."%char :: d2).
    rewrite <- app_assoc. cbn [app].
    destruct (Hplus d1 ("."%char :: d2 ++ after) None N1 D1) as [pv1 P1].
    destruct (Hstar d2 after (Some "."%char) D2) as [pv2 P2].
    exists pv2.
    eapply path_seq; [exact P1 |].
    eapply path_seq; [apply Hdot |].
    eapply path_seq; [exact P2 |].
    eapply path_seq; [apply path_skip | apply path_star_stop].
  - inversion Hparts as [|? ? [N1 D1] H2]; subst.
    inversion H2 as [|? ? [N2 D2] H3]; subst.
    inversion H3 as [|? ? [N3 D3] _]; subst.
    change (join (lit ".") [d1; d2; d3])
      with (d1 ++ "."%char :: d2 ++ "."%char :: d3).
    rewrite <- app_assoc. cbn [app]. rewrite <- app_assoc. cbn [app].
    destruct (Hplus d1 ("."%char :: d2 ++ "."%char :: d3 ++ after) None N1 D1)
      as [pv1 P1].
    destruct (Hstar d2 ("."%char :: d3 ++ after) (Some "."%char) D2)
      as [pv2 P2].
    destruct (Hstar d3 after (Some "."%char) D3) as [pv3 P3].
    exists pv3.
    eapply path_seq; [exact P1 |].
    eapply path_seq; [apply Hdot |].
    eapply path_seq; [exact P2 |].
    eapply path_seq; [apply Hdot | exact P3].
Qed.

Lemma number_reads_digits_ic :
  reads_only true (fun c => isdigit c || Ascii.eqb c "."%char) number_.
Proof.
  unfold number_, pat, Plus, Opt, digit_, dot_, Chr. cbn [Seqs reads_only].
  repeat split; intros c Hc;
    try (rewrite in_set_ic_digit in Hc; rewrite Hc; reflexivity);
    try (rewrite in_set_ic_dot in Hc; rewrite Hc; apply orb_true_r).
Qed.

(** X24. The title of a numbered header is the text after the number: for
    a line made of one to three groups of digits joined by dots, blanks,
    and a trimmed text, [_is_section_header] returns that text.  The number
    is not part of the title, which is where [_extract_sections] looks for
    the section number. *)
Theorem numbered_header_title (parts : list str) (blanks title : str) :
  1 <= length parts <= 3 ->
  Forall (fun d => d <> [] /\ forallb isdigit d = true) parts ->
  blanks <> [] -> forallb isspace blanks = true ->
  trimmed title -> ~ In newline title ->
  length (join (lit ".") parts ++ blanks ++ title) <= 200 ->
  _is_section_header (join (lit ".") parts ++ blanks ++ title)
  = Ok (Some title).
Proof.
  intros Hparts Hdigits Hbne Hblanks Htitle Hnl Hlen.
  set (number := join (lit ".") parts) in *.
  set (line := number ++ blanks ++ title) in *.
  set (p1 := Seqs [Bol; Group 1 number_; Plus ws_; Group 2 (Plus any_)]).
  destruct (trimmed_ends title Htitle) as (a & x & b & y & Ea & Ha & Eb & Hb).
  (* the pattern matches *)
  assert (Hm : match_to_end true p1 line <> None).
  { destruct (path_number parts (blanks ++ title) [] Hparts Hdigits)
      as [pv1 P1].
    fold number in P1.
    destruct (path_plus_chars true false isspace blanks title
                [(1, firstn (length line - length (blanks ++ title)) line)]
                pv1 Hbne) as [pv2 P2].
    { rewrite (forallb_eq _ _ blanks in_set_ic_space). exact Hblanks. }
    destruct (path_plus_chars true true (Ascii.eqb newline) title []
                [(1, firstn (length line - length (blanks ++ title)) line)]
                pv2 (proj1 Htitle)) as [pv3 P3].
    { rewrite (forallb_eq _ _ title in_set_ic_any).
      apply forallb_forall. intros c Hc. apply negb_true_iff.
      apply Ascii.eqb_neq. intros ->. exact (Hnl Hc). }
    rewrite app_nil_r in P3. unfold match_to_end. eapply run_complete.
    - unfold p1. cbn [Seqs].
      apply path_seq with (st1 := MState None line []); [apply path_bol |].
      eapply path_seq; [apply path_group; exact P1 |].
      eapply path_seq; [exact P2 |]. apply path_group. exact P3.
    - discriminate. }
  destruct (match_to_end true p1 line) as [m|] eqn:Em; [clear Hm | congruence].
  (* what the title group holds *)
  destruct (title_group _ number_ line m number_reads_digits_ic Em)
    as (u1 & u2 & t & Eg & Hne & P1 & P2 & N2 & Hline).
  assert (Hlast : line = u1 ++ u2 ++ t).
  { destruct Hline as [E | E]; [exact E | exfalso].
    unfold line in E. rewrite Eb in E.
    rewrite !app_assoc in E. apply app_inj_tail in E. destruct E as [_ ->].
    vm_compute in Hb. discriminate. }
  assert (Et : strip t = title).
  { destruct u2 as [|w u2]; [congruence |].
    destruct blanks as [|w' blanks]; [congruence |].
    simpl in P2, Hblanks.
    apply andb_true_iff in P2, Hblanks.
    destruct P2 as [Hw P2]. destruct Hblanks as [Hw' Hblanks].
    unfold line in Hlast. symmetry in Hlast.
    apply (span_unique (fun c => isdigit c || Ascii.eqb c "."%char)) in Hlast;
      [| exact P1 | apply blank_not_number; exact Hw
       | apply join_digits; exact Hdigits
       | apply blank_not_number; exact Hw'].
    destruct Hlast as [_ E]. injection E as _ E.
    destruct (blank_prefix_split u2 blanks t title a x P2 Ea Ha E)
      as (b' & -> & Hb').
    apply strip_blank_prefix; [apply Hb'; exact Hblanks | exact Htitle]. }
  (* the header *)
  unfold _is_section_header.
  assert (H3 : 3 <= length line).
  { unfold line. rewrite !length_app.
    destruct blanks; [congruence |]. destruct title; [destruct Htitle; congruence |].
    assert (1 <= length number).
    { unfold number. destruct parts as [|d parts]; [simpl in Hparts; lia |].
      inversion Hdigits as [|? ? [N1 _] _]; subst.
      destruct d; [congruence |]. destruct parts; simpl; lia. }
    simpl. lia. }
  replace (length line <? 3) with false by (symmetry; apply Nat.ltb_ge; lia).
  replace (200 <? length line) with false
    by (symmetry; apply Nat.ltb_ge; lia).
  cbn [orb].
  change (first_match section_patterns line)
    with (match match_to_end true p1 line with
          | Some m => Some (p1, m)
          | None => first_match (tl section_patterns) line
          end).
  rewrite Em. change (2 <=? ngroups p1) with true. cbv iota.
  unfold group. change (2 <=? ngroups p1) with true. unfold bind.
  rewrite Eg. simpl as_str. cbv iota. rewrite Et. reflexivity.
Qed.

Lemma numbered_header_title_witness :
  _is_section_header (lit "2.1  Related work") = Ok (Some (lit "Related work")).
Proof.
  apply (numbered_header_title [lit "2"; lit "1"] (lit "  ")
           (lit "Related work")).
  - simpl. lia.
  - repeat constructor; discriminate.
  - discriminate.
  - reflexivity.
  - split; [discriminate | reflexivity].
  - vm_compute. intuition discriminate.
  - simpl. lia.
Defined.

(** *** Text in front of the first header *)

Lemma split_join (lines : list str) :
  lines <> [] -> Forall (fun l => ~ In newline l) lines ->
  split_on newline (join [newline] lines) = lines.
Proof.
  assert (Hfree : forall l, ~ In newline l ->
            forallb (fun c => negb (Ascii.eqb c newline)) l = true).
  { intros l Hl. apply forallb_forall. intros c Hc. apply negb_true_iff.
    apply Ascii.eqb_neq. intros ->. exact (Hl Hc). }
  intros Hne H. revert Hne.
  induction H as [|l rest Hl _ IH]; intros Hne;
    [exfalso; apply Hne; reflexivity |].
  unfold split_on in *. destruct rest as [|l2 rest].
  - simpl join. rewrite (split_on_from_whole newline l [] (Hfree l Hl)).
    reflexivity.
  - change (join [newline] (l :: l2 :: rest))
      with (l ++ newline :: join [newline] (l2 :: rest)).
    rewrite (split_on_from_prefix newline l _ [] (Hfree l Hl)).
    rewrite IH; [reflexivity | discriminate].
Qed.

Lemma run_lines_app (a b : list str) (st : state) :
  run_lines st (a ++ b) = (st' <- run_lines st a ;; run_lines st' b).
Proof.
  revert st. induction a as [|l a IH]; intros st; simpl; [reflexivity |].
  destruct (step st l) as [st1|e]; simpl; [apply IH | reflexivity].
Qed.

(** Lines that are neither page markers nor headers leave the list of
    sections, the current section and the page as they are. *)
Lemma run_lines_plain (front : list str) (st : state) :
  Forall (fun l => starts_with page_marker (strip l) = false /\
                   _is_section_header (strip l) = Ok None) front ->
  exists st',
    run_lines st front = Ok st' /\
    sections_so_far st' = sections_so_far st /\
    current_section st' = current_section st /\
    current_page st' = current_page st.
Proof.
  intros H. revert st. induction H as [|l front [Hm Hh] _ IH]; intros st.
  - exists st. simpl. auto.
  - simpl. unfold step. rewrite Hm, Hh. cbn [bind].
    destruct (strip l) as [|c t]; cbn [bind].
    + apply IH.
    + destruct (IH {| sections_so_far := sections_so_far st;
                      current_section := current_section st;
                      current_content := current_content st ++ [c :: t];
                      current_page := current_page st |})
        as (st' & E & H1 & H2 & H3).
      exists st'. auto.
Qed.

(** X25. Text in front of the first header belongs to no section: unless
    the result is the single section that holds the whole document, lines
    that are neither headers nor page markers can be put in front of a
    text that begins with a header without changing the sections. *)
Theorem text_before_first_header_is_dropped (front : list str) (header : str)
    (more : list str) (sections : list DocumentSection)
    (s : DocumentSection) :
  Forall (fun l => ~ In newline l) (front ++ header :: more) ->
  Forall (fun l => starts_with page_marker (strip l) = false /\
                   _is_section_header (strip l) = Ok None) front ->
  starts_with page_marker (strip header) = false ->
  (exists c t, _is_section_header (strip header) = Ok (Some (c :: t))) ->
  _extract_sections (join [newline] (header :: more)) = Ok sections ->
  In s sections -> s <> whole_document (join [newline] (header :: more)) ->
  _extract_sections (join [newline] (front ++ header :: more)) = Ok sections.
Proof.
  intros Hfree Hfront Hm (c & t & Hh) H Hin Hs.
  unfold _extract_sections in *.
  assert (Hfree' : Forall (fun l => ~ In newline l) (header :: more)).
  { apply Forall_app in Hfree. apply Hfree. }
  rewrite split_join in H; [| discriminate | exact Hfree'].
  rewrite split_join; [| destruct front; discriminate | exact Hfree].
  rewrite run_lines_app.
  destruct (run_lines_plain front initial Hfront) as (st & -> & H1 & H2 & H3).
  cbn [bind].
  assert (E : step st header = step initial header).
  { unfold step. rewrite Hm, Hh. cbn [bind].
    destruct (_extract_section_number (c :: t)); [| reflexivity].
    cbn [bind]. unfold save. rewrite H1, H2, H3. reflexivity. }
  change (run_lines st (header :: more))
    with (st' <- step st header ;; run_lines st' more).
  rewrite E.
  change (st' <- step initial header ;; run_lines st' more)
    with (run_lines initial (header :: more)).
  destruct (run_lines initial (header :: more)) as [final|e];
    [| discriminate].
  cbn [bind] in *. destruct (save final) as [|s0 l0].
  - exfalso. destruct (strip (join [newline] (header :: more)));
      injection H as <-; [exact Hin |].
    destruct Hin as [<- | []]. apply Hs. reflexivity.
  - destruct (strip (join [newline] (header :: more)));
      destruct (strip (join [newline] (front ++ header :: more)));
      exact H.
Qed.

Lemma text_before_first_header_is_dropped_witness :
  _extract_sections
    (join [newline] [lit "RESULTS"; lit "The error falls by 3 percent."])
  = Ok [Samples.mk_section "RESULTS" "The error falls by 3 percent." 1 None]
  /\
  _extract_sections
    (join [newline]
       [lit "A report, written in 2024."; lit "RESULTS";
        lit "The error falls by 3 percent."])
  = Ok [Samples.mk_section "RESULTS" "The error falls by 3 percent." 1 None].
Proof.
  assert (E : _extract_sections
                (join [newline]
                   [lit "RESULTS"; lit "The error falls by 3 percent."])
              = Ok [Samples.mk_section "RESULTS"
                      "The error falls by 3 percent." 1 None])
    by (vm_compute; reflexivity).
  split; [exact E |].
  apply (text_before_first_header_is_dropped
           [lit "A report, written in 2024."] (lit "RESULTS")
           [lit "The error falls by 3 percent."] _
           (Samples.mk_section "RESULTS" "The error falls by 3 percent."
              1 None)).
  - repeat constructor; vm_compute; intuition discriminate.
  - repeat constructor; vm_compute; reflexivity.
  - reflexivity.
  - eexists _, _. vm_compute. reflexivity.
  - exact E.
  - left. reflexivity.
  - vm_compute. discriminate.
Defined.

(** *** Page numbers *)

Lemma step_pages (lines : list str) (st st' : state) (raw : str) :
  In raw lines -> pages_marked lines st -> step st raw = Ok st' ->
  pages_marked lines st'.
Proof.
  intros Hin (Hp & Hs & Hc). unfold step.
  destruct (starts_with page_marker (strip raw)) eqn:Em.
  - intros [= <-]. split; [| split; assumption]. cbn [current_page].
    unfold marked_page.
    destruct (index (split_ws (strip raw)) 2) as [token|e] eqn:Ei;
      [| exact Hp].
    destruct (int token) as [n|] eqn:En; [| exact Hp].
    right. exists raw, token. auto.
  - destruct (_is_section_header (strip raw)) as [h|e]; [| discriminate].
    cbn [bind].
    assert (Hline : forall r,
               match strip raw with
               | [] => Ok st
               | _ :: _ =>
                   Ok {| sections_so_far := sections_so_far st;
                         current_section := current_section st;
                         current_content := current_content st ++ [strip raw];
                         current_page := current_page st |}
               end = Ok r -> pages_marked lines r).
    { intros r. destruct (strip raw); intros [= <-]; repeat split; assumption. }
    destruct h as [[|c t]|]; try apply Hline.
    destruct (_extract_section_number (c :: t)) as [n|e]; [| discriminate].
    cbn [bind]. intros [= <-]. split; [exact Hp |]. split; [| exact Hp].
    cbn [sections_so_far]. unfold save.
    destruct (current_section st) as [sec|]; [| exact Hs].
    destruct (current_content st); [exact Hs |].
    apply Forall_app. split; [exact Hs |]. constructor; [exact Hc | constructor].
Qed.

Lemma run_lines_pages (lines ls : list str) (st st' : state) :
  (forall l, In l ls -> In l lines) -> pages_marked lines st ->
  run_lines st ls = Ok st' -> pages_marked lines st'.
Proof.
  revert st. induction ls as [|l ls IH]; intros st Hsub Hp; simpl.
  - intros [= <-]. exact Hp.
  - destruct (step st l) as [st1|e] eqn:E; [| discriminate]. cbn [bind].
    apply IH; [intros x Hx; apply Hsub; right; exact Hx |].
    exact (step_pages lines st st1 l (Hsub l (or_introl eq_refl)) Hp E).
Qed.

(** X26. Page numbers come from the page markers alone: the page of an
    extracted section is 1, or the integer that the third word of some
    line beginning with [--- PAGE ] writes. *)
Theorem section_pages_are_marked (text : str)
    (sections : list DocumentSection) (s : DocumentSection) :
  _extract_sections text = Ok sections -> In s sections ->
  marked (split_on newline text) (page_number s).
Proof.
  unfold _extract_sections.
  destruct (run_lines initial (split_on newline text)) as [final|e] eqn:E;
    [| discriminate].
  cbn [bind].
  assert (Hp : pages_marked (split_on newline text) final).
  { apply (run_lines_pages _ _ initial final (fun l H => H)); [| exact E].
    repeat split; [left; reflexivity | constructor]. }
  destruct Hp as (_ & Hs & Hc).
  assert (Hsave : Forall (fun s => marked (split_on newline text)
                                     (page_number s)) (save final)).
  { unfold save. destruct (current_section final) as [sec|]; [| exact Hs].
    destruct (current_content final); [exact Hs |].
    apply Forall_app. split; [exact Hs |]. constructor; [exact Hc | constructor]. }
  destruct (save final) as [|s0 l0].
  - destruct (strip text); intros [= <-]; [intros [] |].
    intros [<- | []]. left. reflexivity.
  - intros H Hin.
    assert (E' : sections = s0 :: l0) by (destruct (strip text); congruence).
    subst sections. rewrite Forall_forall in Hsave. exact (Hsave s Hin).
Qed.

Lemma section_pages_are_marked_witness :
  marked
    (split_on newline
       (join [newline]
          [lit "--- PAGE 4 ---"; lit "RESULTS";
           lit "The error falls by 3 percent."]))
    4.
Proof.
  apply (section_pages_are_marked
           (join [newline]
              [lit "--- PAGE 4 ---"; lit "RESULTS";
               lit "The error falls by 3 percent."])
           [Samples.mk_section "RESULTS" "The error falls by 3 percent."
              4 None]
           (Samples.mk_section "RESULTS" "The error falls by 3 percent."
              4 None)).
  - vm_compute. reflexivity.
  - left. reflexivity.
Defined.

(** *** From the processor to the scorer *)

(** X27. The bonus that the structural score grants for a low section
    number is out of reach of a section whose title does not begin with a
    digit: whatever the header line was, the number is read off the title,
    and a number in the letters I, V and X earns nothing.  A header such as
    [1 Introduction] therefore earns no bonus. *)
Theorem numbering_bonus_needs_digit (text : str)
    (sections : list DocumentSection) (s : DocumentSection) :
  _extract_sections text = Ok sections -> In s sections ->
  (forall c rest, title s = c :: rest -> isdigit c = false) ->
  RelevanceScorer._calculate_structural_score s
  = RelevanceScorer._calculate_structural_score (Variations.with_number s None).
Proof.
  intros E Hin Hd.
  destruct (extract_sections_spec text) as (sections' & E' & Hall).
  rewrite E in E'. injection E' as <-.
  destruct (Hall s Hin) as [(_ & _ & Hn & _) _].
  pose proof (section_number_cases (title s)) as Hc.
  unfold RelevanceScorer._calculate_structural_score, Variations.with_number.
  cbn [title content page_number section_number].
  destruct (title s) as [|c rest] eqn:Et.
  - rewrite Hn in Hc. injection Hc as ->. reflexivity.
  - rewrite (Hd c rest eq_refl) in Hc.
    destruct (Variations.is_roman c).
    + destruct Hc as (n & r & En & _ & Hne & Hr). rewrite Hn in En.
      injection En as ->. destruct n as [|x n]; [congruence |].
      rewrite (first_number_roman (x :: n) Hr). reflexivity.
    + rewrite Hn in Hc. injection Hc as ->. reflexivity.
Qed.

Lemma numbering_bonus_needs_digit_witness :
  RelevanceScorer._calculate_structural_score
    (Samples.mk_section "Introduction" "This paper is about graphs." 1
       (Some "I"))
  = RelevanceScorer._calculate_structural_score
      (Samples.mk_section "Introduction" "This paper is about graphs." 1 None).
Proof.
  apply (numbering_bonus_needs_digit
           (join [newline]
              [lit "1 Introduction"; lit "This paper is about graphs."])
           [Samples.mk_section "Introduction" "This paper is about graphs." 1
              (Some "I")]).
  - vm_compute. reflexivity.
  - left. reflexivity.
  - intros c rest H. injection H as <- _. reflexivity.
Defined.

End ProcessorFacts.

(** ** The structural score as the interpreter computes it *)

Module StructuralFacts.

Import PersonaAnalyzer RelevanceScorer Variations ComponentExtras.
Import PrimFloat.

#[local] Set Warnings "-inexact-float".

(** Every way through the branches of the structural score, the title
    term apart. *)
Ltac other_bonuses section :=
  destruct ((50 <=? word_count (content section))
            && (word_count (content section) <=? 500))%nat;
  destruct (500 <? word_count (content section))%nat;
  destruct (page_number section <=? 3)%Z.

(** C6 (as the code has it). Take a section whose lower-cased title holds
    none of the ten high-value terms and replace the title by one whose
    lower-cased form holds such a term, every other field unchanged: the
    structural score, a sum of doubles, grows strictly, and the growth
    differs from 0.3 by no more than [10^-16]. *)
Theorem high_value_title_adds (section : DocumentSection) (new_title : str) :
  any_in high_value_terms (lower (title section)) = false ->
  any_in high_value_terms (lower new_title) = true ->
  (Binary64._calculate_structural_score section
   <? Binary64._calculate_structural_score
        (Samples.with_title section new_title))%float = true /\
  Binary64.differ_by
    (Binary64._calculate_structural_score
       (Samples.with_title section new_title))
    (Binary64._calculate_structural_score section)
    (QArith_base.Qmake 3 10) = true.
Proof.
  intros Hold Hnew.
  unfold Binary64._calculate_structural_score, Samples.with_title.
  cbn [title content page_number section_number]. rewrite Hold, Hnew.
  destruct (section_number section) as [[|c n]|];
    [| destruct (first_number_le_3 (c :: n)) |];
    other_bonuses section; vm_compute; split; reflexivity.
Qed.

Lemma high_value_title_adds_witness :
  (Binary64._calculate_structural_score
     (Samples.mk_section "References" "" 6 None)
   <? Binary64._calculate_structural_score
        (Samples.with_title (Samples.mk_section "References" "" 6 None)
           (lit "Results")))%float = true.
Proof.
  apply (high_value_title_adds (Samples.mk_section "References" "" 6 None)
           (lit "Results")); vm_compute; reflexivity.
Defined.

(** C6, the claim as stated fails: the growth is not always 0.3.  For a
    section with the number 1 on page 1, without body, the score goes from
    0.30000000000000004 to 0.6, and 0.30000000000000004 + 0.3 is another
    double. *)
Lemma high_value_title_not_exact :
  any_in high_value_terms (lower (lit "References")) = false /\
  any_in high_value_terms (lower (lit "Results")) = true /\
  Binary64._calculate_structural_score
    (Samples.mk_section "References" "" 1 (Some "1"))
  = 0.30000000000000004%float /\
  Binary64._calculate_structural_score
    (Samples.with_title (Samples.mk_section "References" "" 1 (Some "1"))
       (lit "Results"))
  = 0.6%float /\
  (Binary64._calculate_structural_score
     (Samples.with_title (Samples.mk_section "References" "" 1 (Some "1"))
        (lit "Results"))
   =? Binary64._calculate_structural_score
        (Samples.mk_section "References" "" 1 (Some "1")) + 0.3)%float
  = false.
Proof. repeat split; vm_compute; reflexivity. Qed.

(** X6. The structural score is a double between 0 and 0.8, so the clamp
    at 1.0 never takes effect, and it lies within [10^-16] of a multiple
    of 0.1; it need not be the double nearest to that multiple, as the
    score 0.30000000000000004 of a numbered section on page 1 shows. *)
Theorem structural_score_values (section : DocumentSection) :
  (0 <=? Binary64._calculate_structural_score section)%float = true /\
  (Binary64._calculate_structural_score section <=? 0.8)%float = true /\
  (exists n : nat,
      n <= 8 /\
      Binary64.near (Binary64._calculate_structural_score section)
        (QArith_base.Qmake (Z.of_nat n) 10) = true) /\
  Binary64._calculate_structural_score
    (Samples.mk_section "References" "" 1 (Some "1"))
  = 0.30000000000000004%float.
Proof.
  assert (Hcases :
            (0 <=? Binary64._calculate_structural_score section)%float = true
            /\ (Binary64._calculate_structural_score section <=? 0.8)%float
               = true
            /\ existsb
                 (fun n =>
                    Binary64.near (Binary64._calculate_structural_score section)
                      (QArith_base.Qmake (Z.of_nat n) 10))
                 (seq 0 9) = true).
  { unfold Binary64._calculate_structural_score.
    destruct (any_in high_value_terms (lower (title section)));
      (destruct (section_number section) as [[|c n]|];
       [| destruct (first_number_le_3 (c :: n)) |]);
      other_bonuses section;
      repeat split; vm_compute; reflexivity. }
  destruct Hcases as (H0 & H8 & Hn).
  split; [exact H0 |]. split; [exact H8 |].
  split; [| vm_compute; reflexivity].
  apply existsb_exists in Hn. destruct Hn as (n & Hin & Hnear).
  exists n. split; [| exact Hnear].
  apply in_seq in Hin. lia.
Qed.

(** X10. For a section number that consists of decimal digits, alone or
    followed by a dot and anything, the structural score grants the bonus
    for a low number exactly when the number the digits write is at most
    3: then the score is strictly greater than without the number, by 0.2
    up to [10^-16]; otherwise it is the score without the number. *)
Theorem section_number_bonus (section : DocumentSection)
    (digits rest number : str) :
  digits <> [] -> forallb isdigit digits = true ->
  number = digits \/ number = digits ++ "."%char :: rest ->
  if (decimal_value digits <=? 3)%N
  then
    (Binary64._calculate_structural_score (with_number section None)
     <? Binary64._calculate_structural_score
          (with_number section (Some number)))%float = true /\
    Binary64.differ_by
      (Binary64._calculate_structural_score
         (with_number section (Some number)))
      (Binary64._calculate_structural_score (with_number section None))
      (QArith_base.Qmake 2 10) = true
  else
    Binary64._calculate_structural_score (with_number section (Some number))
    = Binary64._calculate_structural_score (with_number section None).
Proof.
  intros Hne H Hnumber.
  destruct (first_number_digits digits rest Hne H) as [E1 E2].
  assert (E : first_number_le_3 number = (decimal_value digits <=? 3)%N)
    by (destruct Hnumber as [-> | ->]; assumption).
  assert (Hnum : exists c n, number = c :: n).
  { destruct digits as [|c ds]; [congruence |].
    destruct Hnumber as [-> | ->]; simpl; eauto. }
  destruct Hnum as (c & n & Ec). rewrite Ec in *. clear Ec Hnumber E1 E2.
  unfold Binary64._calculate_structural_score, with_number.
  cbn [title content page_number section_number]. rewrite E.
  destruct (decimal_value digits <=? 3)%N;
    destruct (any_in high_value_terms (lower (title section)));
    other_bonuses section;
    try reflexivity; vm_compute; split; reflexivity.
Qed.

Lemma section_number_bonus_witness :
  (Binary64._calculate_structural_score
     (with_number Samples.results_section None)
   <? Binary64._calculate_structural_score
        (with_number Samples.results_section (Some (lit "3.9"))))%float
  = true /\
  Binary64._calculate_structural_score
    (with_number Samples.results_section (Some (lit "10")))
  = Binary64._calculate_structural_score
      (with_number Samples.results_section None).
Proof.
  split.
  - exact (proj1 (section_number_bonus Samples.results_section (lit "3")
                    (lit "9") (lit "3.9") ltac:(discriminate) eq_refl
                    (or_intror eq_refl))).
  - exact (section_number_bonus Samples.results_section (lit "10") []
             (lit "10") ltac:(discriminate) eq_refl (or_introl eq_refl)).
Defined.

End StructuralFacts.
